(** * Reconciliation and order execution of the Binance futures executor

    A shallow embedding of [executor.py]: the symbol formatter, the
    per-side position book, the trade planner of [execute_trades], the order
    sizing and submission of [place_order], the sequential execution loop and
    the balance gate of [run_daily_trade].

    Conventions of the embedding.
    - A Python [float] is a rational of [Q]; comparisons are the boolean
      tests of the source.  The flow of control is modelled with exact
      arithmetic.  Where a statement rests on the value of a difference, a
      sum or a product, or on the sizing loop coming to an end, the
      operations are rounded to binary64 as Python rounds them: these are
      the definitions in [_fl] and [round_binary64].  Infinities and NaN
      are outside the model.
    - A Python [dict] is an association list in insertion order; a dict has
      no repeated key, which statements that need it assume as [NoDup] of the
      keys.
    - The exchange client is a record of state transformers over an abstract
      world; every call may raise.  Exceptions, [try]/[except] and loops
      without a bound are explicit in a small monad. *)

From Stdlib Require Import List String Ascii Bool Arith ZArith QArith Qabs Qround.
From Stdlib Require Import Qpower Lia Lqa.
Import ListNotations.

Local Open Scope string_scope.
Local Open Scope list_scope.
Local Open Scope Q_scope.

(** ** Numbers *)

(** [x < y] on floats, as a test. *)
Definition Qlt_bool (x y : Q) : bool := negb (Qle_bool y x).

(** [int(x)] for [x >= 0]: truncation toward zero. *)
Definition int_abs (x : Q) : Z := Qfloor (Qabs x).

(** ** Strings: [format_symbol_for_binance] *)

(** [symbol.split(':')[0]] *)
Fixpoint before_colon (s : string) : string :=
  match s with
  | EmptyString => EmptyString
  | String c s' => if Ascii.eqb c ":" then EmptyString else String c (before_colon s')
  end.

(** [symbol.replace('/', '')] *)
Fixpoint remove_slashes (s : string) : string :=
  match s with
  | EmptyString => EmptyString
  | String c s' => if Ascii.eqb c "/" then remove_slashes s' else String c (remove_slashes s')
  end.

(** [s.endswith(suffix)] *)
Definition endswith (s suffix : string) : bool :=
  let n := String.length s in
  let m := String.length suffix in
  (m <=? n)%nat && String.eqb (substring (n - m) m s) suffix.

Definition format_symbol_for_binance (symbol : string) : string :=
  let symbol := before_colon symbol in
  let symbol := remove_slashes symbol in
  let symbol :=
    if endswith symbol "USDT"
    then substring 0 (String.length symbol - 4) symbol
    else symbol in
  (symbol ++ "USDT")%string.

(** [needle in haystack] on strings *)
Fixpoint str_contains (needle haystack : string) : bool :=
  String.prefix needle haystack ||
  match haystack with
  | EmptyString => false
  | String _ rest => str_contains needle rest
  end.

(** ** Dictionaries keyed by symbol *)

Definition dict (V : Type) : Type := list (string * V).

Fixpoint dict_get {V : Type} (d : dict V) (k : string) : option V :=
  match d with
  | [] => None
  | (k', v) :: d' => if String.eqb k k' then Some v else dict_get d' k
  end.

(** [k in d] *)
Definition dict_mem {V : Type} (d : dict V) (k : string) : bool :=
  match dict_get d k with Some _ => true | None => false end.

(** [d.get(k, default)] *)
Definition dict_get_default {V : Type} (d : dict V) (k : string) (default : V) : V :=
  match dict_get d k with Some v => v | None => default end.

(** [d[k] = v]: in place when [k] is a key, at the end otherwise. *)
Fixpoint dict_set {V : Type} (d : dict V) (k : string) (v : V) : dict V :=
  match d with
  | [] => [(k, v)]
  | (k', v') :: d' =>
      if String.eqb k k' then (k', v) :: d' else (k', v') :: dict_set d' k v
  end.

Definition keys {V : Type} (d : dict V) : list string := map fst d.

(** ** Data model of [execute_trades] *)

Inductive order_side : Type := buy | sell.
Inductive position_side : Type := LONG | SHORT.
Inductive action_kind : Type := close | adjust.

(** The inner dictionary [{'LONG': _, 'SHORT': _}] of the current book. *)
Record side_info : Type := mk_side_info { qLONG : Q; qSHORT : Q }.

Definition flat : side_info := {| qLONG := 0; qSHORT := 0 |}.

(** One element of [trade_plan]. *)
Record trade : Type := mk_trade {
  symbol : string;
  side : order_side;
  quantity : Q;
  positionSide : position_side;
  action : action_kind
}.

(** A position record as [fetch_positions] returns it: [pos['symbol']],
    [pos['contracts']], [pos['side']] and [pos['info']['positionSide']]. *)
Record position : Type := mk_position {
  pos_symbol : string;
  pos_contracts : Q;
  pos_side : string;
  pos_positionSide : string
}.

(** ** The current book (lines 444-455) *)

(** [current_positions[symbol][position_side] = contracts].  The planner
    reads the keys ['LONG'] and ['SHORT'] only; a write under another tag
    adds a key that is never read. *)
Definition set_side (info : side_info) (position_side : string) (contracts : Q) : side_info :=
  if String.eqb position_side "LONG" then {| qLONG := contracts; qSHORT := qSHORT info |}
  else if String.eqb position_side "SHORT" then {| qLONG := qLONG info; qSHORT := contracts |}
  else info.

Definition record_position (current_positions : dict side_info) (pos : position)
  : dict side_info :=
  if Qlt_bool 0 (Qabs (pos_contracts pos)) then
    let symbol := format_symbol_for_binance (pos_symbol pos) in
    let current_positions :=
      if dict_mem current_positions symbol then current_positions
      else dict_set current_positions symbol flat in
    dict_set current_positions symbol
      (set_side (dict_get_default current_positions symbol flat)
                (pos_positionSide pos) (pos_contracts pos))
  else current_positions.

Definition current_positions_of (positions : list position) : dict side_info :=
  fold_left record_position positions [].

(** ** The planner (lines 457-552) *)

(** Step 1, one iteration: an instrument held and not targeted is cleared. *)
Definition clear_symbol (target_positions : dict Q) (entry : string * side_info)
  : list trade :=
  let (symbol, positions_info) := entry in
  if dict_mem target_positions symbol then []
  else
    (if Qlt_bool 0 (qLONG positions_info)
     then [mk_trade symbol sell (qLONG positions_info) LONG close] else [])
    ++
    (if Qlt_bool 0 (qSHORT positions_info)
     then [mk_trade symbol buy (qSHORT positions_info) SHORT close] else []).

(** Step 2, one iteration: a targeted instrument is moved toward its target. *)
Definition adjust_symbol (current_positions : dict side_info) (entry : string * Q)
  : list trade :=
  let (symbol, target_qty) := entry in
  let formatted_symbol := format_symbol_for_binance symbol in
  let current_info := dict_get_default current_positions formatted_symbol flat in
  if Qlt_bool 0 target_qty then
    (if Qlt_bool 0 (qSHORT current_info)
     then [mk_trade symbol buy (qSHORT current_info) SHORT close] else [])
    ++
    (let qty_diff := target_qty - qLONG current_info in
     if Qlt_bool 1 (Qabs qty_diff)
     then [mk_trade symbol (if Qlt_bool 0 qty_diff then buy else sell)
                    (Qabs qty_diff) LONG adjust]
     else [])
  else if Qlt_bool target_qty 0 then
    (if Qlt_bool 0 (qLONG current_info)
     then [mk_trade symbol sell (qLONG current_info) LONG close] else [])
    ++
    (let qty_diff := Qabs target_qty - qSHORT current_info in
     if Qlt_bool 1 (Qabs qty_diff)
     then [mk_trade symbol (if Qlt_bool 0 qty_diff then sell else buy)
                    (Qabs qty_diff) SHORT adjust]
     else [])
  else
    (if Qlt_bool 0 (qLONG current_info)
     then [mk_trade symbol sell (qLONG current_info) LONG close] else [])
    ++
    (if Qlt_bool 0 (qSHORT current_info)
     then [mk_trade symbol buy (qSHORT current_info) SHORT close] else []).

Definition trade_plan (current_positions : dict side_info) (target_positions : dict Q)
  : list trade :=
  flat_map (clear_symbol target_positions) current_positions
  ++ flat_map (adjust_symbol current_positions) target_positions.

(** ** Order sizing inside [place_order] (lines 224-235 and 269) *)

(** The [params] dictionary of an order: the keys the code reads. *)
Record order_params : Type := mk_params {
  p_positionSide : option position_side;
  p_reduceOnly : option bool
}.

Definition no_params : order_params :=
  {| p_positionSide := None; p_reduceOnly := None |}.

(** [params and params.get('reduceOnly', False)] *)
Definition reduce_only (params : option order_params) : bool :=
  match params with
  | None => false
  | Some p => match p_reduceOnly p with Some b => b | None => false end
  end.

(** The [while notional_value < 5] loop, run for at most [fuel] iterations:
    [None] when the guard still holds after [fuel] iterations. *)
Fixpoint pad_loop (fuel : nat) (quantity notional_value current_price : Q) : option Q :=
  if Qlt_bool notional_value 5 then
    match fuel with
    | O => None
    | S fuel' =>
        let quantity := if Qlt_bool 0 quantity then quantity + 1 else quantity - 1 in
        pad_loop fuel' quantity (Qabs quantity * current_price) current_price
    end
  else Some quantity.

(** A number of iterations after which the loop has left whenever it leaves
    at all ([pad_loop_fuel_complete] below): five times the denominator of
    the price. *)
Definition sizing_fuel (current_price : Q) : nat :=
  Pos.to_nat (5 * Qden current_price).

(** Lines 224-235: the quantity after the minimum-notional adjustment;
    [None] when the loop does not terminate. *)
Definition pad_quantity (params : option order_params) (quantity current_price : Q)
  : option Q :=
  let notional_value := Qabs quantity * current_price in
  if Qlt_bool notional_value 5 && negb (reduce_only params)
  then pad_loop (sizing_fuel current_price) quantity notional_value current_price
  else Some quantity.

(** The amount [place_order] submits: line 269, [int(abs(quantity))], after
    the adjustment. *)
Definition sized_quantity (params : option order_params) (quantity current_price : Q)
  : option Z :=
  option_map int_abs (pad_quantity params quantity current_price).

(** ** The arithmetic of floats

    A sum, a difference or a product of two floats is the exact result
    rounded to the nearest float; comparisons, [abs] and negation are
    exact.  The definitions of this part carry the rounding [rnd] of the
    three operations: [execute_trades] subtracts (lines 501 and 524) and
    [place_order] adds and multiplies (lines 224-234).  For the floats of
    Python [rnd] is [round_binary64]; with the identity for [rnd] the
    definitions are the exact ones above. *)

(** The integer nearest to [x], the even one on a tie. *)
Definition round_half_even (x : Q) : Z :=
  let f := Qfloor x in
  match Qcompare (x - inject_Z f) (1 # 2) with
  | Lt => f
  | Gt => (f + 1)%Z
  | Eq => if Z.even f then f else (f + 1)%Z
  end.

(** [floor (log2 a)] for [a > 0]. *)
Definition Qlog2 (a : Q) : Z :=
  let e := (Z.log2 (Qnum a) - Z.log2 (Zpos (Qden a)))%Z in
  if Qlt_bool a (Qpower 2 e) then (e - 1)%Z else e.

(** The float nearest to [a > 0]: 53 significant bits, the exponent of the
    last bit no less than -1074, ties to the even significand. *)
Definition round_magnitude (a : Q) : Q :=
  let e := Z.max (Qlog2 a - 52) (-1074) in
  Qred (inject_Z (round_half_even (a / Qpower 2 e)) * Qpower 2 e).

(** Rounding to binary64, the [float] of Python.  A result beyond the
    largest float, an infinity in Python, is outside the model. *)
Definition round_binary64 (x : Q) : Q :=
  if Qeq_bool x 0 then 0
  else if Qlt_bool x 0 then - round_magnitude (Qabs x)
  else round_magnitude (Qabs x).

(** [2 ** 53]: up to it every integer is a float. *)
Definition max_exact_integer : Z := 9007199254740992.

(** What the statements below use of a rounding: it keeps the order, and
    an integer up to [2 ** 53] in magnitude is its own rounding.  Rounding
    to binary64 is such a rounding, and so is the identity. *)
Definition float_rounding (rnd : Q -> Q) : Prop :=
  (forall x y, x <= y -> rnd x <= rnd y) /\
  (forall z : Z, (Z.abs z <= max_exact_integer)%Z -> rnd (inject_Z z) == inject_Z z).

(** Step 2 of the planner, one iteration, with the subtractions rounded. *)
Definition adjust_symbol_fl (rnd : Q -> Q) (current_positions : dict side_info)
    (entry : string * Q) : list trade :=
  let (symbol, target_qty) := entry in
  let formatted_symbol := format_symbol_for_binance symbol in
  let current_info := dict_get_default current_positions formatted_symbol flat in
  if Qlt_bool 0 target_qty then
    (if Qlt_bool 0 (qSHORT current_info)
     then [mk_trade symbol buy (qSHORT current_info) SHORT close] else [])
    ++
    (let qty_diff := rnd (target_qty - qLONG current_info) in
     if Qlt_bool 1 (Qabs qty_diff)
     then [mk_trade symbol (if Qlt_bool 0 qty_diff then buy else sell)
                    (Qabs qty_diff) LONG adjust]
     else [])
  else if Qlt_bool target_qty 0 then
    (if Qlt_bool 0 (qLONG current_info)
     then [mk_trade symbol sell (qLONG current_info) LONG close] else [])
    ++
    (let qty_diff := rnd (Qabs target_qty - qSHORT current_info) in
     if Qlt_bool 1 (Qabs qty_diff)
     then [mk_trade symbol (if Qlt_bool 0 qty_diff then sell else buy)
                    (Qabs qty_diff) SHORT adjust]
     else [])
  else
    (if Qlt_bool 0 (qLONG current_info)
     then [mk_trade symbol sell (qLONG current_info) LONG close] else [])
    ++
    (if Qlt_bool 0 (qSHORT current_info)
     then [mk_trade symbol buy (qSHORT current_info) SHORT close] else []).

Definition trade_plan_fl (rnd : Q -> Q) (current_positions : dict side_info)
    (target_positions : dict Q) : list trade :=
  flat_map (clear_symbol target_positions) current_positions
  ++ flat_map (adjust_symbol_fl rnd current_positions) target_positions.

(** The [while notional_value < 5] loop with the sum and the product
    rounded, followed for at most [fuel] iterations: [None] when the guard
    still holds after them. *)
Fixpoint pad_loop_fl (rnd : Q -> Q) (fuel : nat) (quantity notional_value current_price : Q)
  : option Q :=
  if Qlt_bool notional_value 5 then
    match fuel with
    | O => None
    | S fuel' =>
        let quantity :=
          if Qlt_bool 0 quantity then rnd (quantity + 1) else rnd (quantity - 1) in
        pad_loop_fl rnd fuel' quantity (rnd (Qabs quantity * current_price)) current_price
    end
  else Some quantity.

(** Lines 224-235 with the arithmetic of floats. *)
Definition pad_quantity_fl (rnd : Q -> Q) (fuel : nat) (params : option order_params)
    (quantity current_price : Q) : option Q :=
  let notional_value := rnd (Qabs quantity * current_price) in
  if Qlt_bool notional_value 5 && negb (reduce_only params)
  then pad_loop_fl rnd fuel quantity notional_value current_price
  else Some quantity.

(** The amount submitted, line 269 after lines 224-235. *)
Definition sized_quantity_fl (rnd : Q -> Q) (fuel : nat) (params : option order_params)
    (quantity current_price : Q) : option Z :=
  option_map int_abs (pad_quantity_fl rnd fuel params quantity current_price).

(** ** The exchange and the monad of the executor *)

(** An exception, by its message. *)
Definition exn : Type := string.

(** The order record [create_order] returns, by its id. *)
Definition order : Type := string.

(** What the executor does that can be observed from outside: the calls to
    the exchange and the log lines that record a failure. *)
Inductive event : Type :=
| ev_set_hedge_mode
| ev_fetch_balance
| ev_fetch_positions (symbols : option string)
| ev_fetch_ticker (symbol : string)
| ev_market (symbol : string)
| ev_set_leverage (symbol : string) (leverage : Z)
| ev_create_order (symbol : string) (side : order_side) (amount : Z)
                  (params : order_params)
| ev_log_order_skipped (symbol : string)
| ev_log_order_failed (symbol : string)
| ev_log_leverage_failed (symbol : string)
| ev_log_balance_failed
| ev_log_insufficient_balance
| ev_log_positions_failed
| ev_log_execute_failed
| ev_log_stale_signal
| ev_log_no_signal
| ev_log_cycle_failed.

(** The ccxt client: each call transforms the world of the exchange and
    returns or raises. *)
Record Exchange (W : Type) : Type := mk_exchange {
  (** [fapiPrivatePostPositionSideDual] *)
  set_hedge_mode : W -> W * (exn + unit);
  (** [fetch_balance()], read at [['USDT']['free']]; [None]: no such key *)
  fetch_balance : W -> W * (exn + option Q);
  (** [fetch_positions()] and [fetch_positions([symbol])] *)
  fetch_positions : option string -> W -> W * (exn + list position);
  (** [fetch_ticker(symbol)['last']]; [None] when the ticker has no price *)
  fetch_ticker : string -> W -> W * (exn + option Q);
  (** [market(symbol)] read at [limits.amount.min], [0] when a key is
      missing and [None] when the entry is null *)
  market : string -> W -> W * (exn + option Q);
  (** [set_leverage(leverage, symbol)] *)
  exchange_set_leverage : Z -> string -> W -> W * (exn + unit);
  (** [create_order(symbol, 'MARKET', side, amount, params)] *)
  create_order : string -> order_side -> Z -> order_params -> W -> W * (exn + order)
}.

Arguments set_hedge_mode {W} _ _.
Arguments fetch_balance {W} _ _.
Arguments fetch_positions {W} _ _ _.
Arguments fetch_ticker {W} _ _ _.
Arguments market {W} _ _ _.
Arguments exchange_set_leverage {W} _ _ _ _.
Arguments create_order {W} _ _ _ _ _ _.

Record state (W : Type) : Type := mk_state { world : W; trace : list event }.
Arguments mk_state {W} _ _.
Arguments world {W} _.
Arguments trace {W} _.

Inductive outcome (A : Type) : Type :=
| Returned (a : A)
| Raised (e : exn)
| Diverged.
Arguments Returned {A} _.
Arguments Raised {A} _.
Arguments Diverged {A}.

Definition M (W A : Type) : Type := state W -> state W * outcome A.

Definition ret {W A : Type} (a : A) : M W A := fun s => (s, Returned a).

Definition bind {W A B : Type} (c : M W A) (k : A -> M W B) : M W B :=
  fun s =>
    match c s with
    | (s', Returned a) => k a s'
    | (s', Raised e) => (s', Raised e)
    | (s', Diverged) => (s', Diverged)
    end.

Definition raise {W A : Type} (e : exn) : M W A := fun s => (s, Raised e).

(** [try: body except Exception as e: handler e] *)
Definition try_except {W A : Type} (body : M W A) (handler : exn -> M W A) : M W A :=
  fun s =>
    match body s with
    | (s', Raised e) => handler e s'
    | r => r
    end.

(** A log line. *)
Definition log {W : Type} (ev : event) : M W unit :=
  fun s => ({| world := world s; trace := trace s ++ [ev] |}, Returned tt).

(** A call to the exchange, recorded in the trace. *)
Definition call {W A : Type} (ev : event) (f : W -> W * (exn + A)) : M W A :=
  fun s =>
    let (w', r) := f (world s) in
    ({| world := w'; trace := trace s ++ [ev] |},
     match r with inl e => Raised e | inr a => Returned a end).

(** A value used as a number: [None] in arithmetic or a comparison raises
    [TypeError]. *)
Definition number {W : Type} (v : option Q) : M W Q :=
  match v with
  | Some x => ret x
  | None => raise "TypeError"
  end.

(** A subscript: a missing key raises [KeyError]. *)
Definition subscript {W : Type} (v : option Q) : M W Q :=
  match v with
  | Some x => ret x
  | None => raise "KeyError"
  end.

(** The result of a loop that may not terminate. *)
Definition loop_result {W A : Type} (r : option A) : M W A :=
  match r with
  | Some a => ret a
  | None => fun s => (s, Diverged)
  end.

Declare Scope exec_scope.
Delimit Scope exec_scope with exec.
Notation "x <- c ;; k" := (bind c (fun x => k))
  (at level 61, c at next level, right associativity) : exec_scope.
Notation "c ;;; k" := (bind c (fun _ => k))
  (at level 61, right associativity) : exec_scope.
Local Open Scope exec_scope.

(** [for x in l: body x], with the results collected. *)
Fixpoint for_each {W A B : Type} (body : A -> M W B) (l : list A) : M W (list B) :=
  match l with
  | [] => ret []
  | x :: l' =>
      b <- body x ;;
      bs <- for_each body l' ;;
      ret (b :: bs)
  end.

(** ** The executor *)

Section Executor.

Context {W : Type} (ex : Exchange W).

(** [get_account_balance] (lines 154-163) *)
Definition get_account_balance : M W Q :=
  try_except
    (balance <- call ev_fetch_balance (fetch_balance ex) ;;
     usdt_balance <- subscript balance ;;
     ret usdt_balance)
    (fun e => log ev_log_balance_failed ;;; ret 0).

(** One iteration of the loop of [get_current_positions]. *)
Definition note_position (current_positions : dict Q) (pos : position) : dict Q :=
  if Qlt_bool 0 (Qabs (pos_contracts pos)) then
    let contracts := pos_contracts pos in
    let contracts :=
      if String.eqb (pos_side pos) "short" then - Qabs contracts else contracts in
    dict_set current_positions (pos_symbol pos) contracts
  else current_positions.

(** [get_current_positions] (lines 165-187) *)
Definition get_current_positions : M W (dict Q) :=
  try_except
    (positions <- call (ev_fetch_positions None) (fetch_positions ex None) ;;
     ret (fold_left note_position positions []))
    (fun e => log ev_log_positions_failed ;;; ret []).

(** Lines 241-245: the first open position of the symbol. *)
Definition find_current_position (formatted_symbol : string) (positions : list position)
  : option position :=
  find (fun pos => String.eqb (pos_symbol pos) formatted_symbol
                   && Qlt_bool 0 (Qabs (pos_contracts pos)))
       positions.

(** Lines 252-262: the position side of an order that names none. *)
Definition infer_positionSide (side : order_side) (current_position : option position)
  : position_side :=
  match side with
  | buy =>
      match current_position with
      | Some pos => if String.eqb (pos_side pos) "short" then SHORT else LONG
      | None => LONG
      end
  | sell =>
      match current_position with
      | Some pos => if String.eqb (pos_side pos) "long" then LONG else SHORT
      | None => SHORT
      end
  end.

(** [place_order] (lines 211-311) *)
Definition place_order (symbol : string) (side : order_side) (quantity : Q)
    (params : option order_params) : M W (option order) :=
  let formatted_symbol := format_symbol_for_binance symbol in
  try_except
    (last <- call (ev_fetch_ticker formatted_symbol) (fetch_ticker ex formatted_symbol) ;;
     current_price <- number last ;;
     quantity <- loop_result (pad_quantity params quantity current_price) ;;
     positions <- call (ev_fetch_positions (Some formatted_symbol))
                       (fetch_positions ex (Some formatted_symbol)) ;;
     let current_position := find_current_position formatted_symbol positions in
     let params := match params with Some p => p | None => no_params end in
     let params :=
       match p_positionSide params with
       | Some _ => params
       | None => {| p_positionSide := Some (infer_positionSide side current_position);
                    p_reduceOnly := p_reduceOnly params |}
       end in
     limit <- call (ev_market formatted_symbol) (market ex formatted_symbol) ;;
     let quantity := int_abs quantity in
     min_amount <- number limit ;;
     if Qlt_bool (inject_Z quantity) min_amount then
       log (ev_log_order_skipped formatted_symbol) ;;;
       ret None
     else
       try_except
         (order <- call (ev_create_order formatted_symbol side quantity params)
                        (create_order ex formatted_symbol side quantity params) ;;
          ret (Some order))
         (fun e =>
            if str_contains "'float' object cannot be interpreted as an integer" e then
              order <- call (ev_create_order formatted_symbol side quantity params)
                            (create_order ex formatted_symbol side quantity params) ;;
              ret (Some order)
            else raise e))
    (fun e => log (ev_log_order_failed formatted_symbol) ;;; ret None).

(** [set_leverage] (lines 326-337) *)
Definition set_leverage (symbol : string) (leverage : Z) : M W (option unit) :=
  try_except
    (let formatted_symbol := format_symbol_for_binance symbol in
     response <- call (ev_set_leverage formatted_symbol leverage)
                      (exchange_set_leverage ex leverage formatted_symbol) ;;
     ret (Some response))
    (fun e => log (ev_log_leverage_failed symbol) ;;; ret None).

(** The body of the loop over [trade_plan] (lines 557-575), returning the
    trade with the [result] of its order. *)
Definition execute_trade (t : trade) : M W (trade * option order) :=
  try_except
    (set_leverage (symbol t) 1 ;;; ret tt)
    (fun e => log (ev_log_leverage_failed (symbol t)) ;;; ret tt) ;;;
  result <- place_order (symbol t) (side t) (quantity t)
              (Some {| p_positionSide := Some (positionSide t); p_reduceOnly := None |}) ;;
  ret (t, result).

(** Lines 557-577: the plan is executed in order. *)
Definition execute_plan (plan : list trade) : M W (list (trade * option order)) :=
  for_each execute_trade plan.

(** [execute_trades] (lines 434-580), returning what the loop did. *)
Definition execute_trades (target_positions : dict Q)
  : M W (list (trade * option order)) :=
  try_except
    (positions <- call (ev_fetch_positions None) (fetch_positions ex None) ;;
     let current_positions := current_positions_of positions in
     execute_plan (trade_plan current_positions target_positions))
    (fun e => log ev_log_execute_failed ;;; ret []).

(** [BinanceFuturesExecutor.__init__] (lines 143-148) *)
Definition init_executor : M W unit :=
  try_except
    (call ev_set_hedge_mode (set_hedge_mode ex))
    (fun e => ret tt).

End Executor.

(** ** The executor with the arithmetic of floats

    [place_order] and the loop over the plan once more, sized by
    [pad_quantity_fl].  The model follows the sizing loop of an order for
    [fuel] iterations; [Diverged] reads: the loop has not left after them.
    A statement that an entry point returns holds for every [fuel] from some
    number on, and one that it never returns for every [fuel]. *)

Section FloatExecutor.

Context {W : Type} (rnd : Q -> Q) (fuel : nat) (ex : Exchange W).

(** [place_order] (lines 211-311) *)
Definition place_order_fl (symbol : string) (side : order_side) (quantity : Q)
    (params : option order_params) : M W (option order) :=
  let formatted_symbol := format_symbol_for_binance symbol in
  try_except
    (last <- call (ev_fetch_ticker formatted_symbol) (fetch_ticker ex formatted_symbol) ;;
     current_price <- number last ;;
     quantity <- loop_result (pad_quantity_fl rnd fuel params quantity current_price) ;;
     positions <- call (ev_fetch_positions (Some formatted_symbol))
                       (fetch_positions ex (Some formatted_symbol)) ;;
     let current_position := find_current_position formatted_symbol positions in
     let params := match params with Some p => p | None => no_params end in
     let params :=
       match p_positionSide params with
       | Some _ => params
       | None => {| p_positionSide := Some (infer_positionSide side current_position);
                    p_reduceOnly := p_reduceOnly params |}
       end in
     limit <- call (ev_market formatted_symbol) (market ex formatted_symbol) ;;
     let quantity := int_abs quantity in
     min_amount <- number limit ;;
     if Qlt_bool (inject_Z quantity) min_amount then
       log (ev_log_order_skipped formatted_symbol) ;;;
       ret None
     else
       try_except
         (order <- call (ev_create_order formatted_symbol side quantity params)
                        (create_order ex formatted_symbol side quantity params) ;;
          ret (Some order))
         (fun e =>
            if str_contains "'float' object cannot be interpreted as an integer" e then
              order <- call (ev_create_order formatted_symbol side quantity params)
                            (create_order ex formatted_symbol side quantity params) ;;
              ret (Some order)
            else raise e))
    (fun e => log (ev_log_order_failed formatted_symbol) ;;; ret None).

(** The body of the loop over [trade_plan] (lines 557-575). *)
Definition execute_trade_fl (t : trade) : M W (trade * option order) :=
  try_except
    (set_leverage ex (symbol t) 1 ;;; ret tt)
    (fun e => log (ev_log_leverage_failed (symbol t)) ;;; ret tt) ;;;
  result <- place_order_fl (symbol t) (side t) (quantity t)
              (Some {| p_positionSide := Some (positionSide t); p_reduceOnly := None |}) ;;
  ret (t, result).

(** Lines 557-577 *)
Definition execute_plan_fl (plan : list trade) : M W (list (trade * option order)) :=
  for_each execute_trade_fl plan.

(** [execute_trades] (lines 434-580) *)
Definition execute_trades_fl (target_positions : dict Q)
  : M W (list (trade * option order)) :=
  try_except
    (positions <- call (ev_fetch_positions None) (fetch_positions ex None) ;;
     let current_positions := current_positions_of positions in
     execute_plan_fl (trade_plan_fl rnd current_positions target_positions))
    (fun e => log ev_log_execute_failed ;;; ret []).

End FloatExecutor.

(** ** The daily cycle: [run_daily_trade] (lines 582-656) *)

(** What the cycle reads outside the exchange: the newest log file, its
    parsed signal, and the age in days of a signal date ([None] when
    [strptime] rejects the date). *)
Record signal_source : Type := mk_signal_source {
  get_latest_log_file : option string;
  parse_log_file : string -> dict Q * string;
  days_since : string -> option Z
}.

(** How a cycle ended. *)
Inductive cycle_end : Type :=
| no_log_file
| no_signal
| insufficient_balance
| cycle_completed
| cycle_failed.

Definition run_daily_trade {W : Type} (reader : signal_source) (ex : Exchange W)
  : M W cycle_end :=
  try_except
    (match get_latest_log_file reader with
     | None => log ev_log_no_signal ;;; ret no_log_file
     | Some latest_log =>
         let (target_positions, backtest_date) := parse_log_file reader latest_log in
         match target_positions with
         | [] => log ev_log_no_signal ;;; ret no_signal
         | _ :: _ =>
             days_diff <- match days_since reader backtest_date with
                          | Some d => ret d
                          | None => raise "ValueError"
                          end ;;
             (if (3 <? days_diff)%Z then log ev_log_stale_signal else ret tt) ;;;
             init_executor ex ;;;
             balance <- get_account_balance ex ;;
             if Qle_bool balance 0 then
               log ev_log_insufficient_balance ;;;
               ret insufficient_balance
             else
               execute_trades ex target_positions ;;;
               get_current_positions ex ;;;
               ret cycle_completed
         end
     end)
    (fun e => log ev_log_cycle_failed ;;; ret cycle_failed).

(** ** A simulated exchange, for running the model

    The world is the number of orders accepted so far.  [balance] is what
    [fetch_balance] answers, [last] the price of every ticker, [held] the
    open positions, and orders for the symbols of [rejected] are refused. *)

Definition order_id (n : nat) : string :=
  ("order-" ++ String (ascii_of_nat (48 + n mod 10)) EmptyString)%string.

Definition paper_exchange (balance : exn + option Q) (last : option Q)
    (held : list position) (rejected : list string) : Exchange nat :=
  {| set_hedge_mode := fun w => (w, inr tt);
     fetch_balance := fun w => (w, balance);
     fetch_positions := fun _ w => (w, inr held);
     fetch_ticker := fun _ w => (w, inr last);
     market := fun _ w => (w, inr (Some 1));
     exchange_set_leverage := fun _ _ w => (w, inr tt);
     create_order := fun symbol _ _ _ w =>
       if existsb (String.eqb symbol) rejected
       then (w, inl "InvalidOrder")
       else (S w, inr (order_id w)) |}.

Definition fresh : state nat := {| world := O; trace := [] |}.

(** ** The signal reader: [LogSignalReader]

    The file system and the regular expressions are outside the model: the
    directory is given by what [os.path.exists], [os.listdir] and
    [os.path.getmtime] answer, and the log by the matches [re.findall]
    returns for its two sections, with [float] as the conversion of a
    matched size ([None] when it raises [ValueError]). *)

(** [os.path.join(a, b)] on POSIX *)
Definition join_path (a b : string) : string :=
  if String.prefix "/" b then b
  else if String.eqb a "" || endswith a "/" then (a ++ b)%string
  else (a ++ "/" ++ b)%string.

(** What the reader sees of its directory; [None] is a raised [OSError]. *)
Record log_directory : Type := mk_log_directory {
  dir_exists : bool;
  listdir : option (list string);
  getmtime : string -> option Q
}.

(** Line 39: the names the reader keeps. *)
Definition is_signal_log (f : string) : bool :=
  String.prefix "trading_signals_" f && endswith f ".log".

(** [max(rest, key=key)] continued from the best item so far: a later
    item wins only with a greater key. *)
Fixpoint max_by (key : string -> option Q) (best : string) (best_key : Q)
    (rest : list string) : option string :=
  match rest with
  | [] => Some best
  | f :: rest' =>
      match key f with
      | None => None
      | Some k =>
          if Qlt_bool best_key k then max_by key f k rest'
          else max_by key best best_key rest'
      end
  end.

(** [LogSignalReader.get_latest_log_file] (lines 30-51) *)
Definition LogSignalReader_get_latest_log_file (log_dir : string) (fs : log_directory)
  : option string :=
  if negb (dir_exists fs) then None
  else
    match listdir fs with
    | None => None
    | Some names =>
        let log_files := filter is_signal_log names in
        match log_files with
        | [] => None
        | f :: rest =>
            let key := fun f => getmtime fs (join_path log_dir f) in
            match key f with
            | None => None
            | Some k =>
                match max_by key f k rest with
                | None => None
                | Some latest_file => Some (join_path log_dir latest_file)
                end
            end
        end
    end.

(** Lines 94-95: [long_positions[symbol] = float(size)] for each match;
    [None] when a conversion raises. *)
Fixpoint read_long_matches (float : string -> option Q)
    (long_matches : list (string * string)) (long_positions : dict Q)
  : option (dict Q) :=
  match long_matches with
  | [] => Some long_positions
  | (symbol, size) :: rest =>
      match float size with
      | None => None
      | Some size_float =>
          read_long_matches float rest (dict_set long_positions symbol size_float)
      end
  end.

(** Lines 103-108: the same for the short section, a positive size
    negated. *)
Fixpoint read_short_matches (float : string -> option Q)
    (short_matches : list (string * string)) (short_positions : dict Q)
  : option (dict Q) :=
  match short_matches with
  | [] => Some short_positions
  | (symbol, size) :: rest =>
      match float size with
      | None => None
      | Some size_float =>
          let size_float := if Qlt_bool 0 size_float then - size_float else size_float in
          read_short_matches float rest (dict_set short_positions symbol size_float)
      end
  end.

(** [{**a, **b}] *)
Definition dict_merge {V : Type} (a b : dict V) : dict V :=
  fold_left (fun d kv => dict_set d (fst kv) (snd kv)) b a.

(** Lines 84-119 of [parse_log_file], from the matches on: the positions
    it returns, [{}] when a conversion raised. *)
Definition LogSignalReader_parse_positions (float : string -> option Q)
    (long_matches short_matches : list (string * string)) : dict Q :=
  match read_long_matches float long_matches [] with
  | None => []
  | Some long_positions =>
      match read_short_matches float short_matches [] with
      | None => []
      | Some short_positions => dict_merge long_positions short_positions
      end
  end.

(** An exchange out of reach: every call raises, but for the hedge mode
    and the balance. *)
Definition offline_exchange : Exchange nat :=
  {| set_hedge_mode := fun w => (w, inr tt);
     fetch_balance := fun w => (w, inr (Some 100));
     fetch_positions := fun _ w => (w, inl "NetworkError");
     fetch_ticker := fun _ w => (w, inl "NetworkError");
     market := fun _ w => (w, inl "NetworkError");
     exchange_set_leverage := fun _ _ w => (w, inl "NetworkError");
     create_order := fun _ _ _ _ w => (w, inl "NetworkError") |}.

(** ** Vocabulary of the statements *)

(** The current book equals the target: each targeted instrument holds the
    target's magnitude on the target's side and nothing on the other side,
    and an instrument that is not targeted holds nothing. *)
Definition book_equals_target (cur : dict side_info) (tgt : dict Q) : Prop :=
  (forall s t, In (s, t) tgt ->
     let held := dict_get_default cur (format_symbol_for_binance s) flat in
     (0 < t -> qLONG held == t /\ qSHORT held == 0) /\
     (t < 0 -> qSHORT held == - t /\ qLONG held == 0) /\
     (t == 0 -> qLONG held == 0 /\ qSHORT held == 0)) /\
  (forall s held, In (s, held) cur -> ~ In s (keys tgt) ->
     qLONG held == 0 /\ qSHORT held == 0).

(** In [plan], a close comes before an adjust of the same symbol, and the
    two are on opposite position sides. *)
Definition close_before_adjust (plan : list trade) : Prop :=
  forall i j a b,
    nth_error plan i = Some a -> nth_error plan j = Some b ->
    symbol a = symbol b -> action a = close -> action b = adjust ->
    (i < j)%nat /\ positionSide a <> positionSide b.

(** The actions of [plan] for the symbol [s]. *)
Definition actions_of (s : string) (plan : list trade) : list trade :=
  filter (fun t => String.eqb (symbol t) s) plan.

(** The difference the code compares with its threshold. *)
Definition qty_diff (held : side_info) (target_qty : Q) : Q :=
  if Qlt_bool 0 target_qty then target_qty - qLONG held
  else Qabs target_qty - qSHORT held.


(** Every price a ticker reports is positive. *)
Definition positive_prices {W : Type} (ex : Exchange W) : Prop :=
  forall sym w w' p, fetch_ticker ex sym w = (w', inr (Some p)) -> 0 < p.

(** An order event of [place_order symbol side quantity params] carries the
    formatted symbol, the side, and the amount [sized_quantity] gives at
    some price. *)
Definition order_event_of (symbol : string) (side : order_side)
    (params : option order_params) (quantity : Q) (ev : event) : Prop :=
  match ev with
  | ev_create_order sy sd amount _ =>
      sy = format_symbol_for_binance symbol /\ sd = side /\
      exists p, sized_quantity params quantity p = Some amount
  | _ => True
  end.

(** The log lines that record a failed order. *)
Definition failure_log (symbol : string) (ev : event) : Prop :=
  ev = ev_log_order_skipped (format_symbol_for_binance symbol) \/
  ev = ev_log_order_failed (format_symbol_for_binance symbol).

(** The events of planning and ordering. *)
Definition trading_event (ev : event) : Prop :=
  match ev with
  | ev_fetch_positions _ | ev_fetch_ticker _ | ev_market _
  | ev_set_leverage _ _ | ev_create_order _ _ _ _ => True
  | _ => False
  end.

(** The character [c] occurs in [s]. *)
Definition mentions (c : ascii) (s : string) : Prop :=
  In c (list_ascii_of_string s).

(** A magnitude of the book comes from the positions of the instrument
    [k]: it is the initial 0 or the contracts, other than zero, of a
    position of [k] tagged with that side. *)
Definition side_from_positions (positions : list position) (k : string)
    (tag : string) (magnitude : Q) : Prop :=
  magnitude = 0 \/
  exists pos, In pos positions /\ ~ pos_contracts pos == 0 /\
              format_symbol_for_binance (pos_symbol pos) = k /\
              pos_positionSide pos = tag /\ pos_contracts pos = magnitude.

(** [info[position_side]] *)
Definition side_qty (info : side_info) (ps : position_side) : Q :=
  match ps with LONG => qLONG info | SHORT => qSHORT info end.

(** What an action adds to the magnitude of its position side: buying adds
    to a long and selling to a short. *)
Definition magnitude_change (a : trade) : Q :=
  match positionSide a, side a with
  | LONG, buy | SHORT, sell => quantity a
  | LONG, sell | SHORT, buy => - quantity a
  end.

(** The [params] an order is sent with, for the [params] the caller gave:
    [reduceOnly] as given, and the position side given or else inferred
    from the side of the order and some open position. *)
Definition resolved_params (side : order_side) (params : option order_params)
    (sent : order_params) : Prop :=
  let given := match params with Some p => p | None => no_params end in
  p_reduceOnly sent = p_reduceOnly given /\
  match p_positionSide given with
  | Some ps => p_positionSide sent = Some ps
  | None => exists current_position,
      p_positionSide sent = Some (infer_positionSide side current_position)
  end.

(** The event is a call of [create_order]. *)
Definition is_order (ev : event) : bool :=
  match ev with ev_create_order _ _ _ _ => true | _ => false end.

(** An order event belongs to the trade [t] of a plan: its symbol
    formatted, its side, its position side and no [reduceOnly], and an
    amount sized from its quantity. *)
Definition order_of_trade (t : trade) (ev : event) : Prop :=
  match ev with
  | ev_create_order sy sd amount sent =>
      sy = format_symbol_for_binance (symbol t) /\ sd = side t /\
      sent = mk_params (Some (positionSide t)) None /\
      exists p, sized_quantity (Some (mk_params (Some (positionSide t)) None))
                  (quantity t) p = Some amount
  | _ => True
  end.

(** The current book equals the target, instrument by instrument: as
    [book_equals_target], with an instrument that is not targeted being one
    that no key of the target names, however the key is written. *)
Definition book_matches_target (cur : dict side_info) (tgt : dict Q) : Prop :=
  (forall s t, In (s, t) tgt ->
     let held := dict_get_default cur (format_symbol_for_binance s) flat in
     (0 < t -> qLONG held == t /\ qSHORT held == 0) /\
     (t < 0 -> qSHORT held == - t /\ qLONG held == 0) /\
     (t == 0 -> qLONG held == 0 /\ qSHORT held == 0)) /\
  (forall k held, In (k, held) cur ->
     ~ In k (map format_symbol_for_binance (keys tgt)) ->
     qLONG held == 0 /\ qSHORT held == 0).

(** The difference the code compares with its threshold, as the float
    subtraction computes it. *)
Definition qty_diff_fl (rnd : Q -> Q) (held : side_info) (target_qty : Q) : Q :=
  if Qlt_bool 0 target_qty then rnd (target_qty - qLONG held)
  else rnd (Qabs target_qty - qSHORT held).

(** The sizing loop, entered with the quantity [q] at the price [p], leaves
    with the quantity [r]. *)
Definition pad_loop_leaves (rnd : Q -> Q) (q p r : Q) : Prop :=
  exists n, forall fuel, (n <= fuel)%nat ->
    pad_loop_fl rnd fuel q (rnd (Qabs q * p)) p = Some r.

(** The sizing loop never leaves. *)
Definition pad_loop_hangs (rnd : Q -> Q) (q p : Q) : Prop :=
  forall fuel, pad_loop_fl rnd fuel q (rnd (Qabs q * p)) p = None.

(** Lines 224-235 turn the quantity [q] into [r]. *)
Definition pads_to (rnd : Q -> Q) (params : option order_params) (q p r : Q) : Prop :=
  exists n, forall fuel, (n <= fuel)%nat -> pad_quantity_fl rnd fuel params q p = Some r.

(** The amount submitted for the quantity [q] is [m]. *)
Definition sizes_to (rnd : Q -> Q) (params : option order_params) (q p : Q) (m : Z)
  : Prop :=
  exists n, forall fuel, (n <= fuel)%nat -> sized_quantity_fl rnd fuel params q p = Some m.

(** A price of at least [5 / 2 ** 53]: the notional of [2 ** 53] units
    reaches 5. *)
Definition sizable_price (p : Q) : Prop := 5 <= inject_Z max_exact_integer * p.

(** Every price a ticker reports is sizable. *)
Definition sizable_prices {W : Type} (ex : Exchange W) : Prop :=
  forall sym w w' p, fetch_ticker ex sym w = (w', inr (Some p)) -> sizable_price p.

(** At the prices the tickers report, the sizing loop leaves within [fuel]
    iterations. *)
Definition sizing_ends {W : Type} (rnd : Q -> Q) (fuel : nat) (ex : Exchange W) : Prop :=
  forall sym w w' p params q,
    fetch_ticker ex sym w = (w', inr (Some p)) ->
    pad_quantity_fl rnd fuel params q p <> None.

(** An event of the leg of the trade [t]: a call or a log line of lines
    557-575 and of [place_order], for the symbol of [t], an order being on
    its side and position side and without [reduceOnly]. *)
Definition leg_event (t : trade) (ev : event) : Prop :=
  match ev with
  | ev_set_leverage sy leverage =>
      sy = format_symbol_for_binance (symbol t) /\ leverage = 1%Z
  | ev_log_leverage_failed sy => sy = symbol t
  | ev_fetch_ticker sy | ev_fetch_positions (Some sy) | ev_market sy
  | ev_log_order_skipped sy | ev_log_order_failed sy =>
      sy = format_symbol_for_binance (symbol t)
  | ev_create_order sy sd _ sent =>
      sy = format_symbol_for_binance (symbol t) /\ sd = side t /\
      sent = mk_params (Some (positionSide t)) None
  | _ => False
  end.

(** [leg] is what the loop did for the trade [t], with [result] for its
    order: the leverage was asked first and the ticker after it, every
    event is of [t], and the leg holds a failure line exactly when there is
    no order to report, a call of [create_order] when there is one. *)
Definition leg_of (t : trade) (result : option order) (leg : list event) : Prop :=
  (exists rest,
     leg = ev_set_leverage (format_symbol_for_binance (symbol t)) 1 :: rest /\
     In (ev_fetch_ticker (format_symbol_for_binance (symbol t))) rest) /\
  Forall (leg_event t) leg /\
  match result with
  | None => Exists (failure_log (symbol t)) leg
  | Some _ =>
      Exists (fun ev => is_order ev = true) leg /\
      Forall (fun ev => ~ failure_log (symbol t) ev) leg
  end.

(** [tail] is the legs of the trades of [report], one after the other. *)
Fixpoint legs_of (report : list (trade * option order)) (tail : list event) : Prop :=
  match report with
  | [] => tail = []
  | (t, result) :: report' =>
      exists leg rest,
        tail = leg ++ rest /\ leg_of t result leg /\ legs_of report' rest
  end.

(** [pos] is the first position of [positions] that is open and of the
    symbol [formatted_symbol] (lines 241-245). *)
Definition first_open_position (formatted_symbol : string) (positions : list position)
    (pos : position) : Prop :=
  exists before after,
    positions = before ++ pos :: after /\
    pos_symbol pos = formatted_symbol /\ ~ pos_contracts pos == 0 /\
    Forall (fun other => pos_symbol other <> formatted_symbol \/ pos_contracts other == 0)
           before.

(** The rule of lines 252-262 for an order that names no position side: a
    buy goes to SHORT exactly when the first open position of the symbol is
    short, a sell to LONG exactly when it is long. *)
Definition inferred_side (side : order_side) (formatted_symbol : string)
    (positions : list position) (ps : position_side) : Prop :=
  match side with
  | buy =>
      ps = SHORT <->
      exists pos, first_open_position formatted_symbol positions pos /\ pos_side pos = "short"
  | sell =>
      ps = LONG <->
      exists pos, first_open_position formatted_symbol positions pos /\ pos_side pos = "long"
  end.

(** [c] neither reads the trace nor rewrites it: started after the events
    [t] it does what it does started after none, and adds the same
    events. *)
Definition trace_blind {W A : Type} (c : M W A) : Prop :=
  forall w t,
    c {| world := w; trace := t |}
    = ({| world := world (fst (c {| world := w; trace := [] |}));
          trace := t ++ trace (fst (c {| world := w; trace := [] |})) |},
       snd (c {| world := w; trace := [] |})).

(** [wp c Q s]: run from [s], the computation [c] ends in a state and an
    outcome that satisfy [Q]. *)
Definition wp {W A : Type} (c : M W A) (Q : state W -> outcome A -> Prop) (s : state W)
  : Prop :=
  Q (fst (c s)) (snd (c s)).

(** * Properties *)

(** ** Comparisons *)

Lemma Qlt_bool_iff (x y : Q) : Qlt_bool x y = true <-> x < y.
Proof.
  unfold Qlt_bool. rewrite negb_true_iff.
  split; intro H.
  - apply Qnot_le_lt. intro Hle. apply Qle_bool_iff in Hle. congruence.
  - destruct (Qle_bool y x) eqn:E; [|reflexivity].
    apply Qle_bool_iff in E. apply Qle_not_lt in E. contradiction.
Qed.

Lemma Qlt_bool_false_iff (x y : Q) : Qlt_bool x y = false <-> y <= x.
Proof.
  unfold Qlt_bool. rewrite negb_false_iff. apply Qle_bool_iff.
Qed.

(** Case analysis on the first comparison of the goal. *)
Ltac case_lt :=
  match goal with
  | |- context [Qlt_bool ?a ?b] =>
      let E := fresh "E" in
      destruct (Qlt_bool a b) eqn:E;
      [apply Qlt_bool_iff in E | apply Qlt_bool_false_iff in E]
  end.

Ltac case_lt_in H :=
  match type of H with
  | context [Qlt_bool ?a ?b] =>
      let E := fresh "E" in
      destruct (Qlt_bool a b) eqn:E;
      [apply Qlt_bool_iff in E | apply Qlt_bool_false_iff in E]
  end.

Lemma Qabs_cases (x : Q) : (0 <= x /\ Qabs x == x) \/ (x <= 0 /\ Qabs x == - x).
Proof.
  destruct (Qlt_le_dec x 0) as [H|H].
  - right. split; [lra | apply Qabs_neg; lra].
  - left. split; [assumption | apply Qabs_pos; assumption].
Qed.

(** Linear arithmetic after a case analysis on the sign under every
    absolute value. *)
Ltac qabs_lra :=
  repeat match goal with
    | |- context [Qabs ?x] =>
        let a := fresh "a" in
        destruct (Qabs_cases x) as [[? ?]|[? ?]];
        set (a := Qabs x) in *; clearbody a
    | H : context [Qabs ?x] |- _ =>
        let a := fresh "a" in
        destruct (Qabs_cases x) as [[? ?]|[? ?]];
        set (a := Qabs x) in *; clearbody a
    end;
  lra.

(** ** Dictionaries *)

Lemma dict_get_none_iff {V : Type} (d : dict V) (k : string) :
  dict_get d k = None <-> ~ In k (keys d).
Proof.
  induction d as [|[k' v] d IH]; simpl.
  - tauto.
  - destruct (String.eqb_spec k k') as [->|Hne].
    + split; [discriminate | intro H; exfalso; apply H; now left].
    + rewrite IH. split.
      * intros H [Heq|Hin]; [congruence | contradiction].
      * intros H Hin. apply H. now right.
Qed.

Lemma dict_mem_iff {V : Type} (d : dict V) (k : string) :
  dict_mem d k = true <-> In k (keys d).
Proof.
  unfold dict_mem. destruct (dict_get d k) eqn:E.
  - split; [|reflexivity]. intros _.
    destruct (in_dec string_dec k (keys d)) as [Hin|Hnin]; [assumption|].
    apply dict_get_none_iff in Hnin. congruence.
  - apply dict_get_none_iff in E. split; [discriminate | contradiction].
Qed.

Lemma dict_mem_false_iff {V : Type} (d : dict V) (k : string) :
  dict_mem d k = false <-> ~ In k (keys d).
Proof.
  rewrite <- dict_mem_iff. destruct (dict_mem d k); split; congruence.
Qed.

Lemma in_keys {V : Type} (d : dict V) (k : string) (v : V) :
  In (k, v) d -> In k (keys d).
Proof. intro H. apply (in_map fst) in H. exact H. Qed.

Lemma keys_dict_set {V : Type} (d : dict V) (k : string) (v : V) :
  keys (dict_set d k v) = if dict_mem d k then keys d else keys d ++ [k].
Proof.
  induction d as [|[k' v'] d IH]; simpl.
  - reflexivity.
  - unfold dict_mem in *. simpl.
    destruct (String.eqb k k'); simpl.
    + reflexivity.
    + rewrite IH. destruct (dict_get d k); reflexivity.
Qed.

(** The book built from the positions of the exchange is a dictionary. *)
Lemma record_position_keys (d : dict side_info) (pos : position) :
  NoDup (keys d) -> NoDup (keys (record_position d pos)).
Proof.
  intro Hd. unfold record_position.
  destruct (Qlt_bool 0 (Qabs (pos_contracts pos))); [|assumption].
  set (s := format_symbol_for_binance (pos_symbol pos)).
  destruct (dict_mem d s) eqn:E.
  - rewrite keys_dict_set, E. assumption.
  - assert (Hmem : dict_mem (dict_set d s flat) s = true).
    { apply dict_mem_iff. rewrite keys_dict_set, E. apply in_or_app. right. now left. }
    rewrite keys_dict_set, Hmem, keys_dict_set, E.
    apply dict_mem_false_iff in E.
    apply NoDup_app; [assumption | repeat constructor; simpl; tauto |].
    intros x Hx [<-|[]]. contradiction.
Qed.

Lemma current_positions_of_keys (positions : list position) :
  NoDup (keys (current_positions_of positions)).
Proof.
  unfold current_positions_of.
  assert (H : forall d, NoDup (keys d) -> NoDup (keys (fold_left record_position positions d))).
  { induction positions as [|pos l IH]; simpl; intros d Hd.
    - assumption.
    - apply IH, record_position_keys, Hd. }
  apply H. constructor.
Qed.

(** ** The planner *)

(** What one iteration of step 1 emits. *)
Lemma clear_symbol_inv (tgt : dict Q) (s : string) (held : side_info) (t : trade) :
  In t (clear_symbol tgt (s, held)) ->
  symbol t = s /\ action t = close /\ 0 < quantity t /\ ~ In s (keys tgt).
Proof.
  unfold clear_symbol. destruct (dict_mem tgt s) eqn:Em; [intros []|].
  apply dict_mem_false_iff in Em.
  intro H. apply in_app_or in H.
  destruct H as [H|H]; case_lt_in H; cbn [In] in H; try contradiction;
    destruct H as [<-|[]]; cbn [symbol quantity action]; auto.
Qed.

(** What one iteration of step 2 emits. *)
Lemma adjust_symbol_inv (cur : dict side_info) (s : string) (target_qty : Q) (t : trade) :
  In t (adjust_symbol cur (s, target_qty)) ->
  symbol t = s /\ 0 < quantity t /\ (action t = adjust -> ~ target_qty == 0).
Proof.
  unfold adjust_symbol.
  set (held := dict_get_default cur (format_symbol_for_binance s) flat).
  intro H.
  repeat case_lt_in H; cbn [app In] in H;
    repeat (destruct H as [<-|H];
            [cbn [symbol quantity action];
             repeat split; try discriminate; try (intros _ ?); lra|]);
    try contradiction.
Qed.

Lemma step1_inv (cur : dict side_info) (tgt : dict Q) (t : trade) :
  In t (flat_map (clear_symbol tgt) cur) ->
  action t = close /\ 0 < quantity t /\ ~ In (symbol t) (keys tgt) /\ In (symbol t) (keys cur).
Proof.
  intro H. apply in_flat_map in H. destruct H as [[s held] [Hin Ht]].
  apply clear_symbol_inv in Ht. destruct Ht as (<- & Ha & Hq & Hn).
  repeat split; auto. eapply in_keys; eauto.
Qed.

Lemma step2_inv (cur : dict side_info) (tgt : dict Q) (t : trade) :
  In t (flat_map (adjust_symbol cur) tgt) ->
  0 < quantity t /\ In (symbol t) (keys tgt).
Proof.
  intro H. apply in_flat_map in H. destruct H as [[s q] [Hin Ht]].
  apply adjust_symbol_inv in Ht. destruct Ht as (<- & Hq & _).
  split; auto. eapply in_keys; eauto.
Qed.

Lemma flat_map_nil {A B : Type} (f : A -> list B) (l : list A) :
  (forall x, In x l -> f x = []) -> flat_map f l = [].
Proof.
  induction l as [|x l IH]; simpl; intro H.
  - reflexivity.
  - rewrite (H x (or_introl eq_refl)), IH; auto.
Qed.

(** Idempotence of the planner, with the instruments compared as the code
    compares them, a held symbol being targeted when it is itself a key of
    the target: when the current book equals the target book, the plan is
    empty. *)
Theorem plan_empty_when_book_equals_target (cur : dict side_info) (tgt : dict Q) :
  book_equals_target cur tgt -> trade_plan cur tgt = [].
Proof.
  intros [Htgt Hcur]. unfold trade_plan.
  rewrite !flat_map_nil; [reflexivity | |].
  - intros [s t] Hin. specialize (Htgt s t Hin). cbv zeta in Htgt.
    destruct Htgt as (Hpos & Hneg & Hzero).
    unfold adjust_symbol.
    set (held := dict_get_default cur (format_symbol_for_binance s) flat) in *.
    destruct (Qlt_bool 0 t) eqn:E1;
      [apply Qlt_bool_iff in E1 | apply Qlt_bool_false_iff in E1].
    + destruct (Hpos E1) as [HL HS].
      repeat case_lt; try reflexivity; exfalso; qabs_lra.
    + destruct (Qlt_bool t 0) eqn:E2;
        [apply Qlt_bool_iff in E2 | apply Qlt_bool_false_iff in E2].
      * destruct (Hneg E2) as [HS HL].
        repeat case_lt; try reflexivity; exfalso; qabs_lra.
      * assert (Ht : t == 0) by lra.
        destruct (Hzero Ht) as [HL HS].
        repeat case_lt; try reflexivity; exfalso; lra.
  - intros [s held] Hin. unfold clear_symbol.
    destruct (dict_mem tgt s) eqn:Em; [reflexivity|].
    apply dict_mem_false_iff in Em.
    destruct (Hcur s held Hin Em) as [HL HS].
    repeat case_lt; try reflexivity; exfalso; lra.
Qed.

Lemma plan_empty_when_book_equals_target_witness :
  trade_plan [("BTCUSDT", mk_side_info 10 0); ("ETHUSDT", mk_side_info 0 4);
              ("XRPUSDT", mk_side_info 0 0)]
             [("BTCUSDT", 10); ("ETHUSDT", -4); ("SOLUSDT", 0)] = [].
Proof.
  apply plan_empty_when_book_equals_target. split.
  - intros s t H. simpl in H.
    destruct H as [H|[H|[H|[]]]]; inversion H; subst; vm_compute;
      repeat split; intros; try reflexivity; try discriminate.
  - intros s held H Hn. simpl in H.
    destruct H as [H|[H|[H|[]]]]; inversion H; subst;
      try (exfalso; apply Hn; simpl; tauto).
    split; reflexivity.
Defined.

Lemma map_format_formatted (l : list string) :
  Forall (fun k => format_symbol_for_binance k = k) l ->
  map format_symbol_for_binance l = l.
Proof.
  induction 1 as [|k l Hk _ IH]; cbn [map]; [reflexivity|].
  rewrite Hk, IH. reflexivity.
Qed.

(** On a target whose keys are written as the exchange writes them, the
    planner is idempotent. *)
Lemma plan_empty_on_formatted_target (cur : dict side_info) (tgt : dict Q) :
  Forall (fun k => format_symbol_for_binance k = k) (keys tgt) ->
  book_matches_target cur tgt -> trade_plan cur tgt = [].
Proof.
  intros Hfmt [Htgt Hcur]. apply plan_empty_when_book_equals_target.
  split; [exact Htgt|].
  intros s held Hin Hn. apply (Hcur s held Hin).
  rewrite (map_format_formatted _ Hfmt). exact Hn.
Qed.

(** C1, where the code departs from it.  Step 1 looks the held symbol up
    among the keys of the target as they are written (line 462), and step 2
    formats every key of the target before it reads the book (line 486).
    With 10 held long on BTCUSDT and a target of 10 under the key
    BTC/USDT, the book equals the target and the plan closes the
    position. *)
Theorem plan_not_empty_for_unformatted_target_key :
  book_matches_target [("BTCUSDT", mk_side_info 10 0)] [("BTC/USDT", 10)] /\
  trade_plan [("BTCUSDT", mk_side_info 10 0)] [("BTC/USDT", 10)]
  = [mk_trade "BTCUSDT" sell 10 LONG close].
Proof.
  split; [split|reflexivity].
  - intros s t H. simpl in H. destruct H as [H|[]]. inversion H; subst.
    vm_compute. repeat split; intros; try reflexivity; try discriminate.
  - intros k held H Hn. simpl in H. destruct H as [H|[]]. inversion H; subst.
    exfalso. apply Hn. left. reflexivity.
Qed.

(** C2. Every action of a plan, close or adjust, has a strictly positive
    quantity. *)
Theorem plan_quantities_positive (cur : dict side_info) (tgt : dict Q) :
  Forall (fun t => 0 < quantity t) (trade_plan cur tgt).
Proof.
  apply Forall_forall. intros t H. unfold trade_plan in H.
  apply in_app_or in H. destruct H as [H|H].
  - apply step1_inv in H. tauto.
  - apply step2_inv in H. tauto.
Qed.

(** *** Order of the actions of one instrument *)

Lemma close_before_adjust_app (l1 l2 : list trade) :
  close_before_adjust l1 -> close_before_adjust l2 ->
  (forall a b, In a l1 -> In b l2 -> symbol a <> symbol b) ->
  close_before_adjust (l1 ++ l2).
Proof.
  intros H1 H2 Hd i j a b Hi Hj Hs Ha Hb.
  destruct (Nat.lt_ge_cases i (List.length l1)) as [Li|Li];
    destruct (Nat.lt_ge_cases j (List.length l1)) as [Lj|Lj].
  - rewrite nth_error_app1 in Hi, Hj by assumption. eapply H1; eauto.
  - rewrite nth_error_app1 in Hi by assumption.
    rewrite nth_error_app2 in Hj by assumption.
    apply nth_error_In in Hi, Hj. exfalso. eapply Hd; eauto.
  - rewrite nth_error_app2 in Hi by assumption.
    rewrite nth_error_app1 in Hj by assumption.
    apply nth_error_In in Hi, Hj. exfalso. eapply Hd; eauto.
  - rewrite nth_error_app2 in Hi, Hj by assumption.
    destruct (H2 _ _ _ _ Hi Hj Hs Ha Hb) as [Hlt Hps]. split; [lia | assumption].
Qed.

Lemma close_before_adjust_no_adjust (l : list trade) :
  Forall (fun t => action t = close) l -> close_before_adjust l.
Proof.
  intros Hall i j a b _ Hj _ _ Hb. apply nth_error_In in Hj.
  rewrite Forall_forall in Hall. rewrite (Hall b Hj) in Hb. discriminate.
Qed.

Lemma close_before_adjust_no_close (l : list trade) :
  Forall (fun t => action t = adjust) l -> close_before_adjust l.
Proof.
  intros Hall i j a b Hi _ _ Ha _. apply nth_error_In in Hi.
  rewrite Forall_forall in Hall. rewrite (Hall a Hi) in Ha. discriminate.
Qed.

(** The three shapes of what step 2 emits for one instrument. *)
Lemma adjust_symbol_shape (cur : dict side_info) (s : string) (q : Q) :
  let l := adjust_symbol cur (s, q) in
  Forall (fun t => action t = close) l \/
  Forall (fun t => action t = adjust) l \/
  exists c a, l = [c; a] /\ action c = close /\ action a = adjust /\
              positionSide c <> positionSide a.
Proof.
  cbv zeta. unfold adjust_symbol.
  repeat case_lt; cbn [app];
    first [ solve [left; repeat constructor]
          | solve [right; left; repeat constructor]
          | right; right; do 2 eexists; repeat split; discriminate ].
Qed.

Lemma adjust_symbol_order (cur : dict side_info) (s : string) (q : Q) :
  close_before_adjust (adjust_symbol cur (s, q)).
Proof.
  destruct (adjust_symbol_shape cur s q) as [H|[H|(c & a & -> & Hc & Ha & Hps)]].
  - apply close_before_adjust_no_adjust, H.
  - apply close_before_adjust_no_close, H.
  - intros i j x y Hi Hj _ Hx Hy.
    destruct i as [|[|i]]; destruct j as [|[|j]]; simpl in Hi, Hj;
      try discriminate; try (destruct i; discriminate); try (destruct j; discriminate);
      inversion Hi; inversion Hj; subst; try congruence.
    split; [lia | assumption].
Qed.

Lemma step2_order (cur : dict side_info) (tgt : dict Q) :
  NoDup (keys tgt) -> close_before_adjust (flat_map (adjust_symbol cur) tgt).
Proof.
  induction tgt as [|[s q] tgt IH]; intro Hnd.
  - intros [|i] j a b Hi; discriminate.
  - simpl. inversion Hnd as [|? ? Hnotin Hnd']; subst.
    apply close_before_adjust_app.
    + apply adjust_symbol_order.
    + apply IH, Hnd'.
    + intros a b Ha Hb Heq.
      apply adjust_symbol_inv in Ha. destruct Ha as (Hs & _).
      apply step2_inv in Hb. destruct Hb as [_ Hin].
      apply Hnotin. simpl in Hs. rewrite <- Hs, Heq. exact Hin.
Qed.

(** C3. Among the actions of one instrument, the close of the opposite
    side stands before the adjust. *)
Theorem opposite_close_precedes_adjust
    (cur : dict side_info) (tgt : dict Q) (i j : nat) (a b : trade) :
  NoDup (keys tgt) ->
  nth_error (trade_plan cur tgt) i = Some a ->
  nth_error (trade_plan cur tgt) j = Some b ->
  symbol a = symbol b -> action a = close -> action b = adjust ->
  (i < j)%nat /\ positionSide a <> positionSide b.
Proof.
  intro Hnd. revert i j a b.
  change (close_before_adjust (trade_plan cur tgt)).
  unfold trade_plan. apply close_before_adjust_app.
  - apply close_before_adjust_no_adjust, Forall_forall.
    intros t Ht. apply step1_inv in Ht. tauto.
  - apply step2_order, Hnd.
  - intros a b Ha Hb Heq.
    apply step1_inv in Ha. apply step2_inv in Hb.
    destruct Ha as (_ & _ & Hn & _). destruct Hb as [_ Hin].
    apply Hn. rewrite Heq. exact Hin.
Qed.

Lemma opposite_close_precedes_adjust_witness :
  (0 < 1)%nat /\ LONG <> SHORT.
Proof.
  apply (opposite_close_precedes_adjust
           [("BTCUSDT", mk_side_info 3 0)] [("BTCUSDT", -4)] 0 1
           (mk_trade "BTCUSDT" sell 3 LONG close)
           (mk_trade "BTCUSDT" sell (Qabs (Qabs (-4) - 0)) SHORT adjust)).
  - repeat constructor. simpl. tauto.
  - reflexivity.
  - reflexivity.
  - reflexivity.
  - reflexivity.
  - reflexivity.
Defined.

(** *** Instruments held and not targeted *)

Lemma filter_nil {A : Type} (f : A -> bool) (l : list A) :
  (forall x, In x l -> f x = false) -> filter f l = [].
Proof.
  induction l as [|x l IH]; simpl; intro H.
  - reflexivity.
  - rewrite (H x (or_introl eq_refl)). apply IH. auto.
Qed.

Lemma filter_all {A : Type} (f : A -> bool) (l : list A) :
  (forall x, In x l -> f x = true) -> filter f l = l.
Proof.
  induction l as [|x l IH]; simpl; intro H.
  - reflexivity.
  - rewrite (H x (or_introl eq_refl)). f_equal. apply IH. auto.
Qed.

Lemma step1_actions_of (cur : dict side_info) (tgt : dict Q) (s : string)
    (held : side_info) :
  NoDup (keys cur) -> In (s, held) cur ->
  actions_of s (flat_map (clear_symbol tgt) cur) = clear_symbol tgt (s, held).
Proof.
  unfold actions_of.
  induction cur as [|[s' held'] cur IH]; intros Hnd Hin; [contradiction|].
  inversion Hnd as [|? ? Hnotin Hnd']; subst.
  simpl. rewrite filter_app. destruct Hin as [Heq|Hin].
  - inversion Heq; subst. rewrite filter_all, filter_nil.
    + apply app_nil_r.
    + intros t Ht. cbv beta. apply step1_inv in Ht. destruct Ht as (_ & _ & _ & Hk).
      apply String.eqb_neq. intro Hs. rewrite Hs in Hk. contradiction.
    + intros t Ht. cbv beta. apply clear_symbol_inv in Ht. destruct Ht as (-> & _).
      apply String.eqb_refl.
  - rewrite filter_nil, IH; auto.
    intros t Ht. cbv beta. apply clear_symbol_inv in Ht. destruct Ht as (-> & _).
    apply String.eqb_neq. intro Hs. apply Hnotin. rewrite Hs. eapply in_keys; eauto.
Qed.

(** C4. An instrument of the current book that the target book does not
    name gets one close for each side it holds, and nothing else: no
    adjust.  Magnitudes of the book are not negative. *)
Theorem untargeted_instrument_is_closed
    (cur : dict side_info) (tgt : dict Q) (s : string) (held : side_info) :
  NoDup (keys cur) -> In (s, held) cur -> ~ In s (keys tgt) ->
  0 <= qLONG held -> 0 <= qSHORT held ->
  actions_of s (trade_plan cur tgt) =
    (if Qeq_bool (qLONG held) 0 then []
     else [mk_trade s sell (qLONG held) LONG close])
    ++
    (if Qeq_bool (qSHORT held) 0 then []
     else [mk_trade s buy (qSHORT held) SHORT close]).
Proof.
  intros Hnd Hin Hnt HL HS.
  unfold trade_plan, actions_of. rewrite filter_app.
  fold (actions_of s (flat_map (clear_symbol tgt) cur)).
  rewrite (step1_actions_of cur tgt s held Hnd Hin), filter_nil.
  - rewrite app_nil_r. unfold clear_symbol.
    apply dict_mem_false_iff in Hnt. rewrite Hnt.
    f_equal.
    + destruct (Qeq_bool (qLONG held) 0) eqn:E.
      * apply Qeq_bool_iff in E. case_lt; [exfalso; lra | reflexivity].
      * apply Qeq_bool_neq in E. case_lt; [reflexivity | exfalso; apply E; lra].
    + destruct (Qeq_bool (qSHORT held) 0) eqn:E.
      * apply Qeq_bool_iff in E. case_lt; [exfalso; lra | reflexivity].
      * apply Qeq_bool_neq in E. case_lt; [reflexivity | exfalso; apply E; lra].
  - intros t Ht. cbv beta. apply step2_inv in Ht. destruct Ht as [_ Hk].
    apply String.eqb_neq. intros Heq. apply Hnt. rewrite <- Heq. exact Hk.
Qed.

Lemma untargeted_instrument_is_closed_witness :
  actions_of "ETHUSDT"
    (trade_plan [("BTCUSDT", mk_side_info 3 0); ("ETHUSDT", mk_side_info 5 2)]
                [("BTCUSDT", 10)])
  = [mk_trade "ETHUSDT" sell 5 LONG close; mk_trade "ETHUSDT" buy 2 SHORT close].
Proof.
  apply (untargeted_instrument_is_closed
           [("BTCUSDT", mk_side_info 3 0); ("ETHUSDT", mk_side_info 5 2)]
           [("BTCUSDT", 10)] "ETHUSDT" (mk_side_info 5 2)).
  - repeat constructor; simpl; intuition discriminate.
  - simpl. tauto.
  - simpl. intuition discriminate.
  - simpl. lra.
  - simpl. lra.
Defined.

(** *** The threshold of an adjust *)

Lemma dict_functional {V : Type} (d : dict V) (k : string) (v v' : V) :
  NoDup (keys d) -> In (k, v) d -> In (k, v') d -> v = v'.
Proof.
  induction d as [|[k0 v0] d IH]; intros Hnd H H'; [contradiction|].
  inversion Hnd as [|? ? Hnotin Hnd']; subst.
  destruct H as [H|H]; destruct H' as [H'|H'].
  - congruence.
  - inversion H; subst. exfalso. apply Hnotin. eapply in_keys; eauto.
  - inversion H'; subst. exfalso. apply Hnotin. eapply in_keys; eauto.
  - auto.
Qed.

Lemma adjust_symbol_fl_inv (rnd : Q -> Q) (cur : dict side_info) (s : string)
    (target_qty : Q) (t : trade) :
  In t (adjust_symbol_fl rnd cur (s, target_qty)) ->
  symbol t = s /\ 0 < quantity t /\ (action t = adjust -> ~ target_qty == 0).
Proof.
  unfold adjust_symbol_fl.
  set (held := dict_get_default cur (format_symbol_for_binance s) flat).
  intro H.
  repeat case_lt_in H; cbn [app In] in H;
    repeat (destruct H as [<-|H];
            [cbn [symbol quantity action];
             repeat split; try discriminate; try (intros _ ?); lra|]);
    try contradiction.
Qed.


(** The actions of step 2 for one entry of the target. *)
Lemma plan_fl_adjust_of_entry (rnd : Q -> Q) (cur : dict side_info) (tgt : dict Q)
    (s : string) (t : Q) (a : trade) :
  NoDup (keys tgt) -> In (s, t) tgt ->
  In a (trade_plan_fl rnd cur tgt) -> symbol a = s -> action a = adjust ->
  In a (adjust_symbol_fl rnd cur (s, t)).
Proof.
  intros Hnd Hin Ha Hs Hadj.
  unfold trade_plan_fl in Ha. apply in_app_or in Ha. destruct Ha as [Ha|Ha].
  - apply step1_inv in Ha. destruct Ha as (Hc & _). congruence.
  - apply in_flat_map in Ha. destruct Ha as [[s' t'] [Hin' Ha]].
    pose proof (adjust_symbol_fl_inv _ _ _ _ _ Ha) as (Hs' & _).
    rewrite Hs in Hs'. subst s'.
    rewrite (dict_functional tgt s t t' Hnd Hin Hin'). exact Ha.
Qed.


(** With exact arithmetic the planner is [trade_plan]. *)
Lemma trade_plan_fl_exact (cur : dict side_info) (tgt : dict Q) :
  trade_plan_fl (fun x => x) cur tgt = trade_plan cur tgt.
Proof. reflexivity. Qed.


(** With 0.1 held and a target of 1.1 the exact difference exceeds 1 and
    the float difference is 1.0: the plan is empty. *)
Example float_difference_of_one :
  1 < round_binary64 (11 # 10) - round_binary64 (1 # 10) /\
  round_binary64 (round_binary64 (11 # 10) - round_binary64 (1 # 10)) == 1 /\
  trade_plan_fl round_binary64
    [("BTCUSDT", mk_side_info (round_binary64 (1 # 10)) 0)]
    [("BTCUSDT", round_binary64 (11 # 10))] = [].
Proof. vm_compute. repeat split. Qed.


(** *** The scenarios of the specification *)

Example scenario_A :
  trade_plan [("BTCUSDT", flat)] [("BTCUSDT", 10)]
  = [mk_trade "BTCUSDT" buy 10 LONG adjust].
Proof. reflexivity. Qed.

Example scenario_B :
  trade_plan [("ETHUSDT", mk_side_info 5 0)] []
  = [mk_trade "ETHUSDT" sell 5 LONG close].
Proof. reflexivity. Qed.

Example scenario_C :
  trade_plan [("BTCUSDT", mk_side_info 3 0)] [("BTCUSDT", -4)]
  = [mk_trade "BTCUSDT" sell 3 LONG close;
     mk_trade "BTCUSDT" sell 4 SHORT adjust].
Proof. reflexivity. Qed.

(** The book read from the exchange, and the plan made from it. *)
Example book_from_positions :
  current_positions_of
    [mk_position "BTC/USDT:USDT" 3 "long" "LONG";
     mk_position "BTC/USDT:USDT" 2 "short" "SHORT";
     mk_position "ETH/USDT:USDT" 0 "long" "LONG";
     mk_position "XRP/USDT:USDT" 7 "short" "SHORT"]
  = [("BTCUSDT", mk_side_info 3 2); ("XRPUSDT", mk_side_info 0 7)].
Proof. reflexivity. Qed.

(** Step 1 tests the raw keys of the target and step 2 reads the book under
    the formatted key: a target key that is not in the format of the
    exchange leaves the instrument it names untargeted in step 1. *)
Example target_key_not_in_exchange_format :
  trade_plan [("BTCUSDT", mk_side_info 10 0)] [("BTC/USDT", 10)]
  = [mk_trade "BTCUSDT" sell 10 LONG close].
Proof. reflexivity. Qed.

(** The keys the signal reader produces are in that format: formatting
    leaves them as they are. *)
Example format_symbol_examples :
  format_symbol_for_binance "BTCUSDT" = "BTCUSDT" /\
  format_symbol_for_binance "BTC/USDT:USDT" = "BTCUSDT" /\
  format_symbol_for_binance "1000PEPEUSDT" = "1000PEPEUSDT" /\
  format_symbol_for_binance "ETH" = "ETHUSDT".
Proof. repeat split. Qed.

(** ** The sizing loop *)

Lemma Qabs_step (q : Q) :
  Qabs (if Qlt_bool 0 q then q + 1 else q - 1) == Qabs q + 1.
Proof.
  case_lt; qabs_lra.
Qed.

Lemma inject_nat_succ (n : nat) :
  inject_Z (Z.of_nat (S n)) == inject_Z (Z.of_nat n) + 1.
Proof.
  rewrite Nat2Z.inj_succ. unfold Z.succ. rewrite inject_Z_plus. reflexivity.
Qed.

Lemma pad_loop_unfold (fuel : nat) (q nv p : Q) :
  pad_loop fuel q nv p =
  if Qlt_bool nv 5 then
    match fuel with
    | O => None
    | S fuel' =>
        let q' := if Qlt_bool 0 q then q + 1 else q - 1 in
        pad_loop fuel' q' (Qabs q' * p) p
    end
  else Some q.
Proof. destruct fuel; reflexivity. Qed.

(** With a price that is not positive the loop never leaves. *)
Lemma pad_loop_diverges (p : Q) :
  p <= 0 -> forall n q, pad_loop n q (Qabs q * p) p = None.
Proof.
  intros Hp n. induction n as [|n IH]; intro q; rewrite pad_loop_unfold.
  - assert (H : Qlt_bool (Qabs q * p) 5 = true).
    { apply Qlt_bool_iff. pose proof (Qabs_nonneg q). nra. }
    rewrite H. reflexivity.
  - assert (H : Qlt_bool (Qabs q * p) 5 = true).
    { apply Qlt_bool_iff. pose proof (Qabs_nonneg q). nra. }
    rewrite H. cbv zeta. apply IH.
Qed.

(** With a positive price the loop leaves as soon as the fuel covers the
    missing notional. *)
Lemma pad_loop_terminates (p : Q) :
  0 < p -> forall n q,
  5 <= (Qabs q + inject_Z (Z.of_nat n)) * p ->
  exists r, pad_loop n q (Qabs q * p) p = Some r.
Proof.
  intros Hp n. induction n as [|n IH]; intros q H; rewrite pad_loop_unfold.
  - case_lt.
    + exfalso. change (inject_Z (Z.of_nat 0)) with 0 in H. nra.
    + eauto.
  - case_lt; [|eauto]. cbv zeta. apply IH.
    rewrite Qabs_step. rewrite inject_nat_succ in H. nra.
Qed.

Lemma price_covers (p : Q) : 0 < p -> 5 <= inject_Z (Zpos (5 * Qden p)) * p.
Proof.
  destruct p as [n d]. unfold Qlt, Qle, Qmult, inject_Z. cbn [Qnum Qden].
  intro H. rewrite ?Pos2Z.inj_mul. nia.
Qed.

Lemma pad_loop_enough_fuel (q p : Q) :
  0 < p -> exists r, pad_loop (sizing_fuel p) q (Qabs q * p) p = Some r.
Proof.
  intro Hp. apply pad_loop_terminates; [assumption|].
  unfold sizing_fuel. rewrite positive_nat_Z.
  pose proof (price_covers p Hp). pose proof (Qabs_nonneg q). nra.
Qed.

Lemma pad_loop_more_fuel (n : nat) :
  forall q nv p r, pad_loop n q nv p = Some r -> pad_loop (S n) q nv p = Some r.
Proof.
  induction n as [|n IH]; intros q nv p r H;
    rewrite pad_loop_unfold in H; rewrite pad_loop_unfold;
    destruct (Qlt_bool nv 5); try discriminate; try assumption.
  cbv zeta in *. apply IH, H.
Qed.

Lemma pad_loop_fuel_le (n m : nat) (q nv p r : Q) :
  (n <= m)%nat -> pad_loop n q nv p = Some r -> pad_loop m q nv p = Some r.
Proof.
  induction 1 as [|m Hle IH]; intro H; [assumption|].
  apply pad_loop_more_fuel, IH, H.
Qed.

(** [sizing_fuel] iterations decide the loop: it leaves within them or
    never. *)
Lemma pad_loop_fuel_complete (n : nat) (q p r : Q) :
  pad_loop n q (Qabs q * p) p = Some r ->
  pad_loop (sizing_fuel p) q (Qabs q * p) p = Some r.
Proof.
  intro H. destruct (Qlt_le_dec 0 p) as [Hp|Hp].
  - destruct (pad_loop_enough_fuel q p Hp) as [r' Hr'].
    destruct (Nat.le_ge_cases n (sizing_fuel p)) as [Hle|Hle].
    + eapply pad_loop_fuel_le; eauto.
    + pose proof (pad_loop_fuel_le _ _ _ _ _ _ Hle Hr') as H'. congruence.
  - rewrite (pad_loop_diverges p Hp) in H. discriminate.
Qed.

Lemma int_abs_inject_Z (z : Z) : int_abs (inject_Z z) = Z.abs z.
Proof.
  unfold int_abs. change (Qabs (inject_Z z)) with (inject_Z (Z.abs z)).
  apply Qfloor_Z.
Qed.


Lemma Qfloor_eq_Z (x : Q) (z : Z) : x == inject_Z z -> Qfloor x = z.
Proof.
  intro H. rewrite (Qfloor_comp _ _ H). apply Qfloor_Z.
Qed.


Lemma pad_quantity_some (params : option order_params) (q p : Q) :
  0 < p -> exists r, pad_quantity params q p = Some r.
Proof.
  intro Hp. unfold pad_quantity.
  destruct (Qlt_bool (Qabs q * p) 5 && negb (reduce_only params)).
  - apply pad_loop_enough_fuel, Hp.
  - eauto.
Qed.

(** Scenario D of the specification. *)
Example scenario_D :
  sized_quantity None 1 (2 # 5) = Some 13%Z /\
  inject_Z 12 * (2 # 5) < 5 /\ 5 <= inject_Z 13 * (2 # 5).
Proof. repeat split; discriminate. Qed.

(** C8, as stated, fails on two counts: a negative request comes out
    positive, and a request that is not an integer is cut below the
    minimum notional. *)
Lemma sized_quantity_not_signed_nor_above_floor :
  sized_quantity None (-1) (2 # 5) = Some 13%Z /\
  sized_quantity None (1 # 2) (2 # 5) = Some 12%Z /\
  inject_Z 12 * (2 # 5) < 5.
Proof. repeat split. Qed.

(** ** The rounding of binary64 *)

Lemma round_half_even_cases (x : Q) :
  let f := Qfloor x in
  (round_half_even x = f /\ x - inject_Z f <= 1 # 2 /\
   (x - inject_Z f == 1 # 2 -> Z.even f = true)) \/
  (round_half_even x = (f + 1)%Z /\ 1 # 2 <= x - inject_Z f /\
   (x - inject_Z f == 1 # 2 -> Z.even f = false)).
Proof.
  cbv zeta. unfold round_half_even.
  destruct (Qcompare_spec (x - inject_Z (Qfloor x)) (1 # 2)) as [H|H|H].
  - destruct (Z.even (Qfloor x)) eqn:E; [left | right];
      (split; [reflexivity|]); split; auto; lra.
  - left. split; [reflexivity|]. split; [lra|]. intro H'. lra.
  - right. split; [reflexivity|]. split; [lra|]. intro H'. lra.
Qed.

Lemma round_half_even_le (x y : Q) :
  x <= y -> (round_half_even x <= round_half_even y)%Z.
Proof.
  intro Hxy. pose proof (Qfloor_resp_le x y Hxy) as Hf.
  pose proof (round_half_even_cases x) as Hx.
  pose proof (round_half_even_cases y) as Hy. cbv zeta in Hx, Hy.
  destruct (Z.eq_dec (Qfloor x) (Qfloor y)) as [Heq|Hne].
  - rewrite <- Heq in Hy.
    destruct Hx as [(-> & Hx1 & Hx2)|(-> & Hx1 & Hx2)];
      destruct Hy as [(-> & Hy1 & Hy2)|(-> & Hy1 & Hy2)]; try lia.
    exfalso.
    assert (Hx' : x - inject_Z (Qfloor x) == 1 # 2) by lra.
    assert (Hy' : y - inject_Z (Qfloor x) == 1 # 2) by lra.
    rewrite (Hx2 Hx') in Hy2. specialize (Hy2 Hy'). discriminate.
  - destruct Hx as [(-> & _)|(-> & _)]; destruct Hy as [(-> & _)|(-> & _)]; lia.
Qed.

Lemma round_half_even_Z (x : Q) (z : Z) : x == inject_Z z -> round_half_even x = z.
Proof.
  intro H. pose proof (Qfloor_eq_Z x z H) as Hf.
  pose proof (round_half_even_cases x) as Hx. cbv zeta in Hx. rewrite Hf in Hx.
  destruct Hx as [(-> & _)|(_ & Hx & _)]; [reflexivity | exfalso; lra].
Qed.

Lemma round_half_even_ge (x : Q) (z : Z) :
  inject_Z z <= x -> (z <= round_half_even x)%Z.
Proof.
  intro H. rewrite <- (round_half_even_Z (inject_Z z) z (Qeq_refl _)).
  apply round_half_even_le, H.
Qed.

Lemma round_half_even_le_Z (x : Q) (z : Z) :
  x <= inject_Z z -> (round_half_even x <= z)%Z.
Proof.
  intro H. rewrite <- (round_half_even_Z (inject_Z z) z (Qeq_refl _)).
  apply round_half_even_le, H.
Qed.

Lemma Qpower2_pos (e : Z) : 0 < Qpower 2 e.
Proof. apply Qpower_0_lt. reflexivity. Qed.

Lemma Qpower2_succ (e : Z) : Qpower 2 (e + 1) == 2 * Qpower 2 e.
Proof.
  rewrite Qpower_plus by discriminate. rewrite Qpower_1_r. ring.
Qed.

Lemma Qpower2_le (a b : Z) : (a <= b)%Z -> Qpower 2 a <= Qpower 2 b.
Proof. intro H. apply Qpower_le_compat_l; [assumption | discriminate]. Qed.

Lemma Qpower2_lt_inv (a b : Z) : Qpower 2 a < Qpower 2 b -> (a < b)%Z.
Proof.
  intro H. destruct (Z_lt_le_dec a b) as [Hlt|Hge]; [assumption|].
  apply Qpower2_le in Hge. lra.
Qed.

Lemma Qpower2_of_Z (n : Z) : (0 <= n)%Z -> inject_Z (2 ^ n) == Qpower 2 n.
Proof. intro H. apply (Zpower_Qpower 2 n H). Qed.

(** [Qlog2 a] is the exponent of the power of 2 at or below [a]. *)
Lemma Qlog2_spec (a : Q) :
  0 < a -> Qpower 2 (Qlog2 a) <= a /\ a < Qpower 2 (Qlog2 a + 1).
Proof.
  intro Ha. unfold Qlog2. cbv zeta.
  destruct a as [n d]. cbn [Qnum Qden].
  assert (Hn : (0 < n)%Z).
  { unfold Qlt in Ha. cbn in Ha. lia. }
  destruct (Z.log2_spec n Hn) as [Hn1 Hn2].
  destruct (Z.log2_spec (Zpos d) (Pos2Z.is_pos d)) as [Hd1 Hd2].
  pose proof (Z.log2_nonneg n) as Hln. pose proof (Z.log2_nonneg (Zpos d)) as Hld.
  set (ln := Z.log2 n) in *. set (ld := Z.log2 (Zpos d)) in *.
  rewrite Zle_Qle, Qpower2_of_Z in Hn1, Hd1 by assumption.
  rewrite Zlt_Qlt in Hn2, Hd2.
  unfold Z.succ in Hn2, Hd2.
  rewrite Qpower2_of_Z, Qpower2_succ in Hn2, Hd2 by lia.
  assert (Hq : n # d == inject_Z n / inject_Z (Zpos d)) by apply Qmake_Qdiv.
  assert (Hmul : (n # d) * inject_Z (Zpos d) == inject_Z n).
  { rewrite Hq. field. intro H0. pose proof (Pos2Z.is_pos d).
    assert (Hd0 : 0 < inject_Z (Zpos d)) by (rewrite <- (Zlt_Qlt 0); lia). lra. }
  assert (Hsplit : Qpower 2 ln == Qpower 2 (ln - ld) * Qpower 2 ld).
  { rewrite <- Qpower_plus by discriminate. f_equiv. lia. }
  pose proof (Qpower2_pos (ln - ld)) as Hp0.
  pose proof (Qpower2_pos ld) as Hpd.
  assert (Hhalf : Qpower 2 (ln - ld) == 2 * Qpower 2 (ln - ld - 1)).
  { rewrite <- Qpower2_succ. f_equiv. lia. }
  set (a := n # d) in *. clearbody a.
  set (N := inject_Z n) in *. set (D := inject_Z (Zpos d)) in *.
  set (PN := Qpower 2 ln) in *. set (PD := Qpower 2 ld) in *.
  set (P0 := Qpower 2 (ln - ld)) in *.
  assert (Hup : a < 2 * P0).
  { apply Qnot_le_lt. intro Hc.
    assert (2 * P0 * D <= a * D) by (apply Qmult_le_compat_r; lra).
    assert (2 * P0 * PD <= 2 * P0 * D) by (apply Qmult_le_l; lra).
    lra. }
  assert (Hlow : P0 < 2 * a).
  { apply Qnot_le_lt. intro Hc.
    assert (2 * a * D <= P0 * D) by (apply Qmult_le_compat_r; lra).
    assert (P0 * D < P0 * (2 * PD)) by (apply Qmult_lt_l; lra).
    lra. }
  destruct (Qlt_bool a P0) eqn:E;
    [apply Qlt_bool_iff in E | apply Qlt_bool_false_iff in E].
  - replace (ln - ld - 1 + 1)%Z with (ln - ld)%Z by lia. fold P0.
    split; lra.
  - rewrite Qpower2_succ. fold P0. split; lra.
Qed.

Lemma Qlog2_le (a b : Q) : 0 < a -> a <= b -> (Qlog2 a <= Qlog2 b)%Z.
Proof.
  intros Ha Hab.
  destruct (Qlog2_spec a Ha) as [Ha1 _].
  destruct (Qlog2_spec b) as [_ Hb2]; [lra|].
  assert (H : (Qlog2 a < Qlog2 b + 1)%Z) by (apply Qpower2_lt_inv; lra).
  lia.
Qed.

Lemma round_magnitude_eq (a : Q) :
  round_magnitude a
  == inject_Z (round_half_even (a / Qpower 2 (Z.max (Qlog2 a - 52) (-1074))))
     * Qpower 2 (Z.max (Qlog2 a - 52) (-1074)).
Proof. unfold round_magnitude. cbv zeta. apply Qred_correct. Qed.

Lemma Qdiv_le_r (x y c : Q) : 0 < c -> x <= y -> x / c <= y / c.
Proof.
  intros Hc H. unfold Qdiv. apply Qmult_le_compat_r; [assumption|].
  apply Qlt_le_weak, Qinv_lt_0_compat, Hc.
Qed.

Lemma round_magnitude_nonneg (a : Q) : 0 < a -> 0 <= round_magnitude a.
Proof.
  intro Ha. rewrite round_magnitude_eq.
  set (e := Z.max (Qlog2 a - 52) (-1074)).
  pose proof (Qpower2_pos e) as He.
  assert (H : (0 <= round_half_even (a / Qpower 2 e))%Z).
  { apply round_half_even_ge. change (inject_Z 0) with 0.
    apply Qle_shift_div_l; [assumption | lra]. }
  rewrite Zle_Qle in H. change (inject_Z 0) with 0 in H.
  apply Qmult_le_0_compat; lra.
Qed.

(** The significand of a float has at most 53 bits. *)
Lemma significand_le (a : Q) :
  0 < a ->
  (round_half_even (a / Qpower 2 (Z.max (Qlog2 a - 52) (-1074))) <= 2 ^ 53)%Z.
Proof.
  intro Ha. set (e := Z.max (Qlog2 a - 52) (-1074)).
  apply round_half_even_le_Z.
  change (inject_Z (2 ^ 53)) with (Qpower 2 53).
  pose proof (Qpower2_pos e) as He.
  apply Qle_shift_div_r; [assumption|].
  rewrite <- Qpower_plus by discriminate.
  destruct (Qlog2_spec a Ha) as [_ Hup].
  assert (Hle : Qpower 2 (Qlog2 a + 1) <= Qpower 2 (53 + e))
    by (apply Qpower2_le; unfold e; lia).
  lra.
Qed.

(** Above the subnormal range it has exactly 53. *)
Lemma significand_ge (a : Q) :
  0 < a -> (-1074 < Qlog2 a - 52)%Z ->
  (2 ^ 52 <= round_half_even (a / Qpower 2 (Z.max (Qlog2 a - 52) (-1074))))%Z.
Proof.
  intros Ha Hn. set (e := Z.max (Qlog2 a - 52) (-1074)).
  apply round_half_even_ge.
  change (inject_Z (2 ^ 52)) with (Qpower 2 52).
  pose proof (Qpower2_pos e) as He.
  apply Qle_shift_div_l; [assumption|].
  rewrite <- Qpower_plus by discriminate.
  destruct (Qlog2_spec a Ha) as [Hlow _].
  assert (Hle : Qpower 2 (52 + e) <= Qpower 2 (Qlog2 a))
    by (apply Qpower2_le; unfold e; lia).
  lra.
Qed.

Lemma round_magnitude_le (a b : Q) :
  0 < a -> a <= b -> round_magnitude a <= round_magnitude b.
Proof.
  intros Ha Hab. assert (Hb : 0 < b) by lra.
  pose proof (Qlog2_le a b Ha Hab) as Hlog.
  rewrite !round_magnitude_eq.
  set (ea := Z.max (Qlog2 a - 52) (-1074)).
  set (eb := Z.max (Qlog2 b - 52) (-1074)).
  pose proof (Qpower2_pos ea) as Hea. pose proof (Qpower2_pos eb) as Heb.
  destruct (Z.eq_dec ea eb) as [Heq|Hne].
  - rewrite Heq.
    assert (H : (round_half_even (a / Qpower 2 eb) <= round_half_even (b / Qpower 2 eb))%Z)
      by (apply round_half_even_le, Qdiv_le_r; assumption).
    rewrite Zle_Qle in H. apply Qmult_le_compat_r; lra.
  - assert (Hlt : (ea + 1 <= eb)%Z) by (unfold ea, eb in *; lia).
    assert (Hnb : (-1074 < Qlog2 b - 52)%Z) by (unfold ea, eb in *; lia).
    pose proof (significand_le a Ha) as Hma. fold ea in Hma.
    pose proof (significand_ge b Hb Hnb) as Hmb. fold eb in Hmb.
    rewrite Zle_Qle in Hma, Hmb.
    change (inject_Z (2 ^ 53)) with (Qpower 2 53) in Hma.
    change (inject_Z (2 ^ 52)) with (Qpower 2 52) in Hmb.
    assert (H1 : inject_Z (round_half_even (a / Qpower 2 ea)) * Qpower 2 ea
                 <= Qpower 2 53 * Qpower 2 ea)
      by (apply Qmult_le_compat_r; lra).
    assert (H2 : Qpower 2 52 * Qpower 2 eb
                 <= inject_Z (round_half_even (b / Qpower 2 eb)) * Qpower 2 eb)
      by (apply Qmult_le_compat_r; lra).
    rewrite <- Qpower_plus in H1, H2 by discriminate.
    assert (H3 : Qpower 2 (53 + ea) <= Qpower 2 (52 + eb)) by (apply Qpower2_le; lia).
    lra.
Qed.

Lemma round_magnitude_integer (z : Z) :
  (0 < z <= max_exact_integer)%Z -> round_magnitude (inject_Z z) == inject_Z z.
Proof.
  intros [Hz Hmax]. unfold max_exact_integer in Hmax.
  assert (Ha : 0 < inject_Z z) by (rewrite <- (Zlt_Qlt 0); assumption).
  destruct (Qlog2_spec (inject_Z z) Ha) as [Hlow Hup].
  set (l := Qlog2 (inject_Z z)) in *.
  assert (Hl0 : (0 <= l)%Z).
  { assert (H1 : 1 <= inject_Z z) by (rewrite <- (Zle_Qle 1); lia).
    assert (H : (0 < l + 1)%Z) by (apply Qpower2_lt_inv; change (Qpower 2 0) with 1; lra).
    lia. }
  assert (Hl53 : (l <= 53)%Z).
  { assert (H53 : inject_Z z <= Qpower 2 53)
      by (change (Qpower 2 53) with (inject_Z 9007199254740992); rewrite <- Zle_Qle; lia).
    assert (H : (l < 53 + 1)%Z).
    { apply Qpower2_lt_inv. rewrite (Qpower2_succ 53).
      pose proof (Qpower2_pos 53). lra. }
    lia. }
  rewrite round_magnitude_eq. fold l.
  replace (Z.max (l - 52) (-1074)) with (l - 52)%Z by lia.
  pose proof (Qpower2_pos (l - 52)) as He.
  destruct (Z_le_gt_dec l 52) as [Hle|Hgt].
  - assert (Hint : inject_Z z / Qpower 2 (l - 52) == inject_Z (z * 2 ^ (52 - l))).
    { rewrite inject_Z_mult, Qpower2_of_Z by lia.
      replace (52 - l)%Z with (- (l - 52))%Z by lia.
      rewrite Qpower_opp. field. lra. }
    rewrite (round_half_even_Z _ _ Hint).
    rewrite inject_Z_mult, Qpower2_of_Z by lia.
    replace (52 - l)%Z with (- (l - 52))%Z by lia.
    rewrite Qpower_opp. field. lra.
  - assert (Hl : l = 53%Z) by lia. rewrite Hl in *.
    assert (Hz53 : inject_Z z == Qpower 2 53).
    { apply Qle_antisym; [|assumption].
      change (Qpower 2 53) with (inject_Z 9007199254740992). rewrite <- Zle_Qle. lia. }
    assert (Hint : inject_Z z / Qpower 2 (53 - 52) == inject_Z (2 ^ 52)).
    { rewrite Hz53. reflexivity. }
    rewrite (round_half_even_Z _ _ Hint). rewrite Hz53. reflexivity.
Qed.

Lemma Qabs_nonzero (x : Q) : ~ x == 0 -> 0 < Qabs x.
Proof.
  intro H. destruct (Qabs_cases x) as [[H1 H2]|[H1 H2]]; lra.
Qed.

(** Rounding to binary64 keeps the order and leaves the integers up to
    [2 ** 53] as they are. *)
Lemma round_binary64_float_rounding : float_rounding round_binary64.
Proof.
  split.
  - intros x y Hxy. unfold round_binary64.
    destruct (Qeq_bool x 0) eqn:Ex0;
      [apply Qeq_bool_iff in Ex0 | apply Qeq_bool_neq in Ex0];
    destruct (Qeq_bool y 0) eqn:Ey0;
      [apply Qeq_bool_iff in Ey0 | apply Qeq_bool_neq in Ey0
      |apply Qeq_bool_iff in Ey0 | apply Qeq_bool_neq in Ey0].
    + apply Qle_refl.
    + assert (Hy : Qlt_bool y 0 = false) by (apply Qlt_bool_false_iff; lra).
      rewrite Hy. apply round_magnitude_nonneg. apply Qabs_nonzero, Ey0.
    + assert (Hx : Qlt_bool x 0 = true) by (apply Qlt_bool_iff; lra).
      rewrite Hx.
      pose proof (round_magnitude_nonneg (Qabs x) (Qabs_nonzero x Ex0)) as H. lra.
    + pose proof (Qabs_nonzero x Ex0) as Hax. pose proof (Qabs_nonzero y Ey0) as Hay.
      destruct (Qlt_bool x 0) eqn:Ex;
        [apply Qlt_bool_iff in Ex | apply Qlt_bool_false_iff in Ex];
      destruct (Qlt_bool y 0) eqn:Ey;
        [apply Qlt_bool_iff in Ey | apply Qlt_bool_false_iff in Ey
        |apply Qlt_bool_iff in Ey | apply Qlt_bool_false_iff in Ey].
      * assert (H : round_magnitude (Qabs y) <= round_magnitude (Qabs x)).
        { apply round_magnitude_le; [assumption|].
          rewrite (Qabs_neg x), (Qabs_neg y) by lra. lra. }
        lra.
      * pose proof (round_magnitude_nonneg (Qabs x) Hax).
        pose proof (round_magnitude_nonneg (Qabs y) Hay). lra.
      * exfalso. lra.
      * apply round_magnitude_le; [assumption|].
        rewrite (Qabs_pos x), (Qabs_pos y) by lra. lra.
  - intros z Hz. unfold round_binary64.
    change (Qabs (inject_Z z)) with (inject_Z (Z.abs z)).
    destruct (Qeq_bool (inject_Z z) 0) eqn:E0;
      [apply Qeq_bool_iff in E0 | apply Qeq_bool_neq in E0].
    + symmetry. exact E0.
    + assert (Hnz : z <> 0%Z) by (intros ->; apply E0; reflexivity).
      assert (Hm : round_magnitude (inject_Z (Z.abs z)) == inject_Z (Z.abs z))
        by (apply round_magnitude_integer; lia).
      destruct (Qlt_bool (inject_Z z) 0) eqn:E;
        [apply Qlt_bool_iff in E | apply Qlt_bool_false_iff in E].
      * rewrite Hm. rewrite <- inject_Z_opp. f_equiv.
        assert (z < 0)%Z by (rewrite Zlt_Qlt; exact E). lia.
      * rewrite Hm. f_equiv.
        assert (0 <= z)%Z by (rewrite Zle_Qle; exact E). lia.
Qed.

(** ** The sizing loop with the arithmetic of floats *)

Lemma pad_loop_fl_unfold (rnd : Q -> Q) (fuel : nat) (q nv p : Q) :
  pad_loop_fl rnd fuel q nv p =
  if Qlt_bool nv 5 then
    match fuel with
    | O => None
    | S fuel' =>
        let q' := if Qlt_bool 0 q then rnd (q + 1) else rnd (q - 1) in
        pad_loop_fl rnd fuel' q' (rnd (Qabs q' * p)) p
    end
  else Some q.
Proof. destruct fuel; reflexivity. Qed.

(** With exact arithmetic the loop is [pad_loop]. *)
Lemma pad_loop_fl_exact (fuel : nat) :
  forall q nv p, pad_loop_fl (fun x => x) fuel q nv p = pad_loop fuel q nv p.
Proof.
  induction fuel as [|fuel IH]; intros q nv p; cbn [pad_loop_fl pad_loop];
    destruct (Qlt_bool nv 5); try reflexivity.
  rewrite IH. destruct (Qlt_bool 0 q); reflexivity.
Qed.

Lemma pad_loop_fl_more_fuel (rnd : Q -> Q) (n : nat) :
  forall q nv p r,
  pad_loop_fl rnd n q nv p = Some r -> pad_loop_fl rnd (S n) q nv p = Some r.
Proof.
  induction n as [|n IH]; intros q nv p r H;
    rewrite pad_loop_fl_unfold in H; rewrite pad_loop_fl_unfold;
    destruct (Qlt_bool nv 5); try discriminate; try assumption.
  cbv zeta in *. apply IH, H.
Qed.

Lemma pad_loop_fl_fuel_le (rnd : Q -> Q) (n m : nat) (q nv p r : Q) :
  (n <= m)%nat -> pad_loop_fl rnd n q nv p = Some r -> pad_loop_fl rnd m q nv p = Some r.
Proof.
  induction 1 as [|m Hle IH]; intro H; [assumption|].
  apply pad_loop_fl_more_fuel, IH, H.
Qed.

(** A state of the loop that an iteration leaves as it is, with the guard
    true, is never left. *)
Lemma pad_loop_fl_fixed_point (rnd : Q -> Q) (q nv p : Q) :
  Qlt_bool nv 5 = true ->
  (if Qlt_bool 0 q then rnd (q + 1) else rnd (q - 1)) = q ->
  rnd (Qabs q * p) = nv ->
  forall fuel, pad_loop_fl rnd fuel q nv p = None.
Proof.
  intros Hguard Hq Hnv fuel. induction fuel as [|fuel IH];
    rewrite pad_loop_fl_unfold, Hguard; [reflexivity|].
  cbv zeta. rewrite Hq, Hnv. exact IH.
Qed.

Section FloatSizing.

Variable rnd : Q -> Q.
Hypothesis rnd_float : float_rounding rnd.

Lemma rnd_le (x y : Q) : x <= y -> rnd x <= rnd y.
Proof. apply rnd_float. Qed.

Lemma rnd_comp (x y : Q) : x == y -> rnd x == rnd y.
Proof.
  intro H. apply Qle_antisym; apply rnd_le; rewrite H; apply Qle_refl.
Qed.

Lemma rnd_integer (z : Z) :
  (Z.abs z <= max_exact_integer)%Z -> rnd (inject_Z z) == inject_Z z.
Proof. apply rnd_float. Qed.

Lemma rnd_reaches_five (x : Q) : 5 <= x -> 5 <= rnd x.
Proof.
  intro H. apply rnd_le in H.
  assert (H5 : rnd 5 == 5) by (apply (rnd_integer 5); unfold max_exact_integer; lia).
  lra.
Qed.

Lemma rnd_below_five (x : Q) : rnd x < 5 -> x < 5.
Proof.
  intro H. destruct (Qlt_le_dec x 5) as [Hlt|Hge]; [assumption|].
  apply rnd_reaches_five in Hge. lra.
Qed.



Variable p : Q.
Hypothesis p_sizable : sizable_price p.

Lemma sizable_price_positive : 0 < p.
Proof.
  unfold sizable_price, max_exact_integer in p_sizable.
  change (inject_Z 9007199254740992) with 9007199254740992 in p_sizable. lra.
Qed.

(** While the guard of the loop holds, the quantity is below [2 ** 53]. *)
Lemma guard_bounds_quantity (q : Q) :
  rnd (Qabs q * p) < 5 -> Qabs q < inject_Z max_exact_integer.
Proof.
  intro H. apply rnd_below_five in H.
  unfold sizable_price in p_sizable. pose proof sizable_price_positive.
  set (m := inject_Z max_exact_integer) in *. clearbody m.
  set (a := Qabs q) in *. clearbody a. nra.
Qed.

Lemma floor_abs_bounds (q : Q) :
  Qabs q < inject_Z max_exact_integer ->
  (0 <= Qfloor (Qabs q) < max_exact_integer)%Z.
Proof.
  intro H. split.
  - change 0%Z with (Qfloor 0). apply Qfloor_resp_le, Qabs_nonneg.
  - pose proof (Qfloor_le (Qabs q)) as Hfl.
    rewrite Zlt_Qlt. lra.
Qed.

(** One iteration on a quantity below [2 ** 53]: the sign is kept and the
    magnitude passes the next integer. *)
Lemma pad_step (q : Q) :
  Qabs q < inject_Z max_exact_integer ->
  let q' := if Qlt_bool 0 q then rnd (q + 1) else rnd (q - 1) in
  inject_Z (Qfloor (Qabs q) + 1) <= Qabs q' /\
  (0 < q -> q < q') /\ (q <= 0 -> q' < q).
Proof.
  intros Hq. pose proof (floor_abs_bounds q Hq) as Hz.
  pose proof (Qfloor_le (Qabs q)) as Hlo. pose proof (Qlt_floor (Qabs q)) as Hhi.
  set (z := Qfloor (Qabs q)) in *. clearbody z.
  rewrite inject_Z_plus in *. change (inject_Z 1) with 1 in *.
  cbv zeta.
  destruct (Qlt_bool 0 q) eqn:E;
    [apply Qlt_bool_iff in E | apply Qlt_bool_false_iff in E].
  - assert (Ha : Qabs q == q) by (apply Qabs_pos; lra).
    assert (Hr : inject_Z (z + 1) <= rnd (q + 1)).
    { rewrite <- (rnd_integer (z + 1)) by (unfold max_exact_integer in *; lia).
      apply rnd_le. rewrite inject_Z_plus. change (inject_Z 1) with 1. lra. }
    rewrite inject_Z_plus in Hr. change (inject_Z 1) with 1 in Hr.
    assert (Ha' : Qabs (rnd (q + 1)) == rnd (q + 1)) by (apply Qabs_pos; lra).
    repeat split; intros; lra.
  - assert (Ha : Qabs q == - q) by (apply Qabs_neg; lra).
    assert (Hr : rnd (q - 1) <= inject_Z (- (z + 1))).
    { rewrite <- (rnd_integer (- (z + 1))) by (unfold max_exact_integer in *; lia).
      apply rnd_le. rewrite inject_Z_opp, inject_Z_plus. change (inject_Z 1) with 1. lra. }
    rewrite inject_Z_opp, inject_Z_plus in Hr. change (inject_Z 1) with 1 in Hr.
    assert (Ha' : Qabs (rnd (q - 1)) == - rnd (q - 1)) by (apply Qabs_neg; lra).
    repeat split; intros; lra.
Qed.

(** The loop leaves once the fuel covers the distance of the quantity from
    [2 ** 53], with a float notional of at least 5, the sign kept and the
    magnitude not reduced. *)
Lemma pad_loop_fl_ends (n : nat) :
  forall q,
  (max_exact_integer <= Qfloor (Qabs q) + Z.of_nat n)%Z ->
  exists r, pad_loop_fl rnd n q (rnd (Qabs q * p)) p = Some r /\
            5 <= rnd (Qabs r * p) /\
            (0 < q -> q <= r) /\ (q <= 0 -> r <= q).
Proof.
  induction n as [|n IH]; intros q Hn; rewrite pad_loop_fl_unfold;
    destruct (Qlt_bool (rnd (Qabs q * p)) 5) eqn:E;
    [apply Qlt_bool_iff in E | apply Qlt_bool_false_iff in E
    |apply Qlt_bool_iff in E | apply Qlt_bool_false_iff in E].
  - exfalso. pose proof (guard_bounds_quantity q E) as Hq.
    apply floor_abs_bounds in Hq. lia.
  - exists q. repeat split; try assumption; intros; apply Qle_refl.
  - pose proof (guard_bounds_quantity q E) as Hq.
    destruct (pad_step q Hq) as (Habs & Hpos & Hneg).
    cbv zeta in *.
    set (q' := if Qlt_bool 0 q then rnd (q + 1) else rnd (q - 1)) in *.
    destruct (IH q') as (r & Hr & Hfive & Hrpos & Hrneg).
    { apply Qfloor_resp_le in Habs. rewrite Qfloor_Z in Habs. lia. }
    exists r. split; [exact Hr|]. split; [exact Hfive|]. split.
    + intro H0. specialize (Hpos H0). assert (H' : 0 < q') by lra.
      specialize (Hrpos H'). lra.
    + intro H0. specialize (Hneg H0). assert (H' : q' <= 0) by lra.
      specialize (Hrneg H'). lra.
  - exists q. repeat split; try assumption; intros; apply Qle_refl.
Qed.

(** [2 ** 53] iterations are enough for every quantity. *)
Lemma pad_loop_fl_leaves (q : Q) :
  exists r, pad_loop_leaves rnd q p r /\
            5 <= rnd (Qabs r * p) /\
            (0 < q -> q <= r) /\ (q <= 0 -> r <= q).
Proof.
  destruct (pad_loop_fl_ends (Z.to_nat max_exact_integer) q) as (r & Hr & H).
  { assert (0 <= Qfloor (Qabs q))%Z
      by (change 0%Z with (Qfloor 0); apply Qfloor_resp_le, Qabs_nonneg).
    unfold max_exact_integer in *. lia. }
  exists r. split; [|exact H].
  exists (Z.to_nat max_exact_integer). intros fuel Hfuel.
  eapply pad_loop_fl_fuel_le; eauto.
Qed.

Lemma pad_quantity_fl_ends (params : option order_params) (q : Q) (fuel : nat) :
  (Z.to_nat max_exact_integer <= fuel)%nat ->
  pad_quantity_fl rnd fuel params q p <> None.
Proof.
  intro Hfuel. unfold pad_quantity_fl. cbv zeta.
  destruct (Qlt_bool (rnd (Qabs q * p)) 5 && negb (reduce_only params)); [|discriminate].
  destruct (pad_loop_fl_leaves q) as (r & (n & Hn) & _).
  destruct (pad_loop_fl_ends (Z.to_nat max_exact_integer) q) as (r' & Hr & _).
  { assert (0 <= Qfloor (Qabs q))%Z
      by (change 0%Z with (Qfloor 0); apply Qfloor_resp_le, Qabs_nonneg).
    unfold max_exact_integer in *. lia. }
  rewrite (pad_loop_fl_fuel_le rnd _ fuel _ _ _ _ Hfuel Hr). discriminate.
Qed.

(** On an integer the loop counts: it leaves at the first integer, from the
    magnitude of the request on, whose float notional is not below 5. *)
Lemma pad_loop_fl_integer (n : nat) :
  forall (z : Z) (q r : Q),
  q == inject_Z z ->
  pad_loop_fl rnd n q (rnd (Qabs q * p)) p = Some r ->
  exists k : nat,
    Qabs r == inject_Z (Z.abs z + Z.of_nat k) /\
    5 <= rnd (inject_Z (Z.abs z + Z.of_nat k) * p) /\
    (forall j : nat, (j < k)%nat -> rnd (inject_Z (Z.abs z + Z.of_nat j) * p) < 5).
Proof.
  induction n as [|n IH]; intros z q r Hq H; rewrite pad_loop_fl_unfold in H;
    assert (Ha : Qabs q == inject_Z (Z.abs z)) by (rewrite Hq; reflexivity);
    assert (Hn : rnd (Qabs q * p) == rnd (inject_Z (Z.abs z) * p))
      by (apply rnd_comp; rewrite Ha; reflexivity);
    destruct (Qlt_bool (rnd (Qabs q * p)) 5) eqn:E;
    [apply Qlt_bool_iff in E | apply Qlt_bool_false_iff in E
    |apply Qlt_bool_iff in E | apply Qlt_bool_false_iff in E].
  - discriminate.
  - inversion H; subst r. exists O. rewrite Z.add_0_r.
    repeat split; [assumption | lra | intros j Hj; lia].
  - pose proof (guard_bounds_quantity q E) as Hb.
    assert (Hz : (Z.abs z < max_exact_integer)%Z) by (rewrite Zlt_Qlt; lra).
    cbv zeta in H.
    set (q' := if Qlt_bool 0 q then rnd (q + 1) else rnd (q - 1)) in *.
    assert (Hq' : q' == inject_Z (if (0 <? z)%Z then z + 1 else z - 1)%Z).
    { unfold q'. destruct (Qlt_bool 0 q) eqn:E0;
        [apply Qlt_bool_iff in E0 | apply Qlt_bool_false_iff in E0].
      - assert (Hzp : (0 < z)%Z) by (rewrite Zlt_Qlt; change (inject_Z 0) with 0; lra).
        apply Z.ltb_lt in Hzp. rewrite Hzp. apply Z.ltb_lt in Hzp.
        rewrite <- (rnd_integer (z + 1)) by lia.
        apply rnd_comp. rewrite inject_Z_plus, Hq. reflexivity.
      - assert (Hzp : (z <= 0)%Z) by (rewrite Zle_Qle; change (inject_Z 0) with 0; lra).
        assert (Hzb : (0 <? z)%Z = false) by (apply Z.ltb_ge; assumption).
        rewrite Hzb.
        rewrite <- (rnd_integer (z - 1)) by lia.
        apply rnd_comp. unfold Z.sub. rewrite inject_Z_plus, Hq. reflexivity. }
    destruct (IH _ q' r Hq' H) as (k & Hr & Hfive & Hbelow).
    assert (Hstep : (Z.abs (if (0 <? z)%Z then z + 1 else z - 1) = Z.abs z + 1)%Z)
      by (destruct (0 <? z)%Z eqn:E0; [apply Z.ltb_lt in E0 | apply Z.ltb_ge in E0]; lia).
    rewrite Hstep in Hr, Hfive, Hbelow.
    exists (S k).
    replace (Z.abs z + Z.of_nat (S k))%Z with (Z.abs z + 1 + Z.of_nat k)%Z by lia.
    repeat split; try assumption.
    intros [|j] Hj.
    + rewrite Z.add_0_r. lra.
    + replace (Z.abs z + Z.of_nat (S j))%Z with (Z.abs z + 1 + Z.of_nat j)%Z by lia.
      apply Hbelow. lia.
  - inversion H; subst r. exists O. rewrite Z.add_0_r.
    repeat split; [assumption | lra | intros j Hj; lia].
Qed.

(** C6, as the code has it.  The loop has no bound on its iterations and
    no failure of its own.  At a price of at least [5 / 2 ** 53] it leaves
    for every quantity, within [2 ** 53] iterations, with a float notional
    of at least 5; below that price it can go on for ever at a positive
    price: a quantity of [2 ** 53] is left as it is by the addition of 1,
    and at the price [2 ** -60] its notional stays below 5. *)
Theorem sizing_loop_leaves_at_sizable_price (q : Q) :
  (exists r,
     (forall fuel, (Z.to_nat max_exact_integer <= fuel)%nat ->
        pad_loop_fl rnd fuel q (rnd (Qabs q * p)) p = Some r) /\
     5 <= rnd (Qabs r * p)) /\
  (exists q' p', 0 < p' /\ pad_loop_hangs round_binary64 q' p').
Proof.
  split.
  - destruct (pad_loop_fl_ends (Z.to_nat max_exact_integer) q) as (r & Hr & Hfive & _).
    { assert (0 <= Qfloor (Qabs q))%Z
        by (change 0%Z with (Qfloor 0); apply Qfloor_resp_le, Qabs_nonneg).
      unfold max_exact_integer in *. lia. }
    exists r. split; [|exact Hfive].
    intros fuel Hfuel. eapply pad_loop_fl_fuel_le; eauto.
  - exists (inject_Z max_exact_integer), (Qpower 2 (-60)). split; [reflexivity|].
    unfold pad_loop_hangs.
    apply pad_loop_fl_fixed_point; vm_compute; reflexivity.
Qed.

(** X12. Padding ends and keeps the sign: at a price of at least
    [5 / 2 ** 53] lines 224-235 return for every quantity, with a quantity
    of the same sign whose magnitude is not below the requested one, and,
    when the order is not reduce-only, a float notional of at least 5. *)
Theorem padding_ends_and_keeps_sign (params : option order_params) (q : Q) :
  exists r,
    pads_to rnd params q p r /\
    (0 < q -> q <= r) /\ (q <= 0 -> r <= q) /\
    (reduce_only params = false -> 5 <= rnd (Qabs r * p)).
Proof.
  unfold pads_to, pad_quantity_fl. cbv zeta.
  destruct (Qlt_bool (rnd (Qabs q * p)) 5) eqn:E;
    [|apply Qlt_bool_false_iff in E].
  - destruct (reduce_only params) eqn:Ero; cbn [negb andb].
    + exists q. split; [exists O; reflexivity|].
      repeat split; intros; try apply Qle_refl. discriminate.
    + destruct (pad_loop_fl_leaves q) as (r & Hl & Hfive & Hpos & Hneg).
      exists r. split; [exact Hl|]. auto.
  - cbn [andb]. exists q. split; [exists O; reflexivity|].
    repeat split; intros; try apply Qle_refl. lra.
Qed.

(** C8, as the code has it.  For an integer quantity [q], a price of at
    least [5 / 2 ** 53] and an order that is not reduce-only, the amount
    submitted is the least integer [m >= |q|] whose float notional, the
    product [m * p] rounded, is not below 5; it is a magnitude, whatever the
    sign of [q], and it is not above the least integer whose exact notional
    reaches 5.  At the float 0.4 a request of 1 becomes 13. *)
Theorem sized_quantity_least_float_admissible (params : option order_params) (q : Z) :
  reduce_only params = false ->
  (exists m : Z,
     sizes_to rnd params (inject_Z q) p m /\
     (Z.abs q <= m)%Z /\
     5 <= rnd (inject_Z m * p) /\
     (forall m' : Z, (Z.abs q <= m' < m)%Z -> rnd (inject_Z m' * p) < 5) /\
     (forall m' : Z, (Z.abs q <= m')%Z -> 5 <= inject_Z m' * p -> (m <= m')%Z)) /\
  sizes_to round_binary64 params 1 (round_binary64 (2 # 5)) 13.
Proof.
  intro Hro. split.
  - destruct (pad_loop_fl_leaves (inject_Z q)) as (r & (n & Hn) & _).
    pose proof (Hn n (Nat.le_refl n)) as Hr.
    destruct (pad_loop_fl_integer n q (inject_Z q) r (Qeq_refl _) Hr)
      as (k & Habs & Hfive & Hbelow).
    unfold sizes_to, sized_quantity_fl, pad_quantity_fl. cbv zeta.
    rewrite Hro. cbn [negb]. rewrite andb_true_r.
    destruct (Qlt_bool (rnd (Qabs (inject_Z q) * p)) 5) eqn:E.
    + exists (Z.abs q + Z.of_nat k)%Z. split; [|split; [lia|split; [assumption|split]]].
      * exists n. intros fuel Hfuel. rewrite (Hn fuel Hfuel). cbn [option_map].
        f_equal. unfold int_abs. apply Qfloor_eq_Z, Habs.
      * intros m' [Hlo Hhi].
        replace m' with (Z.abs q + Z.of_nat (Z.to_nat (m' - Z.abs q)))%Z by lia.
        apply Hbelow. lia.
      * intros m' Hlo Hfive'.
        destruct (Z_lt_le_dec m' (Z.abs q + Z.of_nat k)) as [Hlt|Hge]; [exfalso | assumption].
        assert (Hj : (Z.to_nat (m' - Z.abs q) < k)%nat) by lia.
        specialize (Hbelow _ Hj).
        replace (Z.abs q + Z.of_nat (Z.to_nat (m' - Z.abs q)))%Z with m' in Hbelow by lia.
        apply rnd_reaches_five in Hfive'. lra.
    + apply Qlt_bool_false_iff in E.
      change (Qabs (inject_Z q)) with (inject_Z (Z.abs q)) in E.
      exists (Z.abs q). split; [|split; [lia|split; [assumption|split]]].
      * exists O. intros fuel _. cbn [option_map]. rewrite int_abs_inject_Z. reflexivity.
      * intros m' Hm'. lia.
      * intros m' Hlo _. exact Hlo.
  - exists 12%nat. intros fuel Hfuel.
    unfold sized_quantity_fl, pad_quantity_fl. cbv zeta. rewrite Hro.
    assert (Hrun : pad_loop_fl round_binary64 12 1
                     (round_binary64 (Qabs 1 * round_binary64 (2 # 5)))
                     (round_binary64 (2 # 5)) = Some 13)
      by (vm_compute; reflexivity).
    assert (Hguard : Qlt_bool (round_binary64 (Qabs 1 * round_binary64 (2 # 5))) 5
                     && negb false = true) by (vm_compute; reflexivity).
    rewrite Hguard.
    rewrite (pad_loop_fl_fuel_le _ _ fuel _ _ _ _ Hfuel Hrun). reflexivity.
Qed.

End FloatSizing.

(** *** Sizing at the float 0.4 *)

Lemma sizable_price_0_4 : sizable_price (round_binary64 (2 # 5)).
Proof. vm_compute. discriminate. Qed.

Lemma sizing_loop_leaves_at_sizable_price_witness :
  (exists r,
     (forall fuel, (Z.to_nat max_exact_integer <= fuel)%nat ->
        pad_loop_fl round_binary64 fuel 1
          (round_binary64 (Qabs 1 * round_binary64 (2 # 5))) (round_binary64 (2 # 5))
        = Some r) /\
     5 <= round_binary64 (Qabs r * round_binary64 (2 # 5))) /\
  (exists q' p', 0 < p' /\ pad_loop_hangs round_binary64 q' p').
Proof.
  exact (sizing_loop_leaves_at_sizable_price round_binary64 round_binary64_float_rounding
           (round_binary64 (2 # 5)) sizable_price_0_4 1).
Defined.

Lemma padding_ends_and_keeps_sign_witness :
  exists r,
    pads_to round_binary64 None (- (1 # 2)) (round_binary64 (2 # 5)) r /\
    (0 < - (1 # 2) -> - (1 # 2) <= r) /\ (- (1 # 2) <= 0 -> r <= - (1 # 2)) /\
    (reduce_only None = false -> 5 <= round_binary64 (Qabs r * round_binary64 (2 # 5))).
Proof.
  exact (padding_ends_and_keeps_sign round_binary64 round_binary64_float_rounding
           (round_binary64 (2 # 5)) sizable_price_0_4 None (- (1 # 2))).
Defined.

Lemma sized_quantity_least_float_admissible_witness :
  (exists m : Z,
     sizes_to round_binary64 None (inject_Z 3) (round_binary64 (2 # 5)) m /\
     (Z.abs 3 <= m)%Z /\
     5 <= round_binary64 (inject_Z m * round_binary64 (2 # 5)) /\
     (forall m' : Z, (Z.abs 3 <= m' < m)%Z ->
        round_binary64 (inject_Z m' * round_binary64 (2 # 5)) < 5) /\
     (forall m' : Z, (Z.abs 3 <= m')%Z ->
        5 <= inject_Z m' * round_binary64 (2 # 5) -> (m <= m')%Z)) /\
  sizes_to round_binary64 None 1 (round_binary64 (2 # 5)) 13.
Proof.
  exact (sized_quantity_least_float_admissible round_binary64 round_binary64_float_rounding
           (round_binary64 (2 # 5)) sizable_price_0_4 None 3 eq_refl).
Defined.

(** Scenario D of the specification with floats: 12 units at 0.4 have a
    float notional below 5 and 13 units reach it. *)
Example scenario_D_floats :
  sized_quantity_fl round_binary64 12 None 1 (round_binary64 (2 # 5)) = Some 13%Z /\
  round_binary64 (12 * round_binary64 (2 # 5)) < 5 /\
  5 <= round_binary64 (13 * round_binary64 (2 # 5)).
Proof. vm_compute. repeat split; discriminate. Qed.

(** The float notional can reach 5 where the exact one does not: 78125
    units at the float 6.4e-05 are left as they are, with an exact notional
    below 5. *)
Example float_notional_reaches_five_first :
  sized_quantity_fl round_binary64 0 None 78125 (round_binary64 (64 # 1000000))
  = Some 78125%Z /\
  round_binary64 (78125 * round_binary64 (64 # 1000000)) == 5 /\
  78125 * round_binary64 (64 # 1000000) < 5.
Proof. vm_compute. repeat split; discriminate. Qed.

(** ** Reasoning about the executor: weakest preconditions *)

Section WeakestPreconditions.

Context {W : Type}.

Lemma wp_elim {A : Type} (c : M W A) (Q : state W -> outcome A -> Prop) (s : state W) :
  wp c Q s -> exists s' r, c s = (s', r) /\ Q s' r.
Proof.
  unfold wp. destruct (c s) as [s' r]. eauto.
Qed.

Lemma wp_mono {A : Type} (c : M W A) (Q Q' : state W -> outcome A -> Prop) (s : state W) :
  wp c Q s -> (forall s' r, Q s' r -> Q' s' r) -> wp c Q' s.
Proof. unfold wp. auto. Qed.

Lemma wp_ret {A : Type} (a : A) (Q : state W -> outcome A -> Prop) (s : state W) :
  Q s (Returned a) -> wp (ret a) Q s.
Proof. exact (fun H => H). Qed.

Lemma wp_raise {A : Type} (e : exn) (Q : state W -> outcome A -> Prop) (s : state W) :
  Q s (Raised e) -> wp (raise e) Q s.
Proof. exact (fun H => H). Qed.

Lemma wp_bind {A B : Type} (c : M W A) (k : A -> M W B)
    (Q : state W -> outcome B -> Prop) (s : state W) :
  wp c (fun s' r =>
          match r with
          | Returned a => wp (k a) Q s'
          | Raised e => Q s' (Raised e)
          | Diverged => Q s' Diverged
          end) s ->
  wp (bind c k) Q s.
Proof.
  unfold wp, bind. destruct (c s) as [s' [a|e|]]; exact (fun H => H).
Qed.

Lemma wp_try_except {A : Type} (body : M W A) (handler : exn -> M W A)
    (Q : state W -> outcome A -> Prop) (s : state W) :
  wp body (fun s' r =>
             match r with
             | Raised e => wp (handler e) Q s'
             | _ => Q s' r
             end) s ->
  wp (try_except body handler) Q s.
Proof.
  unfold wp, try_except. destruct (body s) as [s' [a|e|]]; exact (fun H => H).
Qed.

Lemma wp_log (ev : event) (Q : state W -> outcome unit -> Prop) (s : state W) :
  Q {| world := world s; trace := trace s ++ [ev] |} (Returned tt) ->
  wp (log ev) Q s.
Proof. exact (fun H => H). Qed.

Lemma wp_call {A : Type} (ev : event) (f : W -> W * (exn + A))
    (Q : state W -> outcome A -> Prop) (s : state W) :
  (forall w' r, f (world s) = (w', r) ->
     Q {| world := w'; trace := trace s ++ [ev] |}
       match r with inl e => Raised e | inr a => Returned a end) ->
  wp (call ev f) Q s.
Proof.
  unfold wp, call. intro H. destruct (f (world s)) as [w' r]. apply H. reflexivity.
Qed.

Lemma wp_number (v : option Q) (Q : state W -> outcome Q -> Prop) (s : state W) :
  (forall x, v = Some x -> Q s (Returned x)) ->
  (v = None -> Q s (Raised "TypeError")) ->
  wp (number v) Q s.
Proof. destruct v; unfold wp; simpl; auto. Qed.

Lemma wp_subscript (v : option Q) (Q : state W -> outcome Q -> Prop) (s : state W) :
  (forall x, v = Some x -> Q s (Returned x)) ->
  (v = None -> Q s (Raised "KeyError")) ->
  wp (subscript v) Q s.
Proof. destruct v; unfold wp; simpl; auto. Qed.

Lemma wp_loop_result {A : Type} (r : option A) (Q : state W -> outcome A -> Prop)
    (s : state W) :
  (forall a, r = Some a -> Q s (Returned a)) ->
  (r = None -> Q s Diverged) ->
  wp (loop_result r) Q s.
Proof. destruct r; unfold wp; simpl; auto. Qed.

End WeakestPreconditions.

(** One step of symbolic execution. *)
Ltac wp_step :=
  lazymatch goal with
  | |- wp (bind _ _) _ _ => apply wp_bind
  | |- wp (try_except _ _) _ _ => apply wp_try_except
  | |- wp (ret _) _ _ => apply wp_ret
  | |- wp (raise _) _ _ => apply wp_raise
  | |- wp (log _) _ _ => apply wp_log
  | |- wp (call _ _) _ _ =>
      let w := fresh "w" in
      let r := fresh "r" in
      let E := fresh "Ecall" in
      apply wp_call; intros w r E; cbn [world trace] in E; destruct r
  | |- wp (number _) _ _ =>
      let x := fresh "x" in
      let E := fresh "Enum" in
      apply wp_number; [intros x E | intros E]
  | |- wp (subscript _) _ _ =>
      let x := fresh "x" in
      let E := fresh "Esub" in
      apply wp_subscript; [intros x E | intros E]
  | |- wp (loop_result _) _ _ =>
      let x := fresh "x" in
      let E := fresh "Eloop" in
      apply wp_loop_result; [intros x E | intros E]
  | |- wp (if ?b then _ else _) _ _ =>
      let E := fresh "Eif" in
      destruct b eqn:E
  | |- wp (match ?x with _ => _ end) _ _ => destruct x eqn:?
  end; cbv beta iota.

Ltac wp_run := repeat wp_step.

(** The trace of a leaf of a symbolic execution, as an extension of the
    initial trace. *)
Ltac trace_tail :=
  cbn [trace world]; rewrite <- ?app_assoc; cbn [app]; reflexivity.

Ltac find_failure_log :=
  repeat first
    [ apply Exists_cons_hd; solve [left; reflexivity | right; reflexivity]
    | apply Exists_cons_tl ].

Section ExecutorFacts.

Context {W : Type} (ex : Exchange W).

(** [place_order] never raises; it extends the trace by its calls, where
    an order has the amount of [sized_quantity]; a result of [None] is
    logged; and with positive prices it returns. *)
Lemma place_order_spec (sym : string) (side : order_side) (q : Q)
    (params : option order_params) (s : state W) :
  wp (place_order ex sym side q params)
     (fun s' r =>
        (exists tail,
            trace s' = trace s ++ tail /\
            Forall (order_event_of sym side params q) tail /\
            (r = Returned None -> Exists (failure_log sym) tail)) /\
        (forall e, r <> Raised e) /\
        (positive_prices ex -> r <> Diverged)) s.
Proof.
  unfold place_order. cbv zeta. wp_run.
  all: (split; [eexists; split; [trace_tail|split] | split]).
  all: try (intros; discriminate).
  all: try match goal with
           | |- _ -> Exists _ _ => intros _; find_failure_log
           end.
  all: try (repeat constructor; fail).
  all: try (repeat apply Forall_cons; try apply Forall_nil; try exact I;
            cbn [order_event_of]; repeat split; eexists; unfold sized_quantity;
            match goal with
            | E : pad_quantity _ _ _ = Some _ |- _ => rewrite E
            end; reflexivity).
  intros Hpos _. subst o. apply Hpos in Ecall.
  destruct (pad_quantity_some params q x Ecall) as [r Hr]. congruence.
Qed.


(** One leg of the plan: the trade comes back with the result of its
    order, whatever happened to the leverage and to the order. *)
Lemma execute_trade_spec (t : trade) (s : state W) :
  wp (execute_trade ex t)
     (fun s' r =>
        (exists tail,
            trace s' = trace s ++ tail /\
            (r = Returned (t, None) -> Exists (failure_log (symbol t)) tail)) /\
        (forall e, r <> Raised e) /\
        (forall v, r = Returned v -> fst v = t) /\
        (positive_prices ex -> r <> Diverged)) s.
Proof.
  unfold execute_trade, set_leverage. cbv zeta. wp_run.
  all: (eapply wp_mono; [apply place_order_spec|]).
  all: cbn [trace world]; intros s' r ((tail & Htr & _ & Hlog) & Hraise & Hdiv).
  all: destruct r as [result|err|]; cbv beta iota;
    [ apply wp_ret | exfalso; eapply Hraise; reflexivity | ].
  all: (split; [eexists; split; [rewrite Htr, <- ?app_assoc; reflexivity|]
               | split; [|split]]).
  all: try (intros; discriminate).
  all: try assumption.
  all: try (intros v Hv; inversion Hv; reflexivity).
  all: try (intro Hpos; exfalso; apply (Hdiv Hpos); reflexivity).
  all: intro Hr; inversion Hr; subst result;
    repeat (apply Exists_app; right); apply Hlog; reflexivity.
Qed.

(** The loop over the plan: it never raises, the report it returns lists
    the trades of the plan in order, and a trade reported without an order
    has its failure in the log. *)
Lemma execute_plan_spec (plan : list trade) :
  forall s,
  wp (execute_plan ex plan)
     (fun s' r =>
        (exists tail,
            trace s' = trace s ++ tail /\
            (forall report, r = Returned report ->
               map fst report = plan /\
               forall t, In (t, None) report -> Exists (failure_log (symbol t)) tail)) /\
        (forall e, r <> Raised e) /\
        (positive_prices ex -> r <> Diverged)) s.
Proof.
  unfold execute_plan. induction plan as [|t plan IH]; intro s; cbn [for_each].
  - apply wp_ret. split; [|split].
    + exists []. split; [symmetry; apply app_nil_r|].
      intros report Hr. inversion Hr; subst. split; [reflexivity | intros ? []].
    + intros; discriminate.
    + intros; discriminate.
  - apply wp_bind. eapply wp_mono; [apply execute_trade_spec|].
    intros s1 r1 ((tail1 & Htr1 & Hlog1) & Hraise1 & Hfst1 & Hdiv1).
    destruct r1 as [[t' result]|err|]; cbv beta iota.
    + specialize (Hfst1 _ eq_refl). cbn [fst] in Hfst1. subst t'.
      apply wp_bind. eapply wp_mono; [apply IH|].
      intros s2 r2 ((tail2 & Htr2 & Hrep2) & Hraise2 & Hdiv2).
      destruct r2 as [report|err|]; cbv beta iota.
      * apply wp_ret.
        destruct (Hrep2 report eq_refl) as [Hmap Hnone].
        split; [|split].
        -- exists (tail1 ++ tail2).
           split; [rewrite Htr2, Htr1, app_assoc; reflexivity|].
           intros report' Hr. inversion Hr; subst report'. cbn [map fst].
           split; [f_equal; assumption|].
           intros t0 [Heq|Hin]; apply Exists_app.
           ++ inversion Heq; subst. left. apply Hlog1. reflexivity.
           ++ right. apply Hnone, Hin.
        -- intros; discriminate.
        -- intros; discriminate.
      * exfalso. eapply Hraise2. reflexivity.
      * split; [|split].
        -- exists (tail1 ++ tail2).
           split; [rewrite Htr2, Htr1, app_assoc; reflexivity|].
           intros; discriminate.
        -- intros; discriminate.
        -- intros Hpos _. apply (Hdiv2 Hpos). reflexivity.
    + exfalso. eapply Hraise1. reflexivity.
    + split; [|split].
      * exists tail1. split; [assumption | intros; discriminate].
      * intros; discriminate.
      * intros Hpos _. apply (Hdiv1 Hpos). reflexivity.
Qed.

(** The loop does not raise, whatever the exchange answers. *)
Lemma execute_plan_never_raises (plan : list trade) (s : state W) (e : exn) :
  snd (execute_plan ex plan s) <> Raised e.
Proof.
  destruct (wp_elim _ _ _ (execute_plan_spec plan s))
    as (s' & r & Hrun & _ & Hraise & _).
  rewrite Hrun. apply Hraise.
Qed.


(** C10. A balance that cannot be fetched is read as 0.0, and the cycle
    then ends, without raising, before any position is read, any leverage
    set or any order created. *)
Theorem balance_failure_aborts_cycle (reader : signal_source) (s : state W)
    (w' : W) (e : exn) :
  fetch_balance ex (fst (set_hedge_mode ex (world s))) = (w', inl e) ->
  (forall s0, world s0 = fst (set_hedge_mode ex (world s)) ->
     get_account_balance ex s0
     = ({| world := w';
           trace := trace s0 ++ [ev_fetch_balance; ev_log_balance_failed] |},
        Returned 0)) /\
  exists s' c tail,
    run_daily_trade reader ex s = (s', Returned c) /\
    c <> cycle_completed /\
    trace s' = trace s ++ tail /\
    Forall (fun ev => ~ trading_event ev) tail.
Proof.
  intro Hfail. split.
  - intros s0 Hw.
    unfold get_account_balance, try_except, bind, call, log, ret.
    rewrite Hw, Hfail. cbn [world trace]. rewrite <- app_assoc. reflexivity.
  - assert (H : wp (run_daily_trade reader ex)
                   (fun s' r => exists c tail,
                        r = Returned c /\ c <> cycle_completed /\
                        trace s' = trace s ++ tail /\
                        Forall (fun ev => ~ trading_event ev) tail) s).
    { unfold run_daily_trade, init_executor, get_account_balance.
      wp_run.
      all: try match goal with
             | Hh : set_hedge_mode _ _ = _,
               Hb : fetch_balance _ _ = (_, inr _) |- _ =>
                 rewrite Hh in Hfail; cbn [fst] in Hfail;
                 rewrite Hfail in Hb; discriminate
             end.
      all: try match goal with
             | Hq : Qle_bool 0 0 = false |- _ => discriminate Hq
             end.
      all: do 2 eexists; split; [reflexivity|]; split; [discriminate|];
        split; [trace_tail|]; repeat constructor; exact (fun f => f). }
    apply wp_elim in H. destruct H as (s' & r & Hrun & c & tail & -> & Hc & Htr & Hq).
    exists s', c, tail. auto.
Qed.

End ExecutorFacts.

(** ** The plan, leg by leg *)

Section FloatExecutorFacts.

Context {W : Type} (rnd : Q -> Q) (fuel : nat) (ex : Exchange W).

(** One leg of the plan: it does not raise; when it returns, it returns
    its trade with the result of the order and its events are a leg of that
    trade; and it returns when the sizing loop leaves. *)
Lemma execute_trade_fl_spec (t : trade) (s : state W) :
  wp (execute_trade_fl rnd fuel ex t)
     (fun s' r =>
        (forall e, r <> Raised e) /\
        (sizing_ends rnd fuel ex -> r <> Diverged) /\
        exists leg,
          trace s' = trace s ++ leg /\
          forall v, r = Returned v -> fst v = t /\ leg_of t (snd v) leg) s.
Proof.
  unfold execute_trade_fl, set_leverage, place_order_fl. cbv zeta. wp_run.
  all: split; [intros; discriminate|].
  all: split;
    [ first [ intros; discriminate
            | intros Hends _;
              match goal with
              | Et : fetch_ticker _ _ _ = (_, inr (Some ?p)),
                El : pad_quantity_fl _ _ _ _ _ = None |- _ =>
                  exact (Hends _ _ _ _ _ _ Et El)
              | Et : fetch_ticker _ _ _ = (_, inr ?l),
                En : ?l = Some ?p,
                El : pad_quantity_fl _ _ _ _ _ = None |- _ =>
                  rewrite En in Et; exact (Hends _ _ _ _ _ _ Et El)
              end ]
    | ].
  all: eexists; split; [trace_tail|].
  all: intros v Hv; try discriminate Hv; inversion Hv; subst v; cbn [fst snd].
  all: split; [reflexivity|].
  all: unfold leg_of; split; [eexists; split; [reflexivity | cbn [In]; tauto]|].
  all: split;
    [ repeat (apply Forall_cons; [cbn [leg_event p_positionSide]; auto|]);
      apply Forall_nil
    | ].
  all: try find_failure_log.
  all: split;
    [ repeat first [ apply Exists_cons_hd; reflexivity | apply Exists_cons_tl ]
    | repeat (apply Forall_cons; [intros [Hf|Hf]; discriminate Hf|]);
      apply Forall_nil ].
Qed.

(** The loop over the plan: it does not raise; it returns when the sizing
    loops leave; and the report it returns lists the trades of the plan in
    order, its events being their legs, one after the other. *)
Lemma execute_plan_fl_spec (plan : list trade) :
  forall s,
  wp (execute_plan_fl rnd fuel ex plan)
     (fun s' r =>
        (forall e, r <> Raised e) /\
        (sizing_ends rnd fuel ex -> r <> Diverged) /\
        forall report, r = Returned report ->
          map fst report = plan /\
          exists tail, trace s' = trace s ++ tail /\ legs_of report tail) s.
Proof.
  unfold execute_plan_fl. induction plan as [|t plan IH]; intro s; cbn [for_each].
  - apply wp_ret. split; [intros; discriminate|]. split; [intros; discriminate|].
    intros report Hr. inversion Hr; subst. split; [reflexivity|].
    exists []. split; [symmetry; apply app_nil_r | reflexivity].
  - apply wp_bind. eapply wp_mono; [apply execute_trade_fl_spec|].
    intros s1 r1 (Hraise1 & Hdiv1 & leg & Htr1 & Hleg).
    destruct r1 as [[t' result]|err|]; cbv beta iota.
    + destruct (Hleg _ eq_refl) as [Ht Hlegof]. cbn [fst snd] in Ht, Hlegof. subst t'.
      apply wp_bind. eapply wp_mono; [apply IH|].
      intros s2 r2 (Hraise2 & Hdiv2 & Hrep2).
      destruct r2 as [report|err|]; cbv beta iota.
      * apply wp_ret. split; [intros; discriminate|]. split; [intros; discriminate|].
        intros report' Hr. inversion Hr; subst report'.
        destruct (Hrep2 report eq_refl) as (Hmap & tail & Htr2 & Hlegs).
        split; [cbn [map fst]; f_equal; assumption|].
        exists (leg ++ tail). split; [rewrite Htr2, Htr1, app_assoc; reflexivity|].
        cbn [legs_of]. exists leg, tail. auto.
      * exfalso. eapply Hraise2. reflexivity.
      * split; [intros; discriminate|]. split; [assumption|]. intros; discriminate.
    + exfalso. eapply Hraise1. reflexivity.
    + split; [intros; discriminate|].
      split; [intros Hends _; apply (Hdiv1 Hends); reflexivity|].
      intros; discriminate.
Qed.

(** [execute_trades]: the report of the plan made from the positions
    read. *)
Lemma execute_trades_fl_spec (target_positions : dict Q) (s : state W)
    (w : W) (positions : list position) :
  fetch_positions ex None (world s) = (w, inr positions) ->
  wp (execute_trades_fl rnd fuel ex target_positions)
     (fun s' r =>
        (forall e, r <> Raised e) /\
        (sizing_ends rnd fuel ex -> r <> Diverged) /\
        forall report, r = Returned report ->
          map fst report
          = trade_plan_fl rnd (current_positions_of positions) target_positions /\
          exists tail,
            trace s' = trace s ++ ev_fetch_positions None :: tail /\
            legs_of report tail) s.
Proof.
  intro Hfetch.
  unfold execute_trades_fl. apply wp_try_except, wp_bind, wp_call.
  intros w0 r Ecall. rewrite Hfetch in Ecall. inversion Ecall; subst w0 r.
  cbv beta iota zeta.
  eapply wp_mono; [apply execute_plan_fl_spec|].
  intros s' r (Hraise & Hdiv & Hrep).
  destruct r as [report|err|]; cbv beta iota.
  - split; [intros; discriminate|]. split; [intros; discriminate|].
    intros report' Hr. inversion Hr; subst report'.
    destruct (Hrep report eq_refl) as (Hmap & tail & Htr & Hlegs).
    split; [assumption|]. exists tail. split; [|assumption].
    cbn [trace world] in Htr. rewrite Htr, <- app_assoc. reflexivity.
  - exfalso. eapply Hraise. reflexivity.
  - split; [intros; discriminate|]. split; [assumption|]. intros; discriminate.
Qed.

End FloatExecutorFacts.

Section FloatExecution.

Context {W : Type} (rnd : Q -> Q) (ex : Exchange W).
Hypothesis rnd_float : float_rounding rnd.
Hypothesis prices_sizable : sizable_prices ex.

Lemma sizable_prices_sizing_ends (fuel : nat) :
  (Z.to_nat max_exact_integer <= fuel)%nat -> sizing_ends rnd fuel ex.
Proof.
  intros Hfuel sym w w' p params q Hp.
  apply pad_quantity_fl_ends; [assumption | eapply prices_sizable; eauto | assumption].
Qed.


(** X19. [execute_trades] runs the plan it made: when the positions are
    read and every ticker price is at least [5 / 2 ** 53], it returns a
    report of the plan made from the book of the positions read and the
    target given, in order, and after the call that read the positions its
    events are the legs of the trades of that plan, one after the other. *)
Theorem execute_trades_runs_each_leg_of_the_plan (target_positions : dict Q)
    (s : state W) (w : W) (positions : list position) (fuel : nat) :
  (Z.to_nat max_exact_integer <= fuel)%nat ->
  fetch_positions ex None (world s) = (w, inr positions) ->
  exists s' report tail,
    execute_trades_fl rnd fuel ex target_positions s = (s', Returned report) /\
    map fst report
    = trade_plan_fl rnd (current_positions_of positions) target_positions /\
    trace s' = trace s ++ ev_fetch_positions None :: tail /\
    legs_of report tail.
Proof.
  intros Hfuel Hfetch.
  destruct (wp_elim _ _ _ (execute_trades_fl_spec rnd fuel ex target_positions s
                             w positions Hfetch))
    as (s' & r & Hrun & Hraise & Hdiv & Hrep).
  destruct r as [report|err|].
  - destruct (Hrep report eq_refl) as (Hmap & tail & Htr & Hlegs).
    exists s', report, tail. auto.
  - exfalso. eapply Hraise. reflexivity.
  - exfalso. apply Hdiv; [apply sizable_prices_sizing_ends, Hfuel | reflexivity].
Qed.

End FloatExecution.

(** ** Runs on the simulated exchange *)

Lemma paper_prices_sizable (balance : exn + option Q) (held : list position)
    (rejected : list string) :
  sizable_prices (paper_exchange balance (Some (round_binary64 (2 # 5))) held rejected).
Proof.
  intros sym w w' p H. unfold paper_exchange, fetch_ticker in H.
  inversion H. exact sizable_price_0_4.
Qed.


(** The same run, followed for 100 iterations of each sizing loop: the
    second leg is rejected by the exchange, its failure is logged, and the
    third leg is run and ordered. *)
Example plan_goes_on_after_rejection :
  execute_plan_fl round_binary64 100
    (paper_exchange (inr (Some 100)) (Some (round_binary64 (2 # 5))) [] ["ETHUSDT"])
    [mk_trade "BTCUSDT" buy 20 LONG adjust;
     mk_trade "ETHUSDT" sell 15 LONG close;
     mk_trade "XRPUSDT" buy 30 SHORT close] fresh
  = ({| world := 2%nat;
        trace :=
          [ev_set_leverage "BTCUSDT" 1; ev_fetch_ticker "BTCUSDT";
           ev_fetch_positions (Some "BTCUSDT"); ev_market "BTCUSDT";
           ev_create_order "BTCUSDT" buy 20 (mk_params (Some LONG) None);
           ev_set_leverage "ETHUSDT" 1; ev_fetch_ticker "ETHUSDT";
           ev_fetch_positions (Some "ETHUSDT"); ev_market "ETHUSDT";
           ev_create_order "ETHUSDT" sell 15 (mk_params (Some LONG) None);
           ev_log_order_failed "ETHUSDT";
           ev_set_leverage "XRPUSDT" 1; ev_fetch_ticker "XRPUSDT";
           ev_fetch_positions (Some "XRPUSDT"); ev_market "XRPUSDT";
           ev_create_order "XRPUSDT" buy 30 (mk_params (Some SHORT) None)] |},
     Returned [(mk_trade "BTCUSDT" buy 20 LONG adjust, Some "order-0");
               (mk_trade "ETHUSDT" sell 15 LONG close, None);
               (mk_trade "XRPUSDT" buy 30 SHORT close, Some "order-1")]).
Proof. vm_compute. reflexivity. Qed.

Lemma execute_trades_runs_each_leg_of_the_plan_witness :
  exists s' report tail,
    execute_trades_fl round_binary64 (Z.to_nat max_exact_integer)
      (paper_exchange (inr (Some 100)) (Some (round_binary64 (2 # 5)))
         [mk_position "ETH/USDT:USDT" 5 "long" "LONG"] [])
      [("BTCUSDT", 20)] fresh = (s', Returned report) /\
    map fst report
    = trade_plan_fl round_binary64
        (current_positions_of [mk_position "ETH/USDT:USDT" 5 "long" "LONG"])
        [("BTCUSDT", 20)] /\
    trace s' = trace fresh ++ ev_fetch_positions None :: tail /\
    legs_of report tail.
Proof.
  apply (execute_trades_runs_each_leg_of_the_plan round_binary64
           (paper_exchange (inr (Some 100)) (Some (round_binary64 (2 # 5)))
              [mk_position "ETH/USDT:USDT" 5 "long" "LONG"] [])
           round_binary64_float_rounding
           (paper_prices_sizable (inr (Some 100))
              [mk_position "ETH/USDT:USDT" 5 "long" "LONG"] [])
           [("BTCUSDT", 20)] fresh O).
  - apply le_n.
  - reflexivity.
Defined.



(** The run with exact arithmetic: the second leg is rejected by the
    exchange and the third is still ordered. *)
Example plan_continues_after_rejection :
  snd (execute_plan (paper_exchange (inr (Some 100)) (Some (2 # 5)) [] ["ETHUSDT"])
         [mk_trade "BTCUSDT" buy 20 LONG adjust;
          mk_trade "ETHUSDT" sell 15 LONG close;
          mk_trade "XRPUSDT" buy 30 SHORT close] fresh)
  = Returned [(mk_trade "BTCUSDT" buy 20 LONG adjust, Some "order-0");
              (mk_trade "ETHUSDT" sell 15 LONG close, None);
              (mk_trade "XRPUSDT" buy 30 SHORT close, Some "order-1")].
Proof. vm_compute. reflexivity. Qed.



(** C6, as stated, fails: at a price of 0 no number of iterations ends the
    loop, and [place_order] neither returns nor raises. *)
Lemma sizing_loop_diverges_at_price_zero :
  ~ (exists n, pad_loop n 1 (Qabs 1 * 0) 0 <> None) /\
  snd (place_order (paper_exchange (inr (Some 100)) (Some 0) [] [])
         "BTCUSDT" buy 1 None fresh) = Diverged.
Proof.
  split.
  - intros [n H]. apply H. apply pad_loop_diverges. lra.
  - vm_compute. reflexivity.
Qed.

Lemma balance_failure_aborts_cycle_witness :
  (forall s0, world s0 = fst (set_hedge_mode
                                (paper_exchange (inl "NetworkError") (Some (2 # 5)) [] [])
                                (world fresh)) ->
     get_account_balance (paper_exchange (inl "NetworkError") (Some (2 # 5)) [] []) s0
     = ({| world := O;
           trace := trace s0 ++ [ev_fetch_balance; ev_log_balance_failed] |},
        Returned 0)) /\
  exists s' c tail,
    run_daily_trade
      (mk_signal_source (Some "trading_signals_1.log")
                        (fun _ => ([("BTCUSDT", 10)], "2024-01-01"))
                        (fun _ => Some 1%Z))
      (paper_exchange (inl "NetworkError") (Some (2 # 5)) [] []) fresh
    = (s', Returned c) /\
    c <> cycle_completed /\
    trace s' = trace fresh ++ tail /\
    Forall (fun ev => ~ trading_event ev) tail.
Proof.
  apply (balance_failure_aborts_cycle
           (paper_exchange (inl "NetworkError") (Some (2 # 5)) [] [])
           (mk_signal_source (Some "trading_signals_1.log")
                             (fun _ => ([("BTCUSDT", 10)], "2024-01-01"))
                             (fun _ => Some 1%Z))
           fresh O "NetworkError").
  reflexivity.
Defined.

(** The same cycle, computed, and the cycle with the balance in reach. *)
Example cycle_without_balance :
  run_daily_trade
    (mk_signal_source (Some "trading_signals_1.log")
                      (fun _ => ([("BTCUSDT", 10)], "2024-01-01"))
                      (fun _ => Some 1%Z))
    (paper_exchange (inl "NetworkError") (Some (2 # 5)) [] []) fresh
  = ({| world := O;
        trace := [ev_set_hedge_mode; ev_fetch_balance; ev_log_balance_failed;
                  ev_log_insufficient_balance] |},
     Returned insufficient_balance).
Proof. vm_compute. reflexivity. Qed.

Example cycle_with_balance :
  snd (run_daily_trade
         (mk_signal_source (Some "trading_signals_1.log")
                           (fun _ => ([("BTCUSDT", 10)], "2024-01-01"))
                           (fun _ => Some 1%Z))
         (paper_exchange (inr (Some 100)) (Some (2 # 5)) [] []) fresh)
  = Returned cycle_completed.
Proof. vm_compute. reflexivity. Qed.

(** * Further properties *)

(** ** The symbol formatter *)

Lemma mentions_append (c : ascii) (a b : string) :
  mentions c (a ++ b)%string <-> mentions c a \/ mentions c b.
Proof.
  unfold mentions. induction a as [|x a IH]; simpl.
  - tauto.
  - rewrite IH. tauto.
Qed.

Lemma mentions_substring (c : ascii) (s : string) :
  forall n m, mentions c (substring n m s) -> mentions c s.
Proof.
  unfold mentions. induction s as [|x s IH]; intros n m H.
  - destruct n, m; simpl in H; contradiction.
  - destruct n as [|n].
    + destruct m as [|m]; simpl in H; [contradiction|].
      destruct H as [H|H]; [left; assumption | right; eapply IH; eassumption].
    + simpl in H. right. eapply IH; eassumption.
Qed.

Lemma before_colon_id (s : string) : ~ mentions ":" s -> before_colon s = s.
Proof.
  unfold mentions. induction s as [|x s IH]; simpl; intro H.
  - reflexivity.
  - destruct (Ascii.eqb_spec x ":") as [->|Hne].
    + exfalso. apply H. now left.
    + f_equal. apply IH. tauto.
Qed.

Lemma remove_slashes_id (s : string) : ~ mentions "/" s -> remove_slashes s = s.
Proof.
  unfold mentions. induction s as [|x s IH]; simpl; intro H.
  - reflexivity.
  - destruct (Ascii.eqb_spec x "/") as [->|Hne].
    + exfalso. apply H. now left.
    + f_equal. apply IH. tauto.
Qed.

Lemma before_colon_clean (s : string) : ~ mentions ":" (before_colon s).
Proof.
  unfold mentions. induction s as [|x s IH]; simpl.
  - tauto.
  - destruct (Ascii.eqb_spec x ":") as [->|Hne]; simpl; [tauto|].
    intros [H|H]; [congruence | contradiction].
Qed.

Lemma remove_slashes_mentions (c : ascii) (s : string) :
  mentions c (remove_slashes s) -> mentions c s.
Proof.
  unfold mentions. induction s as [|x s IH]; simpl.
  - tauto.
  - destruct (Ascii.eqb x "/"); simpl; tauto.
Qed.

Lemma remove_slashes_clean (s : string) : ~ mentions "/" (remove_slashes s).
Proof.
  unfold mentions. induction s as [|x s IH]; simpl.
  - tauto.
  - destruct (Ascii.eqb_spec x "/") as [->|Hne]; simpl; [assumption|].
    intros [H|H]; [congruence | contradiction].
Qed.

Lemma length_append (a b : string) :
  String.length (a ++ b)%string = (String.length a + String.length b)%nat.
Proof. induction a as [|x a IH]; simpl; [reflexivity | now rewrite IH]. Qed.

Lemma substring_all (s : string) : substring 0 (String.length s) s = s.
Proof. induction s as [|x s IH]; simpl; [reflexivity | now rewrite IH]. Qed.

Lemma substring_append_left (a b : string) :
  substring 0 (String.length a) (a ++ b)%string = a.
Proof.
  induction a as [|x a IH]; simpl.
  - destruct b; reflexivity.
  - now rewrite IH.
Qed.

Lemma substring_append_right (a b : string) (m : nat) :
  substring (String.length a) m (a ++ b)%string = substring 0 m b.
Proof. induction a as [|x a IH]; simpl; [reflexivity | exact IH]. Qed.

(** A string is its first [n] characters followed by the rest. *)
Lemma substring_split (s : string) :
  forall n, (n <= String.length s)%nat ->
  (substring 0 n s ++ substring n (String.length s - n) s)%string = s.
Proof.
  induction s as [|x s IH]; intros n Hn.
  - destruct n; reflexivity.
  - destruct n as [|n].
    + cbn [substring append]. rewrite Nat.sub_0_r.
      change (String.length (String x s)) with (S (String.length s)).
      cbn [substring]. now rewrite substring_all.
    + simpl in Hn. cbn [substring append String.length Nat.sub]. f_equal.
      apply IH. lia.
Qed.

Lemma endswith_append (a suffix : string) : endswith (a ++ suffix) suffix = true.
Proof.
  unfold endswith. rewrite length_append.
  replace (String.length a + String.length suffix - String.length suffix)%nat
    with (String.length a) by lia.
  rewrite substring_append_right, substring_all, String.eqb_refl.
  rewrite andb_true_r. apply Nat.leb_le. lia.
Qed.

Lemma endswith_split (s suffix : string) :
  endswith s suffix = true ->
  (substring 0 (String.length s - String.length suffix) s ++ suffix)%string = s.
Proof.
  unfold endswith. intro H. apply andb_prop in H. destruct H as [Hle Heq].
  apply Nat.leb_le in Hle. apply String.eqb_eq in Heq.
  assert (Hn : (String.length s - String.length suffix <= String.length s)%nat) by lia.
  pose proof (substring_split s _ Hn) as H.
  replace (String.length s - (String.length s - String.length suffix))%nat
    with (String.length suffix) in H by lia.
  rewrite Heq in H. exact H.
Qed.

Lemma strip_append (a : string) :
  substring 0 (String.length (a ++ "USDT") - 4) (a ++ "USDT")%string = a.
Proof.
  rewrite length_append. change (String.length "USDT") with 4%nat.
  replace (String.length a + 4 - 4)%nat with (String.length a) by lia.
  apply substring_append_left.
Qed.

(** The stem the formatter puts before its suffix. *)
Lemma format_symbol_stem (s : string) :
  exists stem,
    format_symbol_for_binance s = (stem ++ "USDT")%string /\
    ~ mentions ":" stem /\ ~ mentions "/" stem.
Proof.
  unfold format_symbol_for_binance. cbv zeta.
  set (s2 := remove_slashes (before_colon s)).
  assert (Hc : ~ mentions ":" s2).
  { intro H. apply remove_slashes_mentions in H. exact (before_colon_clean s H). }
  assert (Hs : ~ mentions "/" s2) by apply remove_slashes_clean.
  destruct (endswith s2 "USDT").
  - eexists. split; [reflexivity|].
    split; intro H; apply mentions_substring in H; contradiction.
  - exists s2. auto.
Qed.

Lemma format_symbol_of_stem (stem : string) :
  ~ mentions ":" stem -> ~ mentions "/" stem ->
  format_symbol_for_binance (stem ++ "USDT") = (stem ++ "USDT")%string.
Proof.
  intros Hc Hs. unfold format_symbol_for_binance. cbv zeta.
  assert (Hc' : ~ mentions ":" (stem ++ "USDT")%string).
  { rewrite mentions_append. intros [H|H]; [contradiction|].
    unfold mentions in H. simpl in H. intuition discriminate. }
  assert (Hs' : ~ mentions "/" (stem ++ "USDT")%string).
  { rewrite mentions_append. intros [H|H]; [contradiction|].
    unfold mentions in H. simpl in H. intuition discriminate. }
  rewrite (before_colon_id _ Hc'), (remove_slashes_id _ Hs').
  rewrite endswith_append, strip_append. reflexivity.
Qed.

(** X1. Formatting is idempotent: a formatted symbol is left as it is. *)
Theorem format_symbol_idempotent (s : string) :
  format_symbol_for_binance (format_symbol_for_binance s)
  = format_symbol_for_binance s.
Proof.
  destruct (format_symbol_stem s) as (stem & -> & Hc & Hs).
  apply format_symbol_of_stem; assumption.
Qed.

(** X2. A formatted symbol ends in USDT and holds neither a colon nor a
    slash. *)
Theorem format_symbol_exchange_format (s : string) :
  endswith (format_symbol_for_binance s) "USDT" = true /\
  ~ mentions ":" (format_symbol_for_binance s) /\
  ~ mentions "/" (format_symbol_for_binance s).
Proof.
  destruct (format_symbol_stem s) as (stem & -> & Hc & Hs).
  split; [apply endswith_append|].
  split; rewrite mentions_append; intros [H|H]; try contradiction;
    unfold mentions in H; simpl in H; intuition discriminate.
Qed.

(** X3. A symbol already in the format of the exchange (no colon, no
    slash, ending in USDT) is unchanged; so are the keys the signal reader
    extracts. *)
Theorem format_symbol_fixes_exchange_format (s : string) :
  ~ mentions ":" s -> ~ mentions "/" s -> endswith s "USDT" = true ->
  format_symbol_for_binance s = s.
Proof.
  intros Hc Hs He. apply endswith_split in He.
  change (String.length "USDT") with 4%nat in He.
  rewrite <- He. apply format_symbol_of_stem.
  - intro H. apply mentions_substring in H. contradiction.
  - intro H. apply mentions_substring in H. contradiction.
Qed.

Lemma format_symbol_fixes_exchange_format_witness :
  format_symbol_for_binance "1000PEPEUSDT" = "1000PEPEUSDT".
Proof.
  apply (format_symbol_fixes_exchange_format "1000PEPEUSDT").
  - unfold mentions. simpl. intuition discriminate.
  - unfold mentions. simpl. intuition discriminate.
  - reflexivity.
Defined.

(** ** The current book *)

Lemma Qabs_pos_iff (x : Q) : 0 < Qabs x <-> ~ x == 0.
Proof.
  destruct (Qabs_cases x) as [[H1 H2]|[H1 H2]]; split; intro H; lra.
Qed.

Lemma keys_record_position (d : dict side_info) (pos : position) (k : string) :
  In k (keys (record_position d pos)) <->
  In k (keys d) \/
  (~ pos_contracts pos == 0 /\ format_symbol_for_binance (pos_symbol pos) = k).
Proof.
  unfold record_position.
  destruct (Qlt_bool 0 (Qabs (pos_contracts pos))) eqn:E;
    [apply Qlt_bool_iff, Qabs_pos_iff in E
    | apply Qlt_bool_false_iff in E].
  - set (sym := format_symbol_for_binance (pos_symbol pos)).
    destruct (dict_mem d sym) eqn:Em.
    + rewrite keys_dict_set, Em. apply dict_mem_iff in Em.
      split; [tauto|]. intros [H|[_ <-]]; assumption.
    + assert (Hmem : dict_mem (dict_set d sym flat) sym = true).
      { apply dict_mem_iff. rewrite keys_dict_set, Em. apply in_or_app. right. now left. }
      rewrite keys_dict_set, Hmem, keys_dict_set, Em, in_app_iff. simpl.
      split.
      * intros [H|[H|[]]]; [tauto | right; split; [assumption | assumption]].
      * intros [H|[_ H]]; [tauto | right; left; assumption].
  - split; [tauto|]. intros [H|[H _]]; [assumption|].
    exfalso. apply H. destruct (Qabs_cases (pos_contracts pos)) as [[? ?]|[? ?]]; lra.
Qed.

Lemma keys_fold_record_position (positions : list position) :
  forall (d : dict side_info) (k : string),
  In k (keys (fold_left record_position positions d)) <->
  In k (keys d) \/
  exists pos, In pos positions /\ ~ pos_contracts pos == 0 /\
              format_symbol_for_binance (pos_symbol pos) = k.
Proof.
  induction positions as [|pos l IH]; intros d k; simpl.
  - split; [tauto|]. intros [H|(pos & [] & _)]. assumption.
  - rewrite IH, keys_record_position. split.
    + intros [[H|H]|(p & Hp & H)].
      * tauto.
      * right. exists pos. tauto.
      * right. exists p. tauto.
    + intros [H|(p & [<-|Hp] & H)].
      * tauto.
      * tauto.
      * right. exists p. tauto.
Qed.

(** X4. The book built from the positions of the exchange is a
    dictionary whose keys are all in the format of the exchange. *)
Theorem current_book_keys_formatted (positions : list position) :
  NoDup (keys (current_positions_of positions)) /\
  Forall (fun k => format_symbol_for_binance k = k)
         (keys (current_positions_of positions)).
Proof.
  split; [apply current_positions_of_keys|].
  apply Forall_forall. intros k Hk. unfold current_positions_of in Hk.
  apply keys_fold_record_position in Hk.
  destruct Hk as [[]|(pos & _ & _ & <-)].
  destruct (format_symbol_stem (pos_symbol pos)) as (stem & -> & Hc & Hs).
  apply format_symbol_of_stem; assumption.
Qed.

(** X5. An instrument is in the book exactly when some position of it has
    contracts other than zero: positions without contracts are dropped, and
    positions are grouped under their formatted symbol. *)
Theorem current_book_membership (positions : list position) (k : string) :
  In k (keys (current_positions_of positions)) <->
  exists pos, In pos positions /\ ~ pos_contracts pos == 0 /\
              format_symbol_for_binance (pos_symbol pos) = k.
Proof.
  unfold current_positions_of. rewrite keys_fold_record_position.
  simpl. tauto.
Qed.

(** Lookup after an update. *)
Lemma dict_get_set_same {V : Type} (d : dict V) (k : string) (v : V) :
  dict_get (dict_set d k v) k = Some v.
Proof.
  induction d as [|[k' v'] d IH]; simpl.
  - now rewrite String.eqb_refl.
  - destruct (String.eqb k k') eqn:E; simpl; rewrite E; [reflexivity | exact IH].
Qed.

Lemma dict_get_set_other {V : Type} (d : dict V) (k k' : string) (v : V) :
  k' <> k -> dict_get (dict_set d k v) k' = dict_get d k'.
Proof.
  intro Hne. induction d as [|[k0 v0] d IH]; simpl.
  - apply String.eqb_neq in Hne. now rewrite Hne.
  - destruct (String.eqb k k0) eqn:E; simpl.
    + apply String.eqb_eq in E. subst k0.
      apply String.eqb_neq in Hne. now rewrite Hne.
    + destruct (String.eqb k' k0); [reflexivity | exact IH].
Qed.

Lemma dict_get_in {V : Type} (d : dict V) (k : string) (v : V) :
  dict_get d k = Some v -> In (k, v) d.
Proof.
  induction d as [|[k' v'] d IH]; simpl; [discriminate|].
  destruct (String.eqb_spec k k') as [->|Hne].
  - intro H. inversion H. now left.
  - intro H. right. apply IH, H.
Qed.

Lemma dict_in_get {V : Type} (d : dict V) (k : string) (v : V) :
  NoDup (keys d) -> In (k, v) d -> dict_get d k = Some v.
Proof.
  induction d as [|[k' v'] d IH]; simpl; intros Hnd H; [contradiction|].
  inversion Hnd as [|? ? Hnotin Hnd']; subst.
  destruct H as [H|H].
  - inversion H; subst. now rewrite String.eqb_refl.
  - destruct (String.eqb_spec k k') as [->|Hne].
    + exfalso. apply Hnotin. eapply in_keys; eauto.
    + apply IH; assumption.
Qed.

(** Recording a position rewrites one entry of the book: the entry of its
    formatted symbol, made from the entry there was, or from a flat one. *)
Lemma dict_get_record_position (d : dict side_info) (pos : position) (k : string) :
  dict_get (record_position d pos) k =
  if Qlt_bool 0 (Qabs (pos_contracts pos))
     && String.eqb k (format_symbol_for_binance (pos_symbol pos))
  then Some (set_side (dict_get_default d (format_symbol_for_binance (pos_symbol pos)) flat)
                      (pos_positionSide pos) (pos_contracts pos))
  else dict_get d k.
Proof.
  unfold record_position.
  destruct (Qlt_bool 0 (Qabs (pos_contracts pos))); [|reflexivity].
  cbn [andb]. set (sym := format_symbol_for_binance (pos_symbol pos)).
  assert (Hold : dict_get_default (if dict_mem d sym then d else dict_set d sym flat) sym flat
                 = dict_get_default d sym flat).
  { unfold dict_mem, dict_get_default.
    destruct (dict_get d sym) eqn:E; [rewrite E; reflexivity|].
    now rewrite dict_get_set_same. }
  rewrite Hold.
  destruct (String.eqb_spec k sym) as [->|Hne].
  - apply dict_get_set_same.
  - rewrite dict_get_set_other by assumption.
    unfold dict_mem. destruct (dict_get d sym); [reflexivity|].
    apply dict_get_set_other. assumption.
Qed.

Lemma side_from_positions_more (positions : list position) (pos : position)
    (k tag : string) (m : Q) :
  side_from_positions positions k tag m ->
  side_from_positions (positions ++ [pos]) k tag m.
Proof.
  intros [H|(p & Hp & H)]; [left; assumption|].
  right. exists p. split; [apply in_or_app; now left | assumption].
Qed.

Lemma fold_record_position_sides (positions : list position) :
  forall (seen : list position) (d : dict side_info),
  (forall k info, dict_get d k = Some info ->
     side_from_positions seen k "LONG" (qLONG info) /\
     side_from_positions seen k "SHORT" (qSHORT info)) ->
  forall k info, dict_get (fold_left record_position positions d) k = Some info ->
     side_from_positions (seen ++ positions) k "LONG" (qLONG info) /\
     side_from_positions (seen ++ positions) k "SHORT" (qSHORT info).
Proof.
  induction positions as [|pos l IH]; intros seen d Hd k info Hk; simpl in Hk.
  - rewrite app_nil_r. auto.
  - replace (seen ++ pos :: l) with ((seen ++ [pos]) ++ l)
      by (rewrite <- app_assoc; reflexivity).
    apply (IH (seen ++ [pos]) (record_position d pos)); [|assumption].
    clear k info Hk. intros k info Hk.
    rewrite dict_get_record_position in Hk.
    assert (Hold : forall k info, dict_get d k = Some info ->
       side_from_positions (seen ++ [pos]) k "LONG" (qLONG info) /\
       side_from_positions (seen ++ [pos]) k "SHORT" (qSHORT info)).
    { intros k0 i0 H0. destruct (Hd k0 i0 H0).
      split; apply side_from_positions_more; assumption. }
    destruct (Qlt_bool 0 (Qabs (pos_contracts pos))) eqn:E; [|auto].
    apply Qlt_bool_iff, Qabs_pos_iff in E.
    destruct (String.eqb_spec k (format_symbol_for_binance (pos_symbol pos)))
      as [->|Hne]; [|auto].
    cbn [andb] in Hk. inversion Hk; subst info. clear Hk.
    set (sym := format_symbol_for_binance (pos_symbol pos)) in *.
    assert (Hprev : side_from_positions (seen ++ [pos]) sym "LONG"
                      (qLONG (dict_get_default d sym flat)) /\
                    side_from_positions (seen ++ [pos]) sym "SHORT"
                      (qSHORT (dict_get_default d sym flat))).
    { unfold dict_get_default. destruct (dict_get d sym) eqn:Eg.
      - apply Hold, Eg.
      - split; left; reflexivity. }
    destruct Hprev as [HL HS].
    assert (Hnew : forall tag, pos_positionSide pos = tag ->
              side_from_positions (seen ++ [pos]) sym tag (pos_contracts pos)).
    { intros tag Htag. right. exists pos.
      split; [apply in_or_app; right; now left|]. auto. }
    unfold set_side.
    destruct (String.eqb_spec (pos_positionSide pos) "LONG") as [Ht|Ht].
    + cbn [qLONG qSHORT]. auto.
    + destruct (String.eqb_spec (pos_positionSide pos) "SHORT") as [Ht'|Ht'].
      * cbn [qLONG qSHORT]. auto.
      * auto.
Qed.

(** X6. The book invents no magnitude: each side of an entry is the
    initial 0 or the contracts, other than zero, of a position of that
    instrument tagged with that side. *)
Theorem current_book_sides_from_positions
    (positions : list position) (k : string) (info : side_info) :
  dict_get (current_positions_of positions) k = Some info ->
  side_from_positions positions k "LONG" (qLONG info) /\
  side_from_positions positions k "SHORT" (qSHORT info).
Proof.
  intro H. unfold current_positions_of in H.
  apply (fold_record_position_sides positions [] []); [|assumption].
  intros ? ? Hk. discriminate Hk.
Qed.

Lemma current_book_sides_from_positions_witness :
  side_from_positions
    [mk_position "BTC/USDT:USDT" 3 "long" "LONG";
     mk_position "BTC/USDT:USDT" 2 "short" "SHORT"] "BTCUSDT" "LONG" 3 /\
  side_from_positions
    [mk_position "BTC/USDT:USDT" 3 "long" "LONG";
     mk_position "BTC/USDT:USDT" 2 "short" "SHORT"] "BTCUSDT" "SHORT" 2.
Proof.
  apply (current_book_sides_from_positions
           [mk_position "BTC/USDT:USDT" 3 "long" "LONG";
            mk_position "BTC/USDT:USDT" 2 "short" "SHORT"]
           "BTCUSDT" (mk_side_info 3 2)).
  reflexivity.
Defined.

(** X7. The two sides of an instrument are kept apart and the last
    position wins: after a further position with contracts other than zero,
    the side it is tagged with holds its contracts and the other side holds
    what it held. *)
Theorem current_book_last_position_wins (positions : list position) (pos : position) :
  ~ pos_contracts pos == 0 ->
  let k := format_symbol_for_binance (pos_symbol pos) in
  let before := dict_get_default (current_positions_of positions) k flat in
  let after := dict_get_default (current_positions_of (positions ++ [pos])) k flat in
  (pos_positionSide pos = "LONG" ->
     qLONG after = pos_contracts pos /\ qSHORT after = qSHORT before) /\
  (pos_positionSide pos = "SHORT" ->
     qSHORT after = pos_contracts pos /\ qLONG after = qLONG before) /\
  (pos_positionSide pos <> "LONG" -> pos_positionSide pos <> "SHORT" ->
     after = before).
Proof.
  intro Hnz. cbv zeta. unfold current_positions_of.
  rewrite fold_left_app. cbn [fold_left].
  set (d := fold_left record_position positions []).
  assert (E : Qlt_bool 0 (Qabs (pos_contracts pos)) = true)
    by (apply Qlt_bool_iff, Qabs_pos_iff; assumption).
  assert (Hafter :
            dict_get_default (record_position d pos)
              (format_symbol_for_binance (pos_symbol pos)) flat
            = set_side (dict_get_default d (format_symbol_for_binance (pos_symbol pos)) flat)
                       (pos_positionSide pos) (pos_contracts pos)).
  { unfold dict_get_default at 1.
    rewrite dict_get_record_position, E, String.eqb_refl. reflexivity. }
  rewrite Hafter. unfold set_side.
  split; [|split].
  - intro H. rewrite H. cbn. split; reflexivity.
  - intro H. rewrite H. cbn. split; reflexivity.
  - intros H H0. apply String.eqb_neq in H, H0. rewrite H, H0. reflexivity.
Qed.

Lemma current_book_last_position_wins_witness :
  let pos := mk_position "BTC/USDT:USDT" 2 "short" "SHORT" in
  let positions := [mk_position "BTC/USDT:USDT" 3 "long" "LONG"] in
  let k := format_symbol_for_binance (pos_symbol pos) in
  let before := dict_get_default (current_positions_of positions) k flat in
  let after := dict_get_default (current_positions_of (positions ++ [pos])) k flat in
  (pos_positionSide pos = "LONG" ->
     qLONG after = pos_contracts pos /\ qSHORT after = qSHORT before) /\
  (pos_positionSide pos = "SHORT" ->
     qSHORT after = pos_contracts pos /\ qLONG after = qLONG before) /\
  (pos_positionSide pos <> "LONG" -> pos_positionSide pos <> "SHORT" ->
     after = before).
Proof.
  apply (current_book_last_position_wins
           [mk_position "BTC/USDT:USDT" 3 "long" "LONG"]
           (mk_position "BTC/USDT:USDT" 2 "short" "SHORT")).
  discriminate.
Defined.

(** ** The planner, instrument by instrument *)

Lemma step2_actions_of (cur : dict side_info) (tgt : dict Q) (s : string) (t : Q) :
  NoDup (keys tgt) -> In (s, t) tgt ->
  actions_of s (flat_map (adjust_symbol cur) tgt) = adjust_symbol cur (s, t).
Proof.
  unfold actions_of.
  induction tgt as [|[s' t'] tgt IH]; intros Hnd Hin; [contradiction|].
  inversion Hnd as [|? ? Hnotin Hnd']; subst.
  simpl. rewrite filter_app. destruct Hin as [Heq|Hin].
  - inversion Heq; subst. rewrite filter_all, filter_nil.
    + apply app_nil_r.
    + intros a Ha. cbv beta. apply step2_inv in Ha. destruct Ha as [_ Hk].
      apply String.eqb_neq. intro Hs. rewrite Hs in Hk. contradiction.
    + intros a Ha. cbv beta. apply adjust_symbol_inv in Ha. destruct Ha as (-> & _).
      apply String.eqb_refl.
  - rewrite filter_nil, IH; auto.
    intros a Ha. cbv beta. apply adjust_symbol_inv in Ha. destruct Ha as (-> & _).
    apply String.eqb_neq. intro Hs. apply Hnotin. rewrite Hs. eapply in_keys; eauto.
Qed.

Lemma actions_of_untargeted_step2 (cur : dict side_info) (tgt : dict Q) (s : string) :
  ~ In s (keys tgt) -> actions_of s (flat_map (adjust_symbol cur) tgt) = [].
Proof.
  intro Hn. apply filter_nil. intros a Ha. apply step2_inv in Ha.
  destruct Ha as [_ Hk]. apply String.eqb_neq. intro Hs. rewrite Hs in Hk. contradiction.
Qed.

Lemma actions_of_targeted_step1 (cur : dict side_info) (tgt : dict Q) (s : string) :
  In s (keys tgt) -> actions_of s (flat_map (clear_symbol tgt) cur) = [].
Proof.
  intro Hk. apply filter_nil. intros a Ha. apply step1_inv in Ha.
  destruct Ha as (_ & _ & Hn & _). apply String.eqb_neq. intro Hs.
  rewrite Hs in Hn. contradiction.
Qed.

Lemma actions_of_unheld_step1 (cur : dict side_info) (tgt : dict Q) (s : string) :
  ~ In s (keys cur) -> actions_of s (flat_map (clear_symbol tgt) cur) = [].
Proof.
  intro Hk. apply filter_nil. intros a Ha. apply step1_inv in Ha.
  destruct Ha as (_ & _ & _ & Hin). apply String.eqb_neq. intro Hs.
  rewrite Hs in Hin. contradiction.
Qed.

Lemma in_keys_inv {V : Type} (d : dict V) (k : string) :
  In k (keys d) -> exists v, In (k, v) d.
Proof.
  unfold keys. intro H. apply in_map_iff in H. destruct H as ([k' v] & Hk & Hin).
  simpl in Hk. subst k'. eauto.
Qed.

Lemma clear_symbol_length (tgt : dict Q) (entry : string * side_info) :
  (List.length (clear_symbol tgt entry) <= 2)%nat.
Proof.
  destruct entry as [s held]. unfold clear_symbol.
  destruct (dict_mem tgt s); [cbn [List.length]; lia|].
  repeat case_lt; cbn [app List.length]; lia.
Qed.

Lemma adjust_symbol_length (cur : dict side_info) (entry : string * Q) :
  (List.length (adjust_symbol cur entry) <= 2)%nat.
Proof.
  destruct entry as [s t]. unfold adjust_symbol.
  repeat case_lt; cbn [app List.length]; lia.
Qed.

(** X8. No instrument gets more than two actions in a plan. *)
Theorem at_most_two_actions_per_instrument
    (cur : dict side_info) (tgt : dict Q) (s : string) :
  NoDup (keys cur) -> NoDup (keys tgt) ->
  (List.length (actions_of s (trade_plan cur tgt)) <= 2)%nat.
Proof.
  intros Hc Ht. unfold trade_plan, actions_of. rewrite filter_app, length_app.
  fold (actions_of s (flat_map (clear_symbol tgt) cur)).
  fold (actions_of s (flat_map (adjust_symbol cur) tgt)).
  destruct (in_dec string_dec s (keys tgt)) as [Hin|Hnin].
  - rewrite actions_of_targeted_step1 by assumption.
    destruct (in_keys_inv _ _ Hin) as [t Hst].
    rewrite (step2_actions_of cur tgt s t Ht Hst).
    pose proof (adjust_symbol_length cur (s, t)). cbn [List.length]. lia.
  - rewrite actions_of_untargeted_step2 by assumption.
    destruct (in_dec string_dec s (keys cur)) as [Hk|Hk].
    + destruct (in_keys_inv _ _ Hk) as [held Hsh].
      rewrite (step1_actions_of cur tgt s held Hc Hsh).
      pose proof (clear_symbol_length tgt (s, held)). cbn [List.length]. lia.
    + rewrite actions_of_unheld_step1 by assumption. cbn [List.length]. lia.
Qed.

Lemma at_most_two_actions_per_instrument_witness :
  (List.length
     (actions_of "BTCUSDT"
        (trade_plan [("BTCUSDT", mk_side_info 3 2)] [("BTCUSDT", (-4)%Q)])) <= 2)%nat.
Proof.
  apply (at_most_two_actions_per_instrument
           [("BTCUSDT", mk_side_info 3 2)] [("BTCUSDT", -4)] "BTCUSDT").
  - repeat constructor. simpl. tauto.
  - repeat constructor. simpl. tauto.
Defined.

(** X9. A close is complete and reduces: it sells the whole long side or
    buys back the whole short side of the book's entry for its symbol. *)
Theorem close_sells_or_buys_whole_side
    (cur : dict side_info) (tgt : dict Q) (a : trade) :
  NoDup (keys cur) ->
  Forall (fun k => format_symbol_for_binance k = k) (keys cur) ->
  In a (trade_plan cur tgt) -> action a = close ->
  quantity a
  = side_qty (dict_get_default cur (format_symbol_for_binance (symbol a)) flat)
             (positionSide a) /\
  side a = match positionSide a with LONG => sell | SHORT => buy end.
Proof.
  intros Hnd Hfmt Ha Hclose. unfold trade_plan in Ha.
  apply in_app_or in Ha. destruct Ha as [Ha|Ha].
  - apply in_flat_map in Ha. destruct Ha as [[s held] [Hin Ha]].
    assert (Hs : format_symbol_for_binance s = s).
    { rewrite Forall_forall in Hfmt. apply Hfmt. eapply in_keys; eauto. }
    assert (Hget : dict_get_default cur s flat = held).
    { unfold dict_get_default. now rewrite (dict_in_get cur s held Hnd Hin). }
    unfold clear_symbol in Ha. destruct (dict_mem tgt s); [contradiction|].
    apply in_app_or in Ha.
    destruct Ha as [Ha|Ha]; case_lt_in Ha; cbn [In] in Ha; try contradiction;
      destruct Ha as [<-|[]]; cbn [symbol quantity positionSide side side_qty];
      rewrite Hs, Hget; split; reflexivity.
  - apply in_flat_map in Ha. destruct Ha as [[s t] [Hin Ha]].
    unfold adjust_symbol in Ha.
    set (held := dict_get_default cur (format_symbol_for_binance s) flat) in *.
    repeat case_lt_in Ha; cbn [app In] in Ha;
      repeat (destruct Ha as [<-|Ha];
              [cbn [action] in Hclose; try discriminate Hclose;
               cbn [symbol quantity positionSide side side_qty]; split; reflexivity|]);
      contradiction.
Qed.

Lemma close_sells_or_buys_whole_side_witness :
  quantity (mk_trade "ETHUSDT" sell 5 LONG close)
  = side_qty (dict_get_default [("ETHUSDT", mk_side_info 5 2)]
                (format_symbol_for_binance
                   (symbol (mk_trade "ETHUSDT" sell 5 LONG close))) flat)
             (positionSide (mk_trade "ETHUSDT" sell 5 LONG close)) /\
  side (mk_trade "ETHUSDT" sell 5 LONG close)
  = match positionSide (mk_trade "ETHUSDT" sell 5 LONG close) with
    | LONG => sell | SHORT => buy end.
Proof.
  apply (close_sells_or_buys_whole_side [("ETHUSDT", mk_side_info 5 2)] []).
  - repeat constructor. simpl. tauto.
  - repeat constructor.
  - simpl. tauto.
  - reflexivity.
Defined.

(** X10. An adjust moves its side by the difference the code computed: it
    is on the side of the target's sign, and what it adds to that side is
    the float difference between the magnitude of the target and the
    magnitude held. *)
Theorem adjust_moves_by_computed_difference
    (rnd : Q -> Q) (cur : dict side_info) (tgt : dict Q) (s : string) (t : Q) (a : trade) :
  NoDup (keys tgt) -> In (s, t) tgt ->
  In a (trade_plan_fl rnd cur tgt) -> symbol a = s -> action a = adjust ->
  positionSide a = (if Qlt_bool 0 t then LONG else SHORT) /\
  magnitude_change a
  == qty_diff_fl rnd (dict_get_default cur (format_symbol_for_binance s) flat) t.
Proof.
  intros Hnd Hin Ha Hs Hadj.
  pose proof (plan_fl_adjust_of_entry rnd cur tgt s t a Hnd Hin Ha Hs Hadj) as Ha'.
  clear Ha. unfold adjust_symbol_fl in Ha'. unfold qty_diff_fl.
  set (held := dict_get_default cur (format_symbol_for_binance s) flat) in *.
  destruct (Qlt_bool 0 t) eqn:E1;
    [apply Qlt_bool_iff in E1 | apply Qlt_bool_false_iff in E1].
  - repeat case_lt_in Ha'; cbn [app In] in Ha';
      repeat (destruct Ha' as [<-|Ha'];
              [cbn [action] in Hadj;
               first [ discriminate Hadj
                     | unfold magnitude_change;
                       cbn [positionSide side quantity];
                       split; [reflexivity | qabs_lra] ]|]);
      contradiction.
  - repeat case_lt_in Ha'; cbn [app In] in Ha';
      repeat (destruct Ha' as [<-|Ha'];
              [cbn [action] in Hadj;
               first [ discriminate Hadj
                     | unfold magnitude_change;
                       cbn [positionSide side quantity];
                       split; [reflexivity | qabs_lra] ]|]);
      contradiction.
Qed.

Lemma adjust_moves_by_computed_difference_witness :
  positionSide
    (mk_trade "BTCUSDT" buy
       (Qabs (round_binary64 (round_binary64 (17 # 10) - round_binary64 (2 # 5))))
       LONG adjust)
  = (if Qlt_bool 0 (round_binary64 (17 # 10)) then LONG else SHORT) /\
  magnitude_change
    (mk_trade "BTCUSDT" buy
       (Qabs (round_binary64 (round_binary64 (17 # 10) - round_binary64 (2 # 5))))
       LONG adjust)
  == qty_diff_fl round_binary64
       (dict_get_default [("BTCUSDT", mk_side_info (round_binary64 (2 # 5)) 0)]
          (format_symbol_for_binance "BTCUSDT") flat)
       (round_binary64 (17 # 10)).
Proof.
  apply (adjust_moves_by_computed_difference round_binary64
           [("BTCUSDT", mk_side_info (round_binary64 (2 # 5)) 0)]
           [("BTCUSDT", round_binary64 (17 # 10))] "BTCUSDT" (round_binary64 (17 # 10))).
  - repeat constructor. simpl. tauto.
  - left. reflexivity.
  - vm_compute. left. reflexivity.
  - reflexivity.
  - reflexivity.
Defined.

(** With 0.4 held and a target of 1.7 the adjust buys the float
    difference, which is not the exact one. *)
Example float_difference_is_rounded :
  trade_plan_fl round_binary64
    [("BTCUSDT", mk_side_info (round_binary64 (2 # 5)) 0)]
    [("BTCUSDT", round_binary64 (17 # 10))]
  = [mk_trade "BTCUSDT" buy (1463669878895411 # 1125899906842624) LONG adjust] /\
  ~ round_binary64 (2 # 5) + (1463669878895411 # 1125899906842624)
    == round_binary64 (17 # 10).
Proof. vm_compute. split; [reflexivity | discriminate]. Qed.

(** X11. A position within one unit of its target is left alone: when the
    target is not zero, the side of the target differs from it by at most
    1 and the other side holds nothing, the plan has no action for the
    instrument. *)
Theorem no_action_within_one_unit
    (cur : dict side_info) (tgt : dict Q) (s : string) (t : Q) :
  NoDup (keys tgt) -> In (s, t) tgt -> ~ t == 0 ->
  let held := dict_get_default cur (format_symbol_for_binance s) flat in
  Qabs (qty_diff held t) <= 1 ->
  side_qty held (if Qlt_bool 0 t then SHORT else LONG) <= 0 ->
  actions_of s (trade_plan cur tgt) = [].
Proof.
  intros Hnd Hin Hnz held Hdiff Hopp.
  unfold trade_plan, actions_of. rewrite filter_app.
  fold (actions_of s (flat_map (clear_symbol tgt) cur)).
  fold (actions_of s (flat_map (adjust_symbol cur) tgt)).
  rewrite actions_of_targeted_step1 by (eapply in_keys; eauto).
  rewrite (step2_actions_of cur tgt s t Hnd Hin). cbn [app].
  unfold adjust_symbol. fold held. unfold qty_diff in Hdiff.
  destruct (Qlt_bool 0 t) eqn:E1;
    [apply Qlt_bool_iff in E1 | apply Qlt_bool_false_iff in E1];
    cbn [side_qty] in Hopp.
  - repeat case_lt; try reflexivity; exfalso; lra.
  - assert (E2 : Qlt_bool t 0 = true) by (apply Qlt_bool_iff; lra).
    rewrite E2. repeat case_lt; try reflexivity; exfalso; lra.
Qed.

Lemma no_action_within_one_unit_witness :
  actions_of "BTCUSDT"
    (trade_plan [("BTCUSDT", mk_side_info (19 # 2) 0)] [("BTCUSDT", 10)]) = [].
Proof.
  apply (no_action_within_one_unit
           [("BTCUSDT", mk_side_info (19 # 2) 0)] [("BTCUSDT", 10)] "BTCUSDT" 10).
  - repeat constructor. simpl. tauto.
  - simpl. tauto.
  - discriminate.
  - vm_compute. discriminate.
  - vm_compute. discriminate.
Defined.

(** ** Orders *)

Section OrderFacts.

Context {W : Type} (ex : Exchange W).

Lemma resolve_params_ok (side : order_side) (params : option order_params)
    (current_position : option position) :
  resolved_params side params
    match p_positionSide match params with Some p => p | None => no_params end with
    | Some _ => match params with Some p => p | None => no_params end
    | None =>
        {| p_positionSide := Some (infer_positionSide side current_position);
           p_reduceOnly :=
             p_reduceOnly match params with Some p => p | None => no_params end |}
    end.
Proof.
  unfold resolved_params. cbv zeta.
  destruct (p_positionSide match params with Some p => p | None => no_params end) eqn:E.
  - rewrite E. split; reflexivity.
  - cbn [p_positionSide p_reduceOnly]. split; [reflexivity | eauto].
Qed.

(** What [place_order] sends: at most two orders, each for the formatted
    symbol and the side asked, sized by [sized_quantity], with the position
    side resolved, and not below a minimum the market reported. *)
Lemma place_order_orders (sym : string) (side : order_side) (q : Q)
    (params : option order_params) (s : state W) :
  wp (place_order ex sym side q params)
     (fun s' r =>
        exists tail,
          trace s' = trace s ++ tail /\
          Forall (fun ev =>
                    match ev with
                    | ev_create_order sy sd amount sent =>
                        sy = format_symbol_for_binance sym /\ sd = side /\
                        (exists p, sized_quantity params q p = Some amount) /\
                        resolved_params side params sent /\
                        exists w w' m,
                          market ex sy w = (w', inr (Some m)) /\ m <= inject_Z amount
                    | _ => True
                    end) tail /\
          (List.length (filter is_order tail) <= 2)%nat /\
          (forall o, r = Returned (Some o) ->
                     (1 <= List.length (filter is_order tail))%nat)) s.
Proof.
  unfold place_order. cbv zeta. wp_run.
  all: eexists; split; [trace_tail|].
  all: split; [|split; [cbn [filter is_order List.length]; lia
                       | intros o' Ho'; try discriminate Ho';
                         cbn [filter is_order List.length]; lia]].
  all: repeat apply Forall_cons; try apply Forall_nil; try exact I.
  all: subst; repeat split; try apply resolve_params_ok.
  all: try (eexists; unfold sized_quantity;
            match goal with
            | E : pad_quantity _ _ _ = Some _ |- _ => rewrite E
            end; reflexivity).
  all: do 3 eexists; split; [eassumption | apply Qlt_bool_false_iff; assumption].
Qed.

(** [find] returns the first element that passes the test. *)
Lemma find_first {A : Type} (f : A -> bool) (l : list A) (x : A) :
  find f l = Some x ->
  exists before after,
    l = before ++ x :: after /\ f x = true /\ Forall (fun y => f y = false) before.
Proof.
  induction l as [|y l IH]; cbn [find]; [discriminate|].
  destruct (f y) eqn:E.
  - intro H. inversion H; subst y. exists [], l. repeat split; [assumption | constructor].
  - intro H. destruct (IH H) as (before & after & -> & Hx & Hb).
    exists (y :: before), after. repeat split; [assumption | constructor; assumption].
Qed.

Lemma find_first_inv {A : Type} (f : A -> bool) (before after : list A) (x : A) :
  f x = true -> Forall (fun y => f y = false) before ->
  find f (before ++ x :: after) = Some x.
Proof.
  intros Hx Hb. induction Hb as [|y before Hy _ IH]; cbn [app find].
  - rewrite Hx. reflexivity.
  - rewrite Hy. exact IH.
Qed.

Lemma open_position_test (formatted_symbol : string) (pos : position) :
  String.eqb (pos_symbol pos) formatted_symbol && Qlt_bool 0 (Qabs (pos_contracts pos))
  = true <->
  pos_symbol pos = formatted_symbol /\ ~ pos_contracts pos == 0.
Proof.
  rewrite andb_true_iff, String.eqb_eq, Qlt_bool_iff, Qabs_pos_iff. reflexivity.
Qed.

(** [find_current_position] finds the first open position of the symbol,
    and nothing when there is none. *)
Lemma find_current_position_spec (formatted_symbol : string) (positions : list position)
    (pos : position) :
  find_current_position formatted_symbol positions = Some pos <->
  first_open_position formatted_symbol positions pos.
Proof.
  unfold find_current_position, first_open_position. split.
  - intro H. apply find_first in H. destruct H as (before & after & Hl & Hx & Hb).
    exists before, after. apply open_position_test in Hx.
    split; [assumption|]. split; [tauto|]. split; [tauto|].
    eapply Forall_impl; [|exact Hb]. intros other Ho. cbv beta in Ho.
    destruct (String.eqb_spec (pos_symbol other) formatted_symbol) as [Hs|Hs];
      [right | left; assumption].
    cbn [andb] in Ho. apply Qlt_bool_false_iff in Ho.
    pose proof (Qabs_nonneg (pos_contracts other)) as Hn.
    assert (Ha : Qabs (pos_contracts other) == 0) by lra.
    destruct (Qabs_cases (pos_contracts other)) as [[? ?]|[? ?]]; lra.
  - intros (before & after & -> & Hs & Hc & Hb).
    apply find_first_inv.
    + apply open_position_test. tauto.
    + eapply Forall_impl; [|exact Hb]. intros other Ho. cbv beta in *.
      destruct (String.eqb (pos_symbol other) formatted_symbol
                && Qlt_bool 0 (Qabs (pos_contracts other))) eqn:E; [|reflexivity].
      apply open_position_test in E. tauto.
Qed.

(** [infer_positionSide] on the position found follows the rule of lines
    252-262. *)
Lemma infer_positionSide_spec (side : order_side) (formatted_symbol : string)
    (positions : list position) :
  inferred_side side formatted_symbol positions
    (infer_positionSide side (find_current_position formatted_symbol positions)).
Proof.
  unfold inferred_side, infer_positionSide.
  destruct (find_current_position formatted_symbol positions) as [pos|] eqn:E.
  - pose proof E as Hfirst. apply find_current_position_spec in Hfirst.
    destruct side.
    + destruct (String.eqb_spec (pos_side pos) "short") as [Hs|Hs]; split.
      * intros _. exists pos. auto.
      * reflexivity.
      * discriminate.
      * intros (pos' & Hfirst' & Hs'). apply find_current_position_spec in Hfirst'.
        rewrite E in Hfirst'. inversion Hfirst'; subst pos'. contradiction.
    + destruct (String.eqb_spec (pos_side pos) "long") as [Hs|Hs]; split.
      * intros _. exists pos. auto.
      * reflexivity.
      * discriminate.
      * intros (pos' & Hfirst' & Hs'). apply find_current_position_spec in Hfirst'.
        rewrite E in Hfirst'. inversion Hfirst'; subst pos'. contradiction.
  - destruct side; split; try discriminate.
    + intros (pos' & Hfirst' & _). apply find_current_position_spec in Hfirst'.
      rewrite E in Hfirst'. discriminate.
    + intros (pos' & Hfirst' & _). apply find_current_position_spec in Hfirst'.
      rewrite E in Hfirst'. discriminate.
Qed.

(** X14. Every order [place_order] sends names a position side.  It is the
    one the caller gave; when the caller gave none it follows the positions
    the exchange returned for the symbol: a buy goes to SHORT exactly when
    the first open position of the symbol is short, and to LONG otherwise;
    a sell goes to LONG exactly when that position is long, and to SHORT
    otherwise.  [reduceOnly] goes out as it came in. *)
Theorem place_order_position_side_follows_positions (sym : string) (side : order_side)
    (q : Q) (params : option order_params) (s : state W) :
  exists tail,
    trace (fst (place_order ex sym side q params s)) = trace s ++ tail /\
    Forall (fun ev =>
              match ev with
              | ev_create_order sy _ _ sent =>
                  let given := match params with Some p => p | None => no_params end in
                  sy = format_symbol_for_binance sym /\
                  p_reduceOnly sent = p_reduceOnly given /\
                  match p_positionSide given with
                  | Some ps => p_positionSide sent = Some ps
                  | None =>
                      exists ps w w' positions,
                        p_positionSide sent = Some ps /\
                        fetch_positions ex (Some sy) w = (w', inr positions) /\
                        inferred_side side sy positions ps
                  end
              | _ => True
              end) tail.
Proof.
  assert (H : wp (place_order ex sym side q params)
                 (fun s' _ => exists tail,
                      trace s' = trace s ++ tail /\
                      Forall (fun ev =>
                        match ev with
                        | ev_create_order sy _ _ sent =>
                            let given := match params with Some p => p | None => no_params end in
                            sy = format_symbol_for_binance sym /\
                            p_reduceOnly sent = p_reduceOnly given /\
                            match p_positionSide given with
                            | Some ps => p_positionSide sent = Some ps
                            | None =>
                                exists ps w w' positions,
                                  p_positionSide sent = Some ps /\
                                  fetch_positions ex (Some sy) w = (w', inr positions) /\
                                  inferred_side side sy positions ps
                            end
                        | _ => True
                        end) tail) s).
  { unfold place_order. cbv zeta. wp_run.
    all: eexists; split; [trace_tail|].
    all: repeat apply Forall_cons; try apply Forall_nil; try exact I.
    all: destruct (p_positionSide match params with Some p => p | None => no_params end)
           as [ps|] eqn:Eps; cbn [p_reduceOnly p_positionSide];
      (split; [reflexivity|]); (split; [reflexivity|]); try assumption; try reflexivity.
    all: do 4 eexists; split; [reflexivity|]; split;
      [eassumption | apply infer_positionSide_spec]. }
  exact H.
Qed.

(** X15. No order goes out below the minimum amount: the amount of every
    order [place_order] sends is at least a minimum that the market of its
    symbol reported. *)
Theorem place_order_respects_minimum_amount (sym : string) (side : order_side)
    (q : Q) (params : option order_params) (s : state W) :
  exists tail,
    trace (fst (place_order ex sym side q params s)) = trace s ++ tail /\
    Forall (fun ev =>
              match ev with
              | ev_create_order sy _ amount _ =>
                  exists w w' m,
                    market ex sy w = (w', inr (Some m)) /\ m <= inject_Z amount
              | _ => True
              end) tail.
Proof.
  pose proof (place_order_orders sym side q params s) as H. unfold wp in H.
  destruct H as (tail & Htr & Hev & _). exists tail. split; [assumption|].
  eapply Forall_impl; [|exact Hev].
  intros [] Hord; try exact I. tauto.
Qed.


(** X17. A leverage that cannot be set does not stop the order: every
    leg asks for leverage 1 first and goes on to the ticker of its symbol,
    whatever the exchange answers. *)
Theorem leverage_failure_is_not_fatal (t : trade) (s : state W) :
  exists rest,
    trace (fst (execute_trade ex t s))
    = trace s ++ ev_set_leverage (format_symbol_for_binance (symbol t)) 1 :: rest /\
    In (ev_fetch_ticker (format_symbol_for_binance (symbol t))) rest.
Proof.
  assert (H : wp (execute_trade ex t)
                 (fun s' _ => exists rest,
                      trace s'
                      = trace s ++ ev_set_leverage (format_symbol_for_binance (symbol t)) 1
                                   :: rest /\
                      In (ev_fetch_ticker (format_symbol_for_binance (symbol t))) rest) s).
  { unfold execute_trade, set_leverage, place_order. cbv zeta. wp_run.
    all: eexists; split; [trace_tail | cbn [In]; tauto]. }
  exact H.
Qed.

(** The orders of one leg. *)
Lemma execute_trade_orders (t : trade) (s : state W) :
  wp (execute_trade ex t)
     (fun s' _ => exists tail,
          trace s' = trace s ++ tail /\ Forall (order_of_trade t) tail) s.
Proof.
  unfold execute_trade, set_leverage. cbv zeta. wp_run.
  all: (eapply wp_mono; [apply place_order_orders|]).
  all: cbn [trace world]; intros s' r (tail & Htr & Hev & _).
  all: assert (Hev' : Forall (order_of_trade t) tail)
    by (eapply Forall_impl; [|exact Hev];
        intros [] Hord; try exact I;
        destruct Hord as (-> & -> & Hsz & [Hro Hps] & _);
        cbn in Hro, Hps; cbn [order_of_trade];
        repeat split; try assumption;
        match goal with
        | |- ?p = _ => destruct p; cbn in Hro, Hps; congruence
        end).
  all: destruct r as [result|err|]; cbv beta iota; try apply wp_ret.
  all: eexists; (split; [rewrite Htr, <- ?app_assoc; reflexivity|]).
  all: repeat (apply Forall_app; split); try assumption; repeat constructor.
Qed.

(** X18. Every order of the loop comes from a trade of the plan: it
    carries the formatted symbol of the trade, its side, its position side
    and no [reduceOnly], and an amount sized from its quantity. *)
Theorem orders_come_from_the_plan (plan : list trade) (s : state W) :
  exists tail,
    trace (fst (execute_plan ex plan s)) = trace s ++ tail /\
    Forall (fun ev => is_order ev = true ->
                      exists t, In t plan /\ order_of_trade t ev) tail.
Proof.
  assert (H : forall s, wp (execute_plan ex plan)
                 (fun s' _ => exists tail,
                      trace s' = trace s ++ tail /\
                      Forall (fun ev => is_order ev = true ->
                                        exists t, In t plan /\ order_of_trade t ev) tail) s).
  { clear s. unfold execute_plan.
    induction plan as [|t plan IH]; intro s; cbn [for_each].
    - apply wp_ret. exists []. split; [symmetry; apply app_nil_r | constructor].
    - apply wp_bind. eapply wp_mono; [apply execute_trade_orders|].
      intros s1 r1 (tail1 & Htr1 & Hev1).
      assert (Hev1' : Forall (fun ev => is_order ev = true ->
                         exists t0, In t0 (t :: plan) /\ order_of_trade t0 ev) tail1).
      { eapply Forall_impl; [|exact Hev1]. intros ev Hev _. exists t. split; [now left | assumption]. }
      destruct r1 as [b|err|]; cbv beta iota; [|exists tail1; auto|exists tail1; auto].
      apply wp_bind. eapply wp_mono; [apply IH|].
      intros s2 r2 (tail2 & Htr2 & Hev2).
      assert (Hboth : exists tail,
                 trace s2 = trace s ++ tail /\
                 Forall (fun ev => is_order ev = true ->
                           exists t0, In t0 (t :: plan) /\ order_of_trade t0 ev) tail).
      { exists (tail1 ++ tail2). split; [rewrite Htr2, Htr1, app_assoc; reflexivity|].
        apply Forall_app. split; [assumption|].
        eapply Forall_impl; [|exact Hev2]. intros ev Hev Hord.
        destruct (Hev Hord) as (t0 & Hin & Ht0). exists t0. split; [now right | assumption]. }
      destruct r2 as [bs|err|]; cbv beta iota; [apply wp_ret|..]; exact Hboth. }
  apply H.
Qed.

End OrderFacts.

(** ** The entry points *)

Section EntryPoints.

Context {W : Type} (ex : Exchange W).

(** [execute_trades]: it does not raise; with positive prices it returns;
    and what it returns reports the plan made from the positions read. *)
Lemma execute_trades_spec (target_positions : dict Q) (s : state W) :
  wp (execute_trades ex target_positions)
     (fun s' r =>
        (forall e, r <> Raised e) /\
        (positive_prices ex -> r <> Diverged) /\
        (forall w positions report,
            fetch_positions ex None (world s) = (w, inr positions) ->
            r = Returned report ->
            map fst report
            = trade_plan (current_positions_of positions) target_positions) /\
        (forall w e, fetch_positions ex None (world s) = (w, inl e) ->
            r = Returned [] /\
            s' = {| world := w;
                    trace := trace s ++ [ev_fetch_positions None; ev_log_execute_failed] |}) /\
        (exists tail, trace s' = trace s ++ ev_fetch_positions None :: tail)) s.
Proof.
  unfold execute_trades. apply wp_try_except, wp_bind, wp_call.
  intros w r Ecall. destruct r as [e|positions]; cbv beta iota.
  - apply wp_bind, wp_log, wp_ret.
    split; [intros; discriminate|]. split; [intros; discriminate|].
    split; [intros w0 p0 r0 H0; rewrite Ecall in H0; discriminate|].
    split; [|eexists; trace_tail].
    intros w0 e0 H0. rewrite Ecall in H0. inversion H0; subst.
    split; [reflexivity|].
    cbn [world trace]. rewrite <- app_assoc. reflexivity.
  - cbv zeta. eapply wp_mono; [apply execute_plan_spec|].
    intros s' r ((tail & Htr & Hrep) & Hraise & Hdiv).
    cbn [trace world] in Htr.
    assert (Htail : exists tail0, trace s' = trace s ++ ev_fetch_positions None :: tail0).
    { exists tail. rewrite Htr, <- app_assoc. reflexivity. }
    destruct r as [report|err|]; cbv beta iota.
    + split; [intros; discriminate|]. split; [intros; discriminate|].
      split; [|split; [intros w0 e0 H0; rewrite Ecall in H0; discriminate
                      | assumption]].
      intros w0 positions0 report0 H0 Hr. rewrite Ecall in H0.
      inversion H0; subst. inversion Hr; subst.
      apply (Hrep report0 eq_refl).
    + exfalso. eapply Hraise. reflexivity.
    + split; [intros; discriminate|]. split; [assumption|].
      split; [intros; discriminate|].
      split; [|assumption].
      intros w0 e0 H0. rewrite Ecall in H0. discriminate.
Qed.

(** X20. When the positions cannot be read, [execute_trades] plans and
    orders nothing: it logs the failure and returns. *)
Theorem execute_trades_without_positions (target_positions : dict Q) (s : state W)
    (w : W) (e : exn) :
  fetch_positions ex None (world s) = (w, inl e) ->
  execute_trades ex target_positions s
  = ({| world := w;
        trace := trace s ++ [ev_fetch_positions None; ev_log_execute_failed] |},
     Returned []).
Proof.
  intro Hfetch.
  destruct (wp_elim _ _ _ (execute_trades_spec target_positions s))
    as (s' & r & Hrun & _ & _ & _ & Hfail & _).
  destruct (Hfail w e Hfetch) as [-> ->]. exact Hrun.
Qed.

(** One iteration of [get_current_positions] keeps a dictionary of
    quantities other than zero. *)
Lemma in_dict_set {V : Type} (d : dict V) (k k0 : string) (v v0 : V) :
  In (k, v) (dict_set d k0 v0) -> (k = k0 /\ v = v0) \/ In (k, v) d.
Proof.
  induction d as [|[k' v'] d IH]; simpl.
  - intros [H|[]]. inversion H. auto.
  - destruct (String.eqb_spec k0 k') as [->|Hne]; simpl.
    + intros [H|H]; [inversion H; auto | auto].
    + intros [H|H]; [auto|]. destruct (IH H); auto.
Qed.

Lemma keys_dict_set_nodup {V : Type} (d : dict V) (k : string) (v : V) :
  NoDup (keys d) -> NoDup (keys (dict_set d k v)).
Proof.
  intro Hd. rewrite keys_dict_set. destruct (dict_mem d k) eqn:E; [assumption|].
  apply dict_mem_false_iff in E.
  apply NoDup_app; [assumption | repeat constructor; simpl; tauto |].
  intros x Hx [<-|[]]. contradiction.
Qed.

Lemma note_position_inv (positions : list position) :
  forall d : dict Q,
  NoDup (keys d) -> Forall (fun kv => ~ snd kv == 0) d ->
  NoDup (keys (fold_left note_position positions d)) /\
  Forall (fun kv => ~ snd kv == 0) (fold_left note_position positions d).
Proof.
  induction positions as [|pos l IH]; intros d Hnd Hnz; simpl; [auto|].
  apply IH.
  - unfold note_position. destruct (Qlt_bool 0 (Qabs (pos_contracts pos))); [|assumption].
    apply keys_dict_set_nodup, Hnd.
  - unfold note_position.
    destruct (Qlt_bool 0 (Qabs (pos_contracts pos))) eqn:E; [|assumption].
    apply Qlt_bool_iff in E.
    apply Forall_forall. intros [k v] Hin. apply in_dict_set in Hin.
    destruct Hin as [[_ ->]|Hin].
    + cbn [snd]. destruct (String.eqb (pos_side pos) "short"); qabs_lra.
    + rewrite Forall_forall in Hnz. apply (Hnz _ Hin).
Qed.

(** X21. [get_current_positions] always returns: a dictionary in which no
    quantity is zero, and the empty one when the positions cannot be
    read. *)
Theorem current_positions_nonzero_or_empty (s : state W) :
  exists s' d,
    get_current_positions ex s = (s', Returned d) /\
    NoDup (keys d) /\
    Forall (fun kv => ~ snd kv == 0) d /\
    (forall w e, fetch_positions ex None (world s) = (w, inl e) -> d = []).
Proof.
  assert (H : wp (get_current_positions ex)
                 (fun _ r => exists d,
                      r = Returned d /\ NoDup (keys d) /\
                      Forall (fun kv => ~ snd kv == 0) d /\
                      (forall w e, fetch_positions ex None (world s) = (w, inl e) ->
                                   d = [])) s).
  { unfold get_current_positions. wp_run.
    - exists []. repeat split; [constructor | constructor].
    - eexists. split; [reflexivity|].
      destruct (note_position_inv l [] (NoDup_nil _) (Forall_nil _)) as [Hnd Hnz].
      repeat split; try assumption.
      intros w0 e0 H0. rewrite Ecall in H0. discriminate. }
  apply wp_elim in H. destruct H as (s' & r & Hrun & d & -> & Hd).
  exists s', d. tauto.
Qed.

(** X22. No entry point of the executor raises: each catches what the
    exchange raises. *)
Theorem executor_entry_points_never_raise (reader : signal_source)
    (target_positions : dict Q) (sym : string) (side : order_side) (q : Q)
    (params : option order_params) (leverage : Z) (s : state W) (e : exn) :
  snd (get_account_balance ex s) <> Raised e /\
  snd (get_current_positions ex s) <> Raised e /\
  snd (place_order ex sym side q params s) <> Raised e /\
  snd (set_leverage ex sym leverage s) <> Raised e /\
  snd (execute_trades ex target_positions s) <> Raised e /\
  snd (run_daily_trade reader ex s) <> Raised e.
Proof.
  repeat split.
  - assert (H : wp (get_account_balance ex) (fun _ r => r <> Raised e) s)
      by (unfold get_account_balance; wp_run; discriminate).
    exact H.
  - assert (H : wp (get_current_positions ex) (fun _ r => r <> Raised e) s)
      by (unfold get_current_positions; wp_run; discriminate).
    exact H.
  - pose proof (place_order_spec ex sym side q params s) as H. unfold wp in H.
    destruct H as (_ & H & _). apply H.
  - assert (H : wp (set_leverage ex sym leverage) (fun _ r => r <> Raised e) s)
      by (unfold set_leverage; cbv zeta; wp_run; discriminate).
    exact H.
  - pose proof (execute_trades_spec target_positions s) as H. unfold wp in H.
    destruct H as (H & _). apply H.
  - unfold run_daily_trade, try_except.
    match goal with
    | |- snd (match ?body with _ => _ end) <> _ =>
        destruct body as [s' [ended|err|]]
    end; cbn; discriminate.
Qed.

(** X23. Without a signal the exchange is left alone: when there is no
    log file, or the newest one holds no position, the cycle ends with one
    log line and no call to the exchange. *)
Theorem cycle_without_signal_leaves_exchange_alone
    (reader : signal_source) (s : state W) :
  match get_latest_log_file reader with
  | None => True
  | Some latest_log => fst (parse_log_file reader latest_log) = []
  end ->
  exists c,
    run_daily_trade reader ex s
    = ({| world := world s; trace := trace s ++ [ev_log_no_signal] |}, Returned c) /\
    c <> cycle_completed.
Proof.
  intro H. unfold run_daily_trade, try_except.
  destruct (get_latest_log_file reader) as [latest_log|].
  - destruct (parse_log_file reader latest_log) as [tgt date].
    cbn [fst] in H. subst tgt. exists no_signal. split; [reflexivity | discriminate].
  - exists no_log_file. split; [reflexivity | discriminate].
Qed.

(** X24. A balance that is reported and not positive, or reported
    without the free USDT entry, ends the cycle like a balance that cannot
    be fetched: without raising, and before any position is read, any
    leverage set or any order created. *)
Theorem balance_not_positive_aborts_cycle (reader : signal_source) (s : state W)
    (w' : W) (balance : option Q) :
  fetch_balance ex (fst (set_hedge_mode ex (world s))) = (w', inr balance) ->
  match balance with Some b => b <= 0 | None => True end ->
  exists s' c tail,
    run_daily_trade reader ex s = (s', Returned c) /\
    c <> cycle_completed /\
    trace s' = trace s ++ tail /\
    Forall (fun ev => ~ trading_event ev) tail.
Proof.
  intros Hbal Hle.
  assert (H : wp (run_daily_trade reader ex)
                 (fun s' r => exists c tail,
                      r = Returned c /\ c <> cycle_completed /\
                      trace s' = trace s ++ tail /\
                      Forall (fun ev => ~ trading_event ev) tail) s).
  { unfold run_daily_trade, init_executor, get_account_balance.
    wp_run.
    all: try match goal with
             | Hh : set_hedge_mode _ _ = _,
               Hb : fetch_balance _ _ = (_, _) |- _ =>
                 rewrite Hh in Hbal; cbn [fst] in Hbal;
                 rewrite Hbal in Hb; inversion Hb; subst
             end.
    all: try discriminate.
    all: try match goal with
             | Hq : Qle_bool 0 0 = false |- _ => discriminate Hq
             end.
    all: try match goal with
             | Hq : Qle_bool ?x 0 = false |- _ =>
                 exfalso; apply Qle_bool_iff in Hle; congruence
             end.
    all: do 2 eexists; split; [reflexivity|]; split; [discriminate|];
      split; [trace_tail|]; repeat constructor; exact (fun f => f). }
  apply wp_elim in H. destruct H as (s' & r & Hrun & c & tail & -> & Hc & Htr & Hq).
  exists s', c, tail. auto.
Qed.

End EntryPoints.

(** ** The age of the signal *)

Section TraceBlind.

Context {W : Type}.

Lemma trace_blind_ret {A : Type} (a : A) : trace_blind (@ret W A a).
Proof. intros w t. unfold ret. cbn. rewrite app_nil_r. reflexivity. Qed.

Lemma trace_blind_raise {A : Type} (e : exn) : trace_blind (@raise W A e).
Proof. intros w t. unfold raise. cbn. rewrite app_nil_r. reflexivity. Qed.

Lemma trace_blind_log (ev : event) : trace_blind (@log W ev).
Proof. intros w t. reflexivity. Qed.

Lemma trace_blind_call {A : Type} (ev : event) (f : W -> W * (exn + A)) :
  trace_blind (call ev f).
Proof. intros w t. unfold call. cbn. destruct (f w) as [w' r]. reflexivity. Qed.

Lemma trace_blind_number (v : option Q) : trace_blind (@number W v).
Proof. destruct v; [apply trace_blind_ret | apply trace_blind_raise]. Qed.

Lemma trace_blind_subscript (v : option Q) : trace_blind (@subscript W v).
Proof. destruct v; [apply trace_blind_ret | apply trace_blind_raise]. Qed.

Lemma trace_blind_loop_result {A : Type} (r : option A) : trace_blind (@loop_result W A r).
Proof.
  destruct r; [apply trace_blind_ret|].
  intros w t. cbn. rewrite app_nil_r. reflexivity.
Qed.

Lemma trace_blind_bind {A B : Type} (c : M W A) (k : A -> M W B) :
  trace_blind c -> (forall a, trace_blind (k a)) -> trace_blind (bind c k).
Proof.
  intros Hc Hk w t. unfold bind. rewrite (Hc w t).
  destruct (c {| world := w; trace := [] |}) as [[w1 t1] [a|e|]]; cbn [fst snd world trace].
  - rewrite (Hk a w1 (t ++ t1)), (Hk a w1 t1).
    cbn [fst snd world trace]. rewrite app_assoc. reflexivity.
  - reflexivity.
  - reflexivity.
Qed.

Lemma trace_blind_try_except {A : Type} (body : M W A) (handler : exn -> M W A) :
  trace_blind body -> (forall e, trace_blind (handler e)) ->
  trace_blind (try_except body handler).
Proof.
  intros Hc Hk w t. unfold try_except. rewrite (Hc w t).
  destruct (body {| world := w; trace := [] |}) as [[w1 t1] [a|e|]];
    cbn [fst snd world trace].
  - reflexivity.
  - rewrite (Hk e w1 (t ++ t1)), (Hk e w1 t1).
    cbn [fst snd world trace]. rewrite app_assoc. reflexivity.
  - reflexivity.
Qed.

Lemma trace_blind_for_each {A B : Type} (body : A -> M W B) (l : list A) :
  (forall a, trace_blind (body a)) -> trace_blind (for_each body l).
Proof.
  intro Hb. induction l as [|x l IH]; cbn [for_each].
  - apply trace_blind_ret.
  - apply trace_blind_bind; [apply Hb|]. intro b.
    apply trace_blind_bind; [apply IH|]. intro bs. apply trace_blind_ret.
Qed.

End TraceBlind.

Ltac trace_blind_step :=
  lazymatch goal with
  | |- trace_blind (bind _ _) => apply trace_blind_bind; [|intro]
  | |- trace_blind (try_except _ _) => apply trace_blind_try_except; [|intro]
  | |- trace_blind (ret _) => apply trace_blind_ret
  | |- trace_blind (raise _) => apply trace_blind_raise
  | |- trace_blind (log _) => apply trace_blind_log
  | |- trace_blind (call _ _) => apply trace_blind_call
  | |- trace_blind (number _) => apply trace_blind_number
  | |- trace_blind (subscript _) => apply trace_blind_subscript
  | |- trace_blind (loop_result _) => apply trace_blind_loop_result
  | |- trace_blind (for_each _ _) => apply trace_blind_for_each; intro
  | |- trace_blind (if ?b then _ else _) => destruct b
  | |- trace_blind (match ?x with _ => _ end) => destruct x
  end.

Section CycleTrace.

Context {W : Type} (ex : Exchange W).

Lemma trace_blind_place_order (sym : string) (side : order_side) (q : Q)
    (params : option order_params) :
  trace_blind (place_order ex sym side q params).
Proof. unfold place_order. cbv zeta. repeat trace_blind_step. Qed.

Lemma trace_blind_execute_trades (target_positions : dict Q) :
  trace_blind (execute_trades ex target_positions).
Proof.
  unfold execute_trades, execute_plan. cbv zeta. repeat trace_blind_step.
  unfold execute_trade, set_leverage. cbv zeta. repeat trace_blind_step.
  apply trace_blind_place_order.
Qed.

(** What the cycle does once the age of the signal is known (lines
    631-653). *)
Lemma trace_blind_cycle (target_positions : dict Q) :
  trace_blind
    (try_except
       (init_executor ex ;;;
        balance <- get_account_balance ex ;;
        if Qle_bool balance 0 then
          log ev_log_insufficient_balance ;;;
          ret insufficient_balance
        else
          execute_trades ex target_positions ;;;
          get_current_positions ex ;;;
          ret cycle_completed)
       (fun e => log ev_log_cycle_failed ;;; ret cycle_failed)).
Proof.
  unfold init_executor, get_account_balance, get_current_positions.
  repeat first [ apply trace_blind_execute_trades | trace_blind_step ].
Qed.

(** X25. A stale signal only adds its warning: whatever the age of the
    signal, the cycle ends in the same world with the same outcome after
    the same calls and log lines, which begin with the hedge mode and the
    balance; an age above three days puts the warning before them and
    changes nothing else. *)
Theorem stale_signal_only_adds_warning (reader : signal_source) (s : state W)
    (latest_log backtest_date : string) (target_positions : dict Q) :
  get_latest_log_file reader = Some latest_log ->
  parse_log_file reader latest_log = (target_positions, backtest_date) ->
  target_positions <> [] ->
  exists (w : W) (rest : list event) (r : outcome cycle_end),
    forall (days : string -> option Z) (days_diff : Z),
      days backtest_date = Some days_diff ->
      run_daily_trade
        (mk_signal_source (get_latest_log_file reader) (parse_log_file reader) days) ex s
      = ({| world := w;
            trace := trace s
                     ++ (if (3 <? days_diff)%Z then [ev_log_stale_signal] else [])
                     ++ ev_set_hedge_mode :: ev_fetch_balance :: rest |},
         r).
Proof.
  intros Hlog Hparse Hne.
  destruct target_positions as [|entry others]; [contradiction|].
  set (cycle := try_except
       (init_executor ex ;;;
        balance <- get_account_balance ex ;;
        if Qle_bool balance 0 then
          log ev_log_insufficient_balance ;;;
          ret insufficient_balance
        else
          execute_trades ex (entry :: others) ;;;
          get_current_positions ex ;;;
          ret cycle_completed)
       (fun e => log ev_log_cycle_failed ;;; ret cycle_failed)).
  pose proof (trace_blind_cycle (entry :: others)) as Hblind. fold cycle in Hblind.
  set (s0 := {| world := world s; trace := [] |}).
  assert (Hhead : exists rest,
             trace (fst (cycle s0))
             = trace s0 ++ ev_set_hedge_mode :: ev_fetch_balance :: rest).
  { assert (H : wp cycle (fun s' _ => exists rest,
                     trace s' = trace s0 ++ ev_set_hedge_mode :: ev_fetch_balance :: rest)
                   s0).
    { unfold cycle, init_executor, get_account_balance. wp_run.
      all: try (eexists; trace_tail).
      all: (eapply wp_mono; [apply execute_trades_spec|]).
      all: cbn [trace world]; intros s2 r (_ & _ & _ & _ & (tail & Htr)).
      all: destruct r as [report|err|]; cbv beta iota.
      all: try (unfold get_current_positions; wp_run).
      all: cbn [trace world]; rewrite Htr, <- ?app_assoc; cbn [app];
        eexists; reflexivity. }
    exact H. }
  destruct Hhead as [rest Hrest]. cbn [s0 trace app] in Hrest.
  exists (world (fst (cycle s0))), rest, (snd (cycle s0)).
  intros days days_diff Hdays.
  assert (Hrun : run_daily_trade
                   (mk_signal_source (get_latest_log_file reader)
                      (parse_log_file reader) days) ex s
                 = cycle {| world := world s;
                            trace := trace s
                                     ++ (if (3 <? days_diff)%Z
                                         then [ev_log_stale_signal] else []) |}).
  { unfold run_daily_trade.
    cbn [get_latest_log_file parse_log_file days_since].
    rewrite Hlog, Hparse, Hdays.
    unfold cycle.
    change (try_except (bind (ret days_diff) ?k) ?h s) with (try_except (k days_diff) h s).
    cbv beta.
    destruct (3 <? days_diff)%Z.
    - reflexivity.
    - rewrite app_nil_r. destruct s. reflexivity. }
  rewrite Hrun, Hblind. fold s0. rewrite Hrest, <- app_assoc. reflexivity.
Qed.

End CycleTrace.

(** ** Runs of the entry points on the simulated exchange *)

Lemma execute_trades_without_positions_witness :
  execute_trades offline_exchange [("BTCUSDT", 20)] fresh
  = ({| world := O;
        trace := trace fresh ++ [ev_fetch_positions None; ev_log_execute_failed] |},
     Returned []).
Proof.
  apply (execute_trades_without_positions offline_exchange [("BTCUSDT", 20)] fresh
           O "NetworkError").
  reflexivity.
Defined.

Lemma cycle_without_signal_leaves_exchange_alone_witness :
  exists c,
    run_daily_trade
      (mk_signal_source (Some "trading_signals_1.log")
                        (fun _ => ([], ""))
                        (fun _ => Some 1%Z))
      (paper_exchange (inr (Some 100)) (Some (2 # 5)) [] []) fresh
    = ({| world := world fresh; trace := trace fresh ++ [ev_log_no_signal] |},
       Returned c) /\
    c <> cycle_completed.
Proof.
  apply (cycle_without_signal_leaves_exchange_alone
           (paper_exchange (inr (Some 100)) (Some (2 # 5)) [] [])
           (mk_signal_source (Some "trading_signals_1.log")
                             (fun _ => ([], ""))
                             (fun _ => Some 1%Z))
           fresh).
  reflexivity.
Defined.

Lemma balance_not_positive_aborts_cycle_witness :
  exists s' c tail,
    run_daily_trade
      (mk_signal_source (Some "trading_signals_1.log")
                        (fun _ => ([("BTCUSDT", 10)], "2024-01-01"))
                        (fun _ => Some 1%Z))
      (paper_exchange (inr (Some 0)) (Some (2 # 5)) [] []) fresh
    = (s', Returned c) /\
    c <> cycle_completed /\
    trace s' = trace fresh ++ tail /\
    Forall (fun ev => ~ trading_event ev) tail.
Proof.
  apply (balance_not_positive_aborts_cycle
           (paper_exchange (inr (Some 0)) (Some (2 # 5)) [] [])
           (mk_signal_source (Some "trading_signals_1.log")
                             (fun _ => ([("BTCUSDT", 10)], "2024-01-01"))
                             (fun _ => Some 1%Z))
           fresh O (Some 0)).
  - reflexivity.
  - discriminate.
Defined.

Lemma stale_signal_only_adds_warning_witness :
  exists (w : nat) (rest : list event) (r : outcome cycle_end),
    forall (days : string -> option Z) (days_diff : Z),
      days "2024-01-01" = Some days_diff ->
      run_daily_trade
        (mk_signal_source
           (get_latest_log_file
              (mk_signal_source (Some "trading_signals_1.log")
                 (fun _ => ([("BTCUSDT", 10)], "2024-01-01")) (fun _ => Some 10%Z)))
           (parse_log_file
              (mk_signal_source (Some "trading_signals_1.log")
                 (fun _ => ([("BTCUSDT", 10)], "2024-01-01")) (fun _ => Some 10%Z)))
           days)
        (paper_exchange (inr (Some 100)) (Some (2 # 5)) [] []) fresh
      = ({| world := w;
            trace := trace fresh
                     ++ (if (3 <? days_diff)%Z then [ev_log_stale_signal] else [])
                     ++ ev_set_hedge_mode :: ev_fetch_balance :: rest |},
         r).
Proof.
  apply (stale_signal_only_adds_warning
           (paper_exchange (inr (Some 100)) (Some (2 # 5)) [] [])
           (mk_signal_source (Some "trading_signals_1.log")
              (fun _ => ([("BTCUSDT", 10)], "2024-01-01")) (fun _ => Some 10%Z))
           fresh "trading_signals_1.log" "2024-01-01" [("BTCUSDT", 10)]).
  - reflexivity.
  - reflexivity.
  - discriminate.
Defined.

(** The cycle on a signal of one day and on a signal of ten days. *)
Example cycle_with_fresh_and_stale_signal :
  run_daily_trade
    (mk_signal_source (Some "trading_signals_1.log")
       (fun _ => ([("BTCUSDT", 10)], "2024-01-01")) (fun _ => Some 1%Z))
    (paper_exchange (inr (Some 100)) (Some (2 # 5)) [] []) fresh
  = ({| world := 1%nat;
        trace := [ev_set_hedge_mode; ev_fetch_balance; ev_fetch_positions None;
                  ev_set_leverage "BTCUSDT" 1; ev_fetch_ticker "BTCUSDT";
                  ev_fetch_positions (Some "BTCUSDT"); ev_market "BTCUSDT";
                  ev_create_order "BTCUSDT" buy 13 (mk_params (Some LONG) None);
                  ev_fetch_positions None] |},
     Returned cycle_completed) /\
  run_daily_trade
    (mk_signal_source (Some "trading_signals_1.log")
       (fun _ => ([("BTCUSDT", 10)], "2024-01-01")) (fun _ => Some 10%Z))
    (paper_exchange (inr (Some 100)) (Some (2 # 5)) [] []) fresh
  = ({| world := 1%nat;
        trace := [ev_log_stale_signal;
                  ev_set_hedge_mode; ev_fetch_balance; ev_fetch_positions None;
                  ev_set_leverage "BTCUSDT" 1; ev_fetch_ticker "BTCUSDT";
                  ev_fetch_positions (Some "BTCUSDT"); ev_market "BTCUSDT";
                  ev_create_order "BTCUSDT" buy 13 (mk_params (Some LONG) None);
                  ev_fetch_positions None] |},
     Returned cycle_completed).
Proof. split; vm_compute; reflexivity. Qed.

(** ** The signal reader *)

Lemma max_by_spec (key : string -> option Q) (rest : list string) :
  forall best best_key latest,
  key best = Some best_key ->
  max_by key best best_key rest = Some latest ->
  In latest (best :: rest) /\
  exists latest_key,
    key latest = Some latest_key /\
    forall f, In f (best :: rest) ->
              exists k, key f = Some k /\ k <= latest_key.
Proof.
  induction rest as [|f rest IH]; intros best best_key latest Hbest H; simpl in H.
  - inversion H; subst. split; [now left|].
    exists best_key. split; [assumption|].
    intros f [<-|[]]. exists best_key. split; [assumption | lra].
  - destruct (key f) as [k|] eqn:Ek; [|discriminate].
    destruct (Qlt_bool best_key k) eqn:E;
      [apply Qlt_bool_iff in E | apply Qlt_bool_false_iff in E].
    + destruct (IH f k latest Ek H) as (Hin & lk & Hlk & Hmax).
      split; [simpl in *; tauto|].
      exists lk. split; [assumption|].
      intros g [<-|Hg].
      * exists best_key. split; [assumption|].
        destruct (Hmax f (or_introl eq_refl)) as (k' & Hk' & Hle).
        rewrite Ek in Hk'. inversion Hk'; subst. lra.
      * apply Hmax, Hg.
    + destruct (IH best best_key latest Hbest H) as (Hin & lk & Hlk & Hmax).
      split; [simpl in *; tauto|].
      exists lk. split; [assumption|].
      intros g [<-|[<-|Hg]].
      * apply Hmax. now left.
      * exists k. split; [assumption|].
        destruct (Hmax best (or_introl eq_refl)) as (k' & Hk' & Hle).
        rewrite Hbest in Hk'. inversion Hk'; subst. lra.
      * apply Hmax. now right.
Qed.

(** X26. The log file the reader returns is the newest signal log of its
    directory: a listed name that starts with trading_signals_ and ends in
    .log, joined to the directory, and no other such name has a later
    modification time. *)
Theorem latest_log_file_is_newest (log_dir : string) (fs : log_directory)
    (path : string) :
  LogSignalReader_get_latest_log_file log_dir fs = Some path ->
  exists names f t,
    listdir fs = Some names /\ In f names /\ is_signal_log f = true /\
    path = join_path log_dir f /\
    getmtime fs path = Some t /\
    forall g, In g names -> is_signal_log g = true ->
              exists tg, getmtime fs (join_path log_dir g) = Some tg /\ tg <= t.
Proof.
  unfold LogSignalReader_get_latest_log_file. intro H.
  destruct (dir_exists fs); [|discriminate]. cbn [negb] in H.
  destruct (listdir fs) as [names|]; [|discriminate]. cbv zeta in H.
  destruct (filter is_signal_log names) as [|f0 rest] eqn:Ef; [discriminate|].
  destruct (getmtime fs (join_path log_dir f0)) as [k0|] eqn:Ek; [|discriminate].
  destruct (max_by (fun f => getmtime fs (join_path log_dir f)) f0 k0 rest)
    as [latest|] eqn:Em; [|discriminate].
  inversion H; subst path. clear H.
  destruct (max_by_spec (fun f => getmtime fs (join_path log_dir f)) rest
              f0 k0 latest Ek Em) as (Hin & lk & Hlk & Hmax).
  rewrite <- Ef in Hin, Hmax. apply filter_In in Hin. destruct Hin as [Hin Hsig].
  exists names, latest, lk. repeat split; try assumption.
  intros g Hg Hgs. apply Hmax. apply filter_In. auto.
Qed.

Lemma latest_log_file_is_newest_witness :
  exists names f t,
    listdir (mk_log_directory true
               (Some ["notes.txt"; "trading_signals_1.log"; "trading_signals_2.log"])
               (fun p => if String.eqb p "trading_logs/trading_signals_2.log"
                         then Some 20 else Some 10))
    = Some names /\ In f names /\ is_signal_log f = true /\
    "trading_logs/trading_signals_2.log" = join_path "trading_logs" f /\
    getmtime (mk_log_directory true
               (Some ["notes.txt"; "trading_signals_1.log"; "trading_signals_2.log"])
               (fun p => if String.eqb p "trading_logs/trading_signals_2.log"
                         then Some 20 else Some 10))
      "trading_logs/trading_signals_2.log" = Some t /\
    forall g, In g names -> is_signal_log g = true ->
      exists tg,
        getmtime (mk_log_directory true
                    (Some ["notes.txt"; "trading_signals_1.log"; "trading_signals_2.log"])
                    (fun p => if String.eqb p "trading_logs/trading_signals_2.log"
                              then Some 20 else Some 10))
          (join_path "trading_logs" g) = Some tg /\ tg <= t.
Proof.
  apply (latest_log_file_is_newest "trading_logs"
           (mk_log_directory true
              (Some ["notes.txt"; "trading_signals_1.log"; "trading_signals_2.log"])
              (fun p => if String.eqb p "trading_logs/trading_signals_2.log"
                        then Some 20 else Some 10))
           "trading_logs/trading_signals_2.log").
  reflexivity.
Defined.

Lemma keys_dict_merge {V : Type} (b : dict V) :
  forall a : dict V, NoDup (keys a) -> NoDup (keys (dict_merge a b)).
Proof.
  unfold dict_merge. induction b as [|[k v] b IH]; intros a Ha; simpl.
  - assumption.
  - apply IH, keys_dict_set_nodup, Ha.
Qed.

Lemma dict_get_merge_other {V : Type} (b : dict V) :
  forall (a : dict V) (k : string),
  ~ In k (keys b) -> dict_get (dict_merge a b) k = dict_get a k.
Proof.
  unfold dict_merge. induction b as [|[k0 v0] b IH]; intros a k Hk; simpl.
  - reflexivity.
  - rewrite IH by (intro H; apply Hk; now right).
    apply dict_get_set_other. intros ->. apply Hk. now left.
Qed.

Lemma dict_get_merge_in {V : Type} (b : dict V) :
  forall (a : dict V) (k : string) (v : V),
  NoDup (keys b) -> In (k, v) b -> dict_get (dict_merge a b) k = Some v.
Proof.
  induction b as [|[k0 v0] b IH]; intros a k v Hnd Hin; [contradiction|].
  inversion Hnd as [|? ? Hnotin Hnd']; subst.
  change (dict_merge a ((k0, v0) :: b)) with (dict_merge (dict_set a k0 v0) b).
  destruct Hin as [Heq|Hin].
  - inversion Heq; subst.
    rewrite dict_get_merge_other by assumption. apply dict_get_set_same.
  - apply IH; assumption.
Qed.

Lemma read_long_matches_keys (float : string -> option Q)
    (matches : list (string * string)) :
  forall acc d, NoDup (keys acc) ->
  read_long_matches float matches acc = Some d -> NoDup (keys d).
Proof.
  induction matches as [|[sym size] rest IH]; intros acc d Hacc H; simpl in H.
  - inversion H; subst. assumption.
  - destruct (float size); [|discriminate].
    eapply IH; [|exact H]. apply keys_dict_set_nodup, Hacc.
Qed.

Lemma read_short_matches_inv (float : string -> option Q)
    (matches : list (string * string)) :
  forall acc d,
  NoDup (keys acc) -> Forall (fun kv => snd kv <= 0) acc ->
  read_short_matches float matches acc = Some d ->
  NoDup (keys d) /\ Forall (fun kv => snd kv <= 0) d /\
  forall k, In k (keys d) <-> In k (keys acc) \/ In k (map fst matches).
Proof.
  induction matches as [|[sym size] rest IH]; intros acc d Hnd Hacc H; simpl in H.
  - inversion H; subst. repeat split; try assumption; [tauto|].
    intros [Hk|[]]. assumption.
  - destruct (float size) as [x|]; [|discriminate]. cbv zeta in H.
    apply IH in H.
    + destruct H as (H1 & H2 & H3). split; [assumption|]. split; [assumption|].
      intro k. rewrite H3, keys_dict_set. cbn [map fst In].
      destruct (dict_mem acc sym) eqn:E.
      * apply dict_mem_iff in E. split; [tauto|].
        intros [Hk|[<-|Hk]]; tauto.
      * rewrite in_app_iff. cbn [In]. tauto.
    + apply keys_dict_set_nodup, Hnd.
    + apply Forall_forall. intros [k v] Hin. apply in_dict_set in Hin.
      destruct Hin as [[_ ->]|Hin].
      * cbn [snd]. case_lt; lra.
      * rewrite Forall_forall in Hacc. apply (Hacc _ Hin).
Qed.

(** X27. The positions read from a log are a dictionary; every symbol of
    the short section has a target that is not positive, whatever the long
    section says of it, and every other symbol has the target of the long
    section. *)
Theorem short_section_targets_not_positive (float : string -> option Q)
    (long_matches short_matches : list (string * string))
    (long_positions : dict Q) :
  read_long_matches float long_matches [] = Some long_positions ->
  read_short_matches float short_matches [] <> None ->
  let positions := LogSignalReader_parse_positions float long_matches short_matches in
  NoDup (keys positions) /\
  (forall k, In k (map fst short_matches) ->
             exists v, dict_get positions k = Some v /\ v <= 0) /\
  (forall k, ~ In k (map fst short_matches) ->
             dict_get positions k = dict_get long_positions k).
Proof.
  intros El Hs. cbv zeta. unfold LogSignalReader_parse_positions. rewrite El.
  destruct (read_short_matches float short_matches []) as [sp|] eqn:Es; [|congruence].
  pose proof (read_long_matches_keys float long_matches [] long_positions
                (NoDup_nil _) El) as Hlp.
  destruct (read_short_matches_inv float short_matches [] sp
              (NoDup_nil _) (Forall_nil _) Es) as (Hsp & Hneg & Hkeys).
  split; [apply keys_dict_merge, Hlp|]. split.
  - intros k Hk. assert (Hin : In k (keys sp)) by (apply Hkeys; now right).
    destruct (in_keys_inv _ _ Hin) as [v Hv].
    exists v. split; [apply dict_get_merge_in; assumption|].
    rewrite Forall_forall in Hneg. apply (Hneg (k, v) Hv).
  - intros k Hk. apply dict_get_merge_other.
    intro Hin. apply Hkeys in Hin. destruct Hin as [[]|Hin]. contradiction.
Qed.

Lemma short_section_targets_not_positive_witness :
  let float := fun s : string =>
                 if String.eqb s "12.5" then Some (25 # 2)
                 else if String.eqb s "3" then Some 3 else None in
  let positions :=
    LogSignalReader_parse_positions float
      [("BTCUSDT", "12.5"); ("ETHUSDT", "3")] [("ETHUSDT", "3")] in
  NoDup (keys positions) /\
  (forall k, In k (map fst [("ETHUSDT", "3")]) ->
             exists v, dict_get positions k = Some v /\ v <= 0) /\
  (forall k, ~ In k (map fst [("ETHUSDT", "3")]) ->
             dict_get positions k
             = dict_get [("BTCUSDT", 25 # 2); ("ETHUSDT", 3)] k).
Proof.
  apply (short_section_targets_not_positive
           (fun s : string =>
              if String.eqb s "12.5" then Some (25 # 2)
              else if String.eqb s "3" then Some 3 else None)
           [("BTCUSDT", "12.5"); ("ETHUSDT", "3")] [("ETHUSDT", "3")]
           [("BTCUSDT", 25 # 2); ("ETHUSDT", 3)]).
  - reflexivity.
  - discriminate.
Defined.

Lemma read_long_matches_rejects (float : string -> option Q)
    (matches : list (string * string)) (sym size : string) :
  In (sym, size) matches -> float size = None ->
  forall acc, read_long_matches float matches acc = None.
Proof.
  induction matches as [|[sym' size'] rest IH]; intros Hin Hf acc; [contradiction|].
  simpl. destruct Hin as [Heq|Hin].
  - inversion Heq; subst. now rewrite Hf.
  - destruct (float size'); [apply IH; assumption | reflexivity].
Qed.

Lemma read_short_matches_rejects (float : string -> option Q)
    (matches : list (string * string)) (sym size : string) :
  In (sym, size) matches -> float size = None ->
  forall acc, read_short_matches float matches acc = None.
Proof.
  induction matches as [|[sym' size'] rest IH]; intros Hin Hf acc; [contradiction|].
  simpl. destruct Hin as [Heq|Hin].
  - inversion Heq; subst. now rewrite Hf.
  - destruct (float size'); [apply IH; assumption | reflexivity].
Qed.

(** X28. One size that is no number discards the whole signal: when
    [float] rejects the size of any match, of either section, the reader
    returns no position at all. *)
Theorem malformed_size_discards_signal (float : string -> option Q)
    (long_matches short_matches : list (string * string)) (sym size : string) :
  In (sym, size) (long_matches ++ short_matches) -> float size = None ->
  LogSignalReader_parse_positions float long_matches short_matches = [].
Proof.
  intros Hin Hf. unfold LogSignalReader_parse_positions.
  apply in_app_or in Hin. destruct Hin as [Hin|Hin].
  - now rewrite (read_long_matches_rejects float long_matches sym size Hin Hf).
  - rewrite (read_short_matches_rejects float short_matches sym size Hin Hf).
    destruct (read_long_matches float long_matches []); reflexivity.
Qed.

Lemma malformed_size_discards_signal_witness :
  LogSignalReader_parse_positions
    (fun s : string => if String.eqb s "3" then Some 3 else None)
    [("BTCUSDT", "3")] [("ETHUSDT", "1.2.3")] = [].
Proof.
  apply (malformed_size_discards_signal
           (fun s : string => if String.eqb s "3" then Some 3 else None)
           [("BTCUSDT", "3")] [("ETHUSDT", "1.2.3")] "ETHUSDT" "1.2.3").
  - simpl. tauto.
  - reflexivity.
Defined.
